(** * Gender-Equality-and-Sustainability: data handler and completeness ranker

    A shallow embedding of [src/completeness.py] and [src/data_handler.py].

    Python values are modelled as follows.
    - [int] is [Z]; [str] is [string], one [ascii] per code point, which covers
      the ISO-8859-1 repertoire the HDI file is decoded with.
    - [float] results of [int / int] are the exact rationals [Q]: Python's true
      division rounds the exact quotient to the nearest double, rounding is
      monotone and keeps 0 and 1 fixed, and two quotients with the same
      denominator below 2^53 stay distinct.
    - a [dict] is an association list in insertion order.
    - a raised exception is the left injection of [result]; the caller of a
      function sees [inl e] exactly when the Python call raises [e].
    - a DataFrame is a list of column labels and a list of rows; its index is
      the position in the list, so [reset_index(drop=True)] leaves the list
      as it is.
    - the library sort is modelled from the library: [sort_values] is
      pandas' [nargsort] over numpy's default quicksort (modules [Numpy],
      [Pandas] and [Ranker_Sort]); the ranker itself takes the sort as a
      parameter, so that what does not depend on the algorithm is proved
      for every sort that meets the documented contract. *)

From Stdlib Require Import List String Ascii Bool Arith ZArith QArith Lia.
From Stdlib Require Import Permutation Sorted.
Import ListNotations.

Close Scope Q_scope.
Set Implicit Arguments.

(** ** Exceptions and the error monad *)

Inductive exn : Type :=
| ValueError (msg : string)
| OverflowError (msg : string)
| KeyError (msg : string)
| TypeError (msg : string)
| AttributeError (msg : string)
| FileNotFoundError (msg : string)
| ProviderError (msg : string).

Definition result (A : Type) : Type := (exn + A)%type.

Definition ret {A : Type} (a : A) : result A := inr a.
Definition raise {A : Type} (e : exn) : result A := inl e.

Definition bind {A B : Type} (m : result A) (k : A -> result B) : result B :=
  match m with
  | inl e => inl e
  | inr a => k a
  end.

Declare Scope py_scope.
Delimit Scope py_scope with py.
Notation "x <- m ;; k" := (bind m (fun x => k))
  (at level 61, m at next level, right associativity) : py_scope.

(** ** Completeness ranker ([src/completeness.py]) *)

Module Completeness_Ranker.

(** One entry of the catalog returned by [wbdata.get_indicators]. *)
Record indicator : Type := { ind_id : string; ind_name : string }.

(** One observation returned by [wbdata.get_data]:
    [d['country']['value']], [d['date']] and [d['value']]. *)
Record datum : Type :=
  { d_country : string; d_date : string; d_value : option Q }.

(** [datetime.datetime(year, 1, 1)]. *)
Record datetime : Type := { dt_year : Z; dt_month : Z; dt_day : Z }.

Definition MINYEAR : Z := 1.
Definition MAXYEAR : Z := 9999.

Definition datetime_jan1 (year : Z) : result datetime :=
  if ((year <? - 2 ^ 31) || (2 ^ 31 - 1 <? year))%Z then
    raise (OverflowError "Python int too large to convert to C int")
  else if ((year <? MINYEAR) || (MAXYEAR <? year))%Z then
    raise (ValueError "year is out of range")
  else ret {| dt_year := year; dt_month := 1; dt_day := 1 |}.

(** The data provider: the two [wbdata] calls the ranker makes. *)
Record wbdata : Type :=
  { get_indicators : Z -> result (list indicator);
    get_data : string -> datetime * datetime -> result (list datum) }.

(** Rows of the two tables the ranker builds. *)
Record obs_row : Type :=
  { o_indicator : string; o_country : string; o_date : string; o_value : Q }.

Record summary_row : Type :=
  { s_code : string; s_name : string; s_completeness : Q; s_count : nat }.

(** What the ranker prints on standard output. *)
Inductive line : Type :=
| Found (n : nat) (source : Z)
| Fetching
| Retrieved (n : nat)
| ErrorFetching (e : exn)
| Traceback (e : exn).

(** How a call ends: an exception reaches the caller, or a pair is returned. *)
Inductive outcome : Type :=
| Raised (e : exn)
| Returned (top : option (list summary_row)) (df : option (list obs_row)).

(** [d[k] = v] on an insertion-ordered dict: an existing key keeps its place. *)
Fixpoint dict_set (d : list (string * string)) (k v : string)
  : list (string * string) :=
  match d with
  | [] => [(k, v)]
  | (k', v') :: d' =>
      if String.eqb k' k then (k', v) :: d' else (k', v') :: dict_set d' k v
  end.

(** One turn of the dict comprehension: [d[ind['id']] = ind['name']]. *)
Definition catalog_step (d : list (string * string)) (ind : indicator)
  : list (string * string) :=
  dict_set d (ind_id ind) (ind_name ind).

(** [{ind['id']: ind['name'] for ind in indicators}] *)
Definition indicator_dict (indicators : list indicator)
  : list (string * string) :=
  fold_left catalog_step indicators [].

Definition keys (d : list (string * string)) : list string := map fst d.

(** [Series.unique()]: distinct values in order of first appearance. *)
Fixpoint unique (l : list string) : list string :=
  match l with
  | [] => []
  | x :: l' => x :: filter (fun y => negb (String.eqb y x)) (unique l')
  end.

(** One turn of the fetch loop: the rows one indicator adds to [all_data].
    The bare [except: continue] turns every failure into no rows. *)
Definition fetch_rows (w : wbdata) (date_range : datetime * datetime)
  (code : string) : list obs_row :=
  match get_data w code date_range with
  | inl _ => []
  | inr data =>
      flat_map
        (fun d =>
           match d_value d with
           | Some v =>
               [{| o_indicator := code; o_country := d_country d;
                   o_date := d_date d; o_value := v |}]
           | None => []
           end)
        data
  end.

Definition all_data (w : wbdata) (date_range : datetime * datetime)
  (d : list (string * string)) : list obs_row :=
  flat_map (fetch_rows w date_range) (keys d).

(** [len(df['country'].unique()) * (end_year - start_year + 1)] *)
Definition total_possible (df : list obs_row) (start_year end_year : Z) : Z :=
  (Z.of_nat (List.length (unique (map o_country df)))
   * (end_year - start_year + 1))%Z.

(** [len(df[df['indicator'] == code])] *)
Definition count_rows (df : list obs_row) (code : string) : nat :=
  List.length (filter (fun r => String.eqb (o_indicator r) code) df).

(** [count / total_possible if total_possible > 0 else 0] *)
Definition completeness (count : nat) (total : Z) : Q :=
  (if (0 <? total)%Z then inject_Z (Z.of_nat count) / inject_Z total else 0)%Q.

Definition results (df : list obs_row) (start_year end_year : Z)
  (d : list (string * string)) : list summary_row :=
  let total := total_possible df start_year end_year in
  map
    (fun kv =>
       let count := count_rows df (fst kv) in
       {| s_code := fst kv; s_name := snd kv;
          s_completeness := completeness count total; s_count := count |})
    d.

(** The order [sort_values(by="Completeness", ascending=False)] must
    establish between a row and every later row. *)
Definition desc (a b : summary_row) : Prop :=
  (s_completeness b <= s_completeness a)%Q.

Definition desc_sorted (l : list summary_row) : Prop := StronglySorted desc l.

Section Ranker.

(** [summary.sort_values(by="Completeness", ascending=False)].  The call
    does not pass [kind], so pandas sorts with its default algorithm; the
    library code is not part of the repository and is taken as a
    parameter, constrained only where a proof needs it by the contract
    [sort_values_contract] below.  [Ranker_Sort.sort_values] further down
    is the routine that pandas and numpy run for this call. *)
Variable sort_values : list summary_row -> list summary_row.

Definition rank_indicators_by_completeness (w : wbdata)
  (source start_year end_year : Z) (top_n : Z) : list line * outcome :=
  match get_indicators w source with
  | inl e => ([], Raised e)
  | inr indicators =>
      let d := indicator_dict indicators in
      let out := [Found (List.length d) source; Fetching] in
      match (s <- datetime_jan1 start_year ;;
             e <- datetime_jan1 end_year ;; ret (s, e))%py with
      | inl e => (out ++ [ErrorFetching e; Traceback e], Returned None None)
      | inr date_range =>
          let df := all_data w date_range d in
          let summary := results df start_year end_year d in
          let top := sort_values summary in
          (out ++ [Retrieved (List.length df)], Returned (Some top) (Some df))
      end
  end.

End Ranker.

(** What pandas documents for [sort_values]: the rows are rearranged, and
    the sort key is in the requested order. *)
Definition sort_values_contract
  (sort_values : list summary_row -> list summary_row) : Prop :=
  forall l, Permutation (sort_values l) l /\ desc_sorted (sort_values l).

(** Ties keep the order of the unsorted table: for every value of the
    key, the rows that carry it come in the same order in both tables. *)
Definition ties_in_order (top summary : list summary_row) : Prop :=
  forall q,
    filter (fun r => Qeq_bool (s_completeness r) q) top
    = filter (fun r => Qeq_bool (s_completeness r) q) summary.

(** A sorting function that meets the contract: it inserts the rows one
    by one, from the last to the first, into a descending table, a new row
    going in front of the first row that is not above it. *)
Fixpoint insert_desc (x : summary_row) (l : list summary_row)
  : list summary_row :=
  match l with
  | [] => [x]
  | y :: l' =>
      if Qle_bool (s_completeness y) (s_completeness x)
      then x :: y :: l' else y :: insert_desc x l'
  end.

Definition sort_from_back (l : list summary_row) : list summary_row :=
  fold_right insert_desc [] l.

(** The date range the ranker asks for. *)
Definition jan1 (year : Z) : datetime :=
  {| dt_year := year; dt_month := 1; dt_day := 1 |}.

(** A provider that answers each request with at most one observation
    per country and date, over at most [years] dates. *)
Definition one_per_cell (w : wbdata) (date_range : datetime * datetime)
  (years : Z) : Prop :=
  forall code,
    let rows := fetch_rows w date_range code in
    NoDup (map (fun r => (o_country r, o_date r)) rows)
    /\ (Z.of_nat (List.length (unique (map o_date rows))) <= years)%Z.

(** Providers used in the examples below. *)
Local Open Scope string_scope.

Definition two_indicators : list indicator :=
  [ {| ind_id := "SG.A"; ind_name := "first" |};
    {| ind_id := "SG.B"; ind_name := "second" |} ].

(** The catalog request fails. *)
Definition offline : wbdata :=
  {| get_indicators := fun _ => raise (ProviderError "connection refused");
     get_data := fun _ _ => raise (ProviderError "connection refused") |}.

(** The catalog is served, every data request fails. *)
Definition catalog_only : wbdata :=
  {| get_indicators := fun _ => ret two_indicators;
     get_data := fun _ _ => raise (ProviderError "timeout") |}.

(** One observation per country and year for the first indicator, half
    of them for the second. *)
Definition well_behaved : wbdata :=
  {| get_indicators := fun _ => ret two_indicators;
     get_data := fun code _ =>
       if String.eqb code "SG.A" then
         ret [ {| d_country := "Chile"; d_date := "2000"; d_value := Some 1%Q |};
               {| d_country := "Chile"; d_date := "2001"; d_value := Some 2%Q |};
               {| d_country := "Kenya"; d_date := "2000"; d_value := Some 3%Q |};
               {| d_country := "Kenya"; d_date := "2001"; d_value := Some 4%Q |} ]
       else
         ret [ {| d_country := "Chile"; d_date := "2000"; d_value := Some 5%Q |};
               {| d_country := "Chile"; d_date := "2001"; d_value := None |};
               {| d_country := "Kenya"; d_date := "2000"; d_value := None |};
               {| d_country := "Kenya"; d_date := "2001"; d_value := Some 6%Q |} ] |}.

(** The same observation is served twice. *)
Definition doubled : wbdata :=
  {| get_indicators := fun _ => ret two_indicators;
     get_data := fun code _ =>
       if String.eqb code "SG.A" then
         ret [ {| d_country := "Chile"; d_date := "2000"; d_value := Some 1%Q |};
               {| d_country := "Chile"; d_date := "2000"; d_value := Some 1%Q |} ]
       else ret [] |}.

(** What the ranker computes from [well_behaved] for 2000-2001. *)
Definition example_df : list obs_row :=
  all_data well_behaved (jan1 2000, jan1 2001) (indicator_dict two_indicators).

Definition example_top : list summary_row :=
  sort_from_back (results example_df 2000 2001 (indicator_dict two_indicators)).

Definition example_row : summary_row :=
  {| s_code := "SG.B"; s_name := "second";
     s_completeness := completeness 2 4; s_count := 2 |}.

End Completeness_Ranker.

(** ** Python string operations used by the data handler *)

Module Py.

Definition code (c : ascii) : nat := nat_of_ascii c.

(** [str.lower()] on one code point of the ISO-8859-1 range: A-Z and the
    accented capitals U+00C0-U+00DE (the sign U+00D7 apart) move by 32. *)
Definition lower_char (c : ascii) : ascii :=
  let n := code c in
  if ((65 <=? n) && (n <=? 90))
     || ((192 <=? n) && (n <=? 222) && negb (n =? 215))
  then ascii_of_nat (n + 32) else c.

Fixpoint lower (s : string) : string :=
  match s with
  | EmptyString => EmptyString
  | String c s' => String (lower_char c) (lower s')
  end.

(** [str.isspace()] on one code point of the ISO-8859-1 range. *)
Definition isspace (c : ascii) : bool :=
  let n := code c in
  ((9 <=? n) && (n <=? 13)) || ((28 <=? n) && (n <=? 32))
  || (n =? 133) || (n =? 160).

Fixpoint lstrip (s : string) : string :=
  match s with
  | EmptyString => EmptyString
  | String c s' => if isspace c then lstrip s' else s
  end.

(** Drops trailing white space: a character is kept when something
    that is kept follows it, or when it is not white space. *)
Fixpoint rstrip (s : string) : string :=
  match s with
  | EmptyString => EmptyString
  | String c s' =>
      match rstrip s' with
      | EmptyString => if isspace c then EmptyString else String c EmptyString
      | r => String c r
      end
  end.

Definition strip (s : string) : string := rstrip (lstrip s).

(** [s.replace(' ', '_')] *)
Fixpoint replace_space (s : string) : string :=
  match s with
  | EmptyString => EmptyString
  | String c s' =>
      String (if Ascii.eqb c " " then "_"%char else c) (replace_space s')
  end.

(** [s.startswith(p)] *)
Definition startswith (s p : string) : bool := String.prefix p s.

(** [s.rsplit(sep, 1)] for a one-character separator: the text before and
    after the last [sep], or [s] alone when it has none. *)
Fixpoint rsplit1 (sep : ascii) (s : string) : list string :=
  match s with
  | EmptyString => [EmptyString]
  | String c s' =>
      match rsplit1 sep s' with
      | [a; b] => [String c a; b]
      | _ => if Ascii.eqb c sep then [EmptyString; s'] else [s]
      end
  end.

(** [s.split(sep)[-1]]: the text after the last [sep]. *)
Definition split_last (sep : ascii) (s : string) : string :=
  last (rsplit1 sep s) EmptyString.

Definition digit (c : ascii) : option Z :=
  let n := code c in
  if (48 <=? n) && (n <=? 57) then Some (Z.of_nat (n - 48)) else None.

(** The digits of an [int] literal, most significant first: underscores
    may stand singly between two digits.  [prev] tells whether the
    previous character was a digit. *)
Fixpoint digits (acc : Z) (prev : bool) (s : string) : option Z :=
  match s with
  | EmptyString => if prev then Some acc else None
  | String c s' =>
      match digit c with
      | Some d => digits (10 * acc + d) true s'
      | None =>
          if Ascii.eqb c "_" && prev then digits acc false s' else None
      end
  end.

(** [int(s)] for a string: surrounding white space, an optional sign,
    decimal digits. [None] is the [ValueError]. *)
Definition int (s : string) : option Z :=
  match strip s with
  | String "-" s' => option_map Z.opp (digits 0 false s')
  | String "+" s' => digits 0 false s'
  | s' => digits 0 false s'
  end.

(** [os.path.join(a, b)] on a POSIX system. *)
Definition path_join (a b : string) : string :=
  if startswith b "/" then b
  else
    match a with
    | EmptyString => b
    | _ =>
        if Ascii.eqb (last (list_ascii_of_string a) " "%char) "/"
        then a ++ b else a ++ "/" ++ b
    end.

End Py.

(** ** Data frames *)

Module Frame.

(** A cell read from a CSV file: missing, text or a number. *)
Inductive cell : Type :=
| Null
| Str (s : string)
| Num (q : Q).

Record DataFrame : Type :=
  { columns : list string; rows : list (list cell) }.

(** The file system as [pd.read_csv] and [os.path.exists] see it:
    [None] when the path does not exist, otherwise what reading gives. *)
Definition filesystem : Type := string -> option (result DataFrame).

Definition exists_ (fs : filesystem) (path : string) : bool :=
  match fs path with
  | Some _ => true
  | None => false
  end.

Definition read_csv (fs : filesystem) (path : string) : result DataFrame :=
  match fs path with
  | Some r => r
  | None => raise (FileNotFoundError path)
  end.

(** [df.columns.str.strip().str.lower().str.replace(' ', '_')] *)
Definition normalize_columns (df : DataFrame) : DataFrame :=
  {| columns :=
       map (fun c => Py.replace_space (Py.lower (Py.strip c))) (columns df);
     rows := rows df |}.

Definition mem (x : string) (l : list string) : bool :=
  existsb (String.eqb x) l.

(** Positions of a label among the column labels, counted from [i]. *)
Fixpoint positions_from (i : nat) (label : string) (cols : list string)
  : list nat :=
  match cols with
  | [] => []
  | c :: cols' =>
      if String.eqb c label then i :: positions_from (S i) label cols'
      else positions_from (S i) label cols'
  end.

(** Positions of the columns whose label passes a test, counted from [i]. *)
Fixpoint positions_where (f : string -> bool) (i : nat) (cols : list string)
  : list nat :=
  match cols with
  | [] => []
  | c :: cols' =>
      if f c then i :: positions_where f (S i) cols'
      else positions_where f (S i) cols'
  end.

(** [columns.get_indexer_for(labels)]: every position of every label. *)
Definition get_indexer_for (cols labels : list string) : list nat :=
  flat_map (fun l => positions_from 0 l cols) labels.

(** [algos.unique]: first occurrences, in order. *)
Fixpoint unique_pos (l : list nat) : list nat :=
  match l with
  | [] => []
  | x :: l' => x :: filter (fun y => negb (Nat.eqb y x)) (unique_pos l')
  end.

(** A row of a melted frame: the id cells, the label of the value column
    and the cell found there. *)
Record melted : Type :=
  { m_ids : list cell; m_var : string; m_value : cell }.

Definition cell_at (r : list cell) (p : nat) : cell := nth p r Null.

(** The rows of a melted frame: the value columns are taken by position,
    column after column, each with all the rows of the wide frame. *)
Definition unpivot (df : DataFrame) (id_pos value_pos : list nat)
  : list melted :=
  flat_map
    (fun p =>
       map
         (fun r =>
            {| m_ids := map (cell_at r) id_pos;
               m_var := nth p (columns df) EmptyString;
               m_value := cell_at r p |})
         (rows df))
    value_pos.

(** [df.melt(id_vars=..., value_vars=..., var_name=..., value_name='value')].
    A column that is already called [value] is refused.  A label of
    [id_vars] or [value_vars] that is no column is a [KeyError].  An id
    label that names several columns makes the id block two-dimensional
    and the call fails. *)
Definition melt (df : DataFrame) (id_vars value_vars : list string)
  : result (list melted) :=
  if mem "value" (columns df) then
    raise (ValueError "value_name (value) cannot match an element in the DataFrame columns.")
  else if negb (forallb (fun v => mem v (columns df)) id_vars) then
    raise (KeyError "The following id_vars are not present in the DataFrame")
  else if negb (forallb (fun v => mem v (columns df)) value_vars) then
    raise (KeyError "The following value_vars are not present in the DataFrame")
  else if negb (forallb
                  (fun v =>
                     List.length (positions_from 0 v (columns df)) =? 1)
                  id_vars) then
    raise (ValueError "Per-column arrays must each be 1-dimensional")
  else
    ret (unpivot df
           (get_indexer_for (columns df) id_vars)
           (unique_pos (get_indexer_for (columns df) value_vars))).

(** [series.str]: the accessor refuses a column of numbers. *)
Definition is_Str (c : cell) : bool :=
  match c with
  | Str _ => true
  | _ => false
  end.

Definition str_accessor (col : list cell) : result unit :=
  match col with
  | [] => ret tt
  | _ =>
      if existsb is_Str col then ret tt
      else raise (AttributeError
                    "Can only use .str accessor with string values!")
  end.

(** One element of [series.str.lower()]: what is not text gives NaN. *)
Definition str_lower (c : cell) : option string :=
  match c with
  | Str s => Some (Py.lower s)
  | _ => None
  end.

(** One element of [series.isin(values)]. *)
Definition isin (values : list string) (x : option string) : bool :=
  match x with
  | Some s => mem s values
  | None => false
  end.

(** [astype(int)] on one string of an object column. *)
Definition astype_int (s : string) : result Z :=
  match Py.int s with
  | None => raise (ValueError "invalid literal for int() with base 10")
  | Some z =>
      if ((z <? - 2 ^ 63) || (2 ^ 63 - 1 <? z))%Z
      then raise (OverflowError "Python int too large to convert to C long")
      else ret z
  end.

(** Runs [f] over a list, stopping at the first exception. *)
Fixpoint mapM {A B : Type} (f : A -> result B) (l : list A)
  : result (list B) :=
  match l with
  | [] => ret []
  | a :: l' => (b <- f a ;; bs <- mapM f l' ;; ret (b :: bs))%py
  end.

End Frame.

(** ** Data handler ([src/data_handler.py]) *)

Module Data_Handler.

Import Frame.
Local Open Scope string_scope.
Local Open Scope list_scope.

(** A caller's [indicators] dict: code to readable name. *)
Definition mapping : Type := list (string * string).

(** [indicators.get(k)], which is what [Series.map(indicators)] applies:
    a key the dict lacks gives a missing value. *)
Fixpoint lookup (indicators : mapping) (k : string) : option string :=
  match indicators with
  | [] => None
  | (k', v) :: rest => if String.eqb k' k then Some v else lookup rest k
  end.

(** The [countries] argument: a single name or a list of names. *)
Definition country_list (countries : string + list string) : list string :=
  match countries with
  | inl s => [s]
  | inr l => l
  end.

(** [frame[frame['country'].str.lower().isin([c.lower() for c in countries])]] *)
Definition filter_countries {R : Type} (country : R -> cell)
  (countries : list string) (frame : list R) : result (list R) :=
  (_ <- str_accessor (map country frame) ;;
   let wanted := map Py.lower countries in
   ret (filter (fun r => isin wanted (str_lower (country r))) frame))%py.

Definition filter_countries_opt {R : Type} (country : R -> cell)
  (countries : option (string + list string)) (frame : list R)
  : result (list R) :=
  match countries with
  | None => ret frame
  | Some c => filter_countries country (country_list c) frame
  end.

(** *** HDI *)

Record hdi_row : Type :=
  { iso3 : cell; country : cell; region : cell; value : cell;
    metric : string; year : Z; metric_name : option string }.

Definition id_vars : list string := ["iso3"; "country"; "region"].

(** Columns that start with a key of the mapping followed by [_]. *)
Definition is_value_var (indicators : mapping) (col : string) : bool :=
  existsb (fun kv => Py.startswith col (fst kv ++ "_")) indicators.

Definition value_vars (df : DataFrame) (indicators : mapping) : list string :=
  filter (is_value_var indicators) (columns df).

(** Number of columns of [series.str.rsplit('_', n=1, expand=True)]: the
    longest split, none at all for a series without rows. *)
Definition expand_width (parts : list (list string)) : nat :=
  fold_right Nat.max 0 (map (@List.length string) parts).

Definition hdi_of_melted (indicators : mapping) (m : melted)
  : result hdi_row :=
  match Py.rsplit1 "_" (m_var m) with
  | [a; b] =>
      (y <- astype_int b ;;
       ret {| iso3 := nth 0 (m_ids m) Null;
              country := nth 1 (m_ids m) Null;
              region := nth 2 (m_ids m) Null;
              value := m_value m;
              metric := a; year := y;
              metric_name := lookup indicators a |})%py
  | _ => raise (TypeError "int() argument must be a string, not 'NoneType'")
  end.

Definition reshape_long_HDI (df : DataFrame) (indicators : mapping)
  : result (list hdi_row) :=
  (long_df <- melt df id_vars (value_vars df indicators) ;;
   let parts := map (fun m => Py.rsplit1 "_" (m_var m)) long_df in
   if negb (Nat.eqb (expand_width parts) 2) then
     raise (ValueError "Columns must be same length as key")
   else mapM (hdi_of_melted indicators) long_df)%py.

Definition filter_start (start_year : option Z) (frame : list hdi_row)
  : list hdi_row :=
  match start_year with
  | None => frame
  | Some s => filter (fun r => (s <=? year r)%Z) frame
  end.

Definition filter_end (end_year : option Z) (frame : list hdi_row)
  : list hdi_row :=
  match end_year with
  | None => frame
  | Some e => filter (fun r => (year r <=? e)%Z) frame
  end.

Definition get_data_HDI (fs : filesystem) (filepath : string)
  (indicators : mapping) (countries : option (string + list string))
  (start_year end_year : option Z) : result (list hdi_row) :=
  (df <- read_csv fs filepath ;;
   long_df <- reshape_long_HDI (normalize_columns df) indicators ;;
   long_df <- filter_countries_opt country countries long_df ;;
   ret (filter_end end_year (filter_start start_year long_df)))%py.

(** *** EPI *)

Record epi_row : Type :=
  { e_iso : cell; e_country : cell; e_value : cell; e_year : Z;
    e_variable : string; e_variable_name : string }.

Definition epi_filename (folder_path var : string) : string :=
  Py.path_join folder_path (var ++ "_ind_na.csv").

Definition epi_of_melted (var var_name : string) (m : melted)
  : result epi_row :=
  (y <- astype_int (Py.split_last "." (m_var m)) ;;
   ret {| e_iso := nth 0 (m_ids m) Null;
          e_country := nth 1 (m_ids m) Null;
          e_value := m_value m; e_year := y;
          e_variable := var; e_variable_name := var_name |})%py.

(** The body of the loop over [indicators.items()]. *)
Definition load_EPI (fs : filesystem) (folder_path : string)
  (item : string * string) : result (list epi_row) :=
  let (var, var_name) := item in
  let filename := epi_filename folder_path var in
  if negb (exists_ fs filename) then
    raise (FileNotFoundError ("File " ++ filename ++ " not found."))
  else
    (df <- read_csv fs filename ;;
     let df := normalize_columns df in
     let year_cols :=
       filter (fun col => Py.startswith col (Py.lower var ++ ".ind."))
         (columns df) in
     long_df <- melt df ["iso"; "country"] year_cols ;;
     mapM (epi_of_melted var var_name) long_df)%py.

(** [pd.concat(all_dfs, ignore_index=True)] *)
Definition concat (all_dfs : list (list epi_row)) : result (list epi_row) :=
  match all_dfs with
  | [] => raise (ValueError "No objects to concatenate")
  | _ => ret (List.concat all_dfs)
  end.

(** [result[(result['year'] >= start_year) & (result['year'] <= end_year)]]:
    pandas compares a column with [None] without raising and answers
    False in every row, so a missing bound keeps no row. *)
Definition filter_years_EPI (start_year end_year : option Z)
  (frame : list epi_row) : result (list epi_row) :=
  match start_year, end_year with
  | Some s, Some e =>
      ret (filter (fun r => (s <=? e_year r)%Z && (e_year r <=? e)%Z) frame)
  | _, _ => ret []
  end.

Definition get_data_EPI (fs : filesystem) (indicators : mapping)
  (countries : option (string + list string))
  (start_year end_year : option Z) (folder_path : string)
  : result (list epi_row) :=
  (all_dfs <- mapM (load_EPI fs folder_path) indicators ;;
   result <- concat all_dfs ;;
   result <- filter_countries_opt e_country countries result ;;
   filter_years_EPI start_year end_year result)%py.



(** The year of a value column can be read off its label. *)
Definition year_parses (c : string) : bool :=
  match astype_int (Py.split_last "_" c) with
  | inr _ => true
  | inl _ => false
  end.

(** A wide HDI table as [reshape_long_HDI] expects it: no column is
    called [value], each id column is there once, and the label of every
    value column ends in a year. *)
Definition wide_ok (df : DataFrame) (indicators : mapping) : bool :=
  negb (mem "value" (columns df))
  && forallb
       (fun v => Nat.eqb (List.length (positions_from 0 v (columns df))) 1)
       id_vars
  && forallb year_parses (value_vars df indicators).

(** The positions of the value columns, as [melt] visits them. *)
Definition value_positions (df : DataFrame) (indicators : mapping)
  : list nat :=
  unique_pos (get_indexer_for (columns df) (value_vars df indicators)).

(** Tables and files used in the examples below. *)
Definition edu : mapping := [("edu", "Education Index")].

Definition hdi_raw : DataFrame :=
  {| columns := ["ISO3"; " Country "; "region"; "edu_2010"; "edu_2011";
                 "Edu_x_2012"; "gdi 2010"];
     rows := [ [Str "USA"; Str "United States"; Str "NA";
                Num 1; Null; Num 3; Num 4];
               [Str "FRA"; Str "France"; Str "ECA";
                Null; Num 2; Null; Num 5] ] |}.

Definition hdi_wide : DataFrame := normalize_columns hdi_raw.

(** No column of the table starts with a key of the mapping. *)
Definition hdi_no_value_column : DataFrame :=
  {| columns := ["iso3"; "country"; "region"; "gdi_2010"];
     rows := [ [Str "USA"; Str "United States"; Str "NA"; Num 4] ] |}.

(** A table with a header and no row. *)
Definition hdi_no_row : DataFrame :=
  {| columns := ["iso3"; "country"; "region"; "edu_2010"]; rows := [] |}.

(** A table without the [region] column. *)
Definition hdi_no_region : DataFrame :=
  {| columns := ["iso3"; "country"; "edu_2010"];
     rows := [ [Str "USA"; Str "United States"; Num 1] ] |}.

Definition hdi_files : filesystem :=
  fun path => if String.eqb path "hdi.csv" then Some (ret hdi_raw) else None.

Definition bca_raw : DataFrame :=
  {| columns := ["iso"; "country"; "BCA.ind.1990"; "BCA.ind.1995"];
     rows := [ [Str "USA"; Str "United States"; Num 1; Null];
               [Str "FRA"; Str "France"; Null; Num 2] ] |}.

(** The same file without its [iso] column. *)
Definition bca_no_iso : DataFrame :=
  {| columns := ["country"; "BCA.ind.1990"];
     rows := [ [Str "United States"; Num 1] ] |}.

Definition two_variables : mapping :=
  [("BCA", "Biodiversity Conservation Area");
   ("BER", "Biodiversity Expenditure Ratio")].

(** The folder holds the file of the first variable only. *)
Definition epi_files : filesystem :=
  fun path =>
    if String.eqb path "P5_Indicator/BCA_ind_na.csv"
    then Some (ret bca_raw) else None.

(** The same folder with an unusable file for the first variable. *)
Definition epi_files_bad : filesystem :=
  fun path =>
    if String.eqb path "P5_Indicator/BCA_ind_na.csv"
    then Some (ret bca_no_iso) else None.

End Data_Handler.

(** ** Notions used to state further properties of the ranker *)

Module Ranker_Notions.

Import Completeness_Ranker.

Definition has_value (d : datum) : bool :=
  match d_value d with
  | Some _ => true
  | None => false
  end.

(** The provider that answers as [w] does, with an empty answer where [w]
    fails and without the observations that carry no value. *)
Definition answered (w : wbdata) : wbdata :=
  {| get_indicators := get_indicators w;
     get_data := fun code date_range =>
       match get_data w code date_range with
       | inl _ => ret []
       | inr data => ret (filter has_value data)
       end |}.

(** The name of the last catalog entry that has the given id. *)
Fixpoint last_name (indicators : list indicator) (code : string)
  : option string :=
  match indicators with
  | [] => None
  | ind :: rest =>
      match last_name rest code with
      | Some n => Some n
      | None =>
          if String.eqb (ind_id ind) code then Some (ind_name ind) else None
      end
  end.

(** The sum of the [Data Points] column. *)
Definition data_points (top : list summary_row) : nat :=
  list_sum (map s_count top).

(** A catalog in which one id comes twice. *)
Definition renamed_indicator : list indicator :=
  [ {| ind_id := "SG.A"; ind_name := "old name" |};
    {| ind_id := "SG.B"; ind_name := "second" |};
    {| ind_id := "SG.A"; ind_name := "new name" |} ]%string.

Definition renaming : wbdata :=
  {| get_indicators := fun _ => ret renamed_indicator;
     get_data := get_data well_behaved |}.

(** The first row of [example_top]. *)
Definition example_first_row : summary_row :=
  {| s_code := "SG.A"; s_name := "first";
     s_completeness := completeness 4 4; s_count := 4 |}.

End Ranker_Notions.

(** ** Notions used to state further properties of the data handler *)

Module Handler_Notions.

Import Frame Data_Handler.
Local Open Scope string_scope.
Local Open Scope list_scope.

(** The test the country filter applies to the country cell of a row. *)
Definition keeps_country (countries : option (string + list string))
  (c : cell) : bool :=
  match countries with
  | None => true
  | Some cs => isin (map Py.lower (country_list cs)) (str_lower c)
  end.

(** The test the two year filters of the HDI loader apply together. *)
Definition keeps_year (start_year end_year : option Z) (y : Z) : bool :=
  match start_year with
  | None => true
  | Some s => (s <=? y)%Z
  end
  && match end_year with
     | None => true
     | Some e => (y <=? e)%Z
     end.

(** The year columns of an EPI table for a variable. *)
Definition year_cols (var : string) (df : DataFrame) : list string :=
  filter (fun col => Py.startswith col (Py.lower var ++ ".ind."))
    (columns df).

(** An EPI table as the loop of [get_data_EPI] expects it for a
    variable: no column is called [value], [iso] and [country] are each
    there once, and the label of every year column ends in a year. *)
Definition epi_ok (var : string) (df : DataFrame) : bool :=
  negb (mem "value" (columns df))
  && forallb
       (fun v => Nat.eqb (List.length (positions_from 0 v (columns df))) 1)
       ["iso"; "country"]
  && forallb
       (fun c =>
          match astype_int (Py.split_last "." c) with
          | inr _ => true
          | inl _ => false
          end)
       (year_cols var df).

(** An EPI file without any year column. *)
Definition bca_no_year : DataFrame :=
  {| columns := ["iso"; "country"; "note"];
     rows := [ [Str "USA"; Str "United States"; Str "n/a"] ] |}.

Definition epi_files_no_year : filesystem :=
  fun path =>
    if String.eqb path "P5_Indicator/BCA_ind_na.csv"
    then Some (ret bca_no_year) else None.

(** A table whose value column does not end in a year. *)
Definition hdi_bad_year : DataFrame :=
  {| columns := ["iso3"; "country"; "region"; "edu_2010"; "edu_rank"];
     rows := [ [Str "USA"; Str "United States"; Str "NA"; Num 1; Num 7] ] |}.

End Handler_Notions.

(** ** World Bank loader ([get_data_WB] of [src/data_handler.py]) *)

Module World_Bank.

Import Completeness_Ranker.
Local Open Scope string_scope.
Local Open Scope list_scope.

(** A cell of a frame served by the provider: missing, text, a number,
    an integer or a date. *)
Inductive wcell : Type :=
| WNull
| WStr (s : string)
| WNum (q : Q)
| WInt (z : Z)
| WDate (d : datetime).

(** What [wbdata.get_dataframe] returns: a frame indexed by named
    levels, each record with its index cells and its data cells. *)
Record indexed_frame : Type :=
  { index_names : list string;
    data_columns : list string;
    records : list (list wcell * list wcell) }.

(** A frame without index levels. *)
Record frame : Type := { labels : list string; lines : list (list wcell) }.

(** The provider: the one [wbdata] call the loader makes, with the
    indicator mapping, the countries and the date range. *)
Record provider : Type :=
  { get_dataframe :
      Data_Handler.mapping -> string + list string ->
      option (datetime * datetime) -> result indexed_frame }.

Definition leap (year : Z) : bool :=
  ((year mod 4 =? 0) && (negb (year mod 100 =? 0) || (year mod 400 =? 0)))%Z.

Definition days_in_month (year month : Z) : Z :=
  if (month =? 2)%Z then (if leap year then 29 else 28)%Z
  else if ((month =? 4) || (month =? 6) || (month =? 9) || (month =? 11))%Z
       then 30%Z else 31%Z.

(** [datetime.datetime(year, month, day)] *)
Definition datetime_ymd (year month day : Z) : result datetime :=
  if ((year <? - 2 ^ 31) || (2 ^ 31 - 1 <? year))%Z then
    raise (OverflowError "Python int too large to convert to C int")
  else if ((year <? MINYEAR) || (MAXYEAR <? year))%Z then
    raise (ValueError "year is out of range")
  else if ((month <? 1) || (12 <? month))%Z then
    raise (ValueError "month must be in 1..12")
  else if ((day <? 1) || (days_in_month year month <? day))%Z then
    raise (ValueError "day is out of range for month")
  else ret {| dt_year := year; dt_month := month; dt_day := day |}.

(** The truth value of an optional year: [None] and 0 are false. *)
Definition truthy (year : option Z) : bool :=
  match year with
  | Some z => negb (z =? 0)%Z
  | None => false
  end.

(** The date range handed to the provider. *)
Definition date_range_of (start_year end_year : option Z)
  : result (option (datetime * datetime)) :=
  match start_year, end_year with
  | Some s, Some e =>
      if truthy start_year && truthy end_year then
        (a <- datetime_ymd s 1 1 ;;
         b <- datetime_ymd e 12 31 ;; ret (Some (a, b)))%py
      else ret None
  | _, _ => ret None
  end.

(** The index levels can be inserted as columns, the last level first,
    when none of them meets a label that is already there. *)
Fixpoint insertable (names cols : list string) : bool :=
  match names with
  | [] => true
  | n :: rest => insertable rest cols && negb (Frame.mem n (rest ++ cols))
  end.

(** [df.reset_index()] *)
Definition reset_index (df : indexed_frame) : result frame :=
  if insertable (index_names df) (data_columns df) then
    ret {| labels := index_names df ++ data_columns df;
           lines := map (fun r => fst r ++ snd r) (records df) |}
  else raise (ValueError "cannot insert, already exists").

(** [rename(columns={"country": "Country", "date": "Year"})] *)
Definition rename_label (c : string) : string :=
  if String.eqb c "country" then "Country"
  else if String.eqb c "date" then "Year" else c.

Definition rename (df : frame) : frame :=
  {| labels := map rename_label (labels df); lines := lines df |}.

Definition datelike (c : wcell) : bool :=
  match c with
  | WDate _ | WNull => true
  | _ => false
  end.

(** One element of [series.dt.year]. *)
Definition to_year (c : wcell) : wcell :=
  match c with
  | WDate d => WInt (dt_year d)
  | _ => c
  end.

(** Applies [f] to the cell at position [p] of a line. *)
Fixpoint update_at (f : wcell -> wcell) (p : nat) (line : list wcell)
  : list wcell :=
  match line, p with
  | [], _ => []
  | c :: rest, O => f c :: rest
  | c :: rest, S p' => c :: update_at f p' rest
  end.

(** The [Year] step: [df["Year"]] needs the column; a single column of
    dates is replaced by its years; several columns called [Year] make
    [df["Year"]] a frame, which is no date column. *)
Definition year_step (df : frame) : result frame :=
  match Frame.positions_from 0 "Year" (labels df) with
  | [] => raise (KeyError "Year")
  | [p] =>
      if forallb (fun line => datelike (nth p line WNull)) (lines df) then
        ret {| labels := labels df;
               lines := map (update_at to_year p) (lines df) |}
      else ret df
  | _ => ret df
  end.

(** [df[[c for c in cols if c in df.columns]]] *)
Definition select (df : frame) (cols : list string) : frame :=
  let wanted := filter (fun c => Frame.mem c (labels df)) cols in
  let pos := Frame.get_indexer_for (labels df) wanted in
  {| labels := map (fun p => nth p (labels df) EmptyString) pos;
     lines := map (fun line => map (fun p => nth p line WNull) pos)
                (lines df) |}.

Definition get_data_WB (w : provider) (indicators : Data_Handler.mapping)
  (countries : string + list string) (start_year end_year : option Z)
  : result frame :=
  (date_range <- date_range_of start_year end_year ;;
   df <- get_dataframe w indicators countries date_range ;;
   df <- reset_index df ;;
   df <- year_step (rename df) ;;
   ret (select df ("Country" :: "Year" :: map snd indicators)))%py.

(** A provider used in the examples below: it serves two countries for
    the years of the range, or for 1999 to 2001 without a range. *)
Definition gdp : Data_Handler.mapping :=
  [("NY.GDP.MKTP.CD", "GDP"); ("SP.POP.TOTL", "Population")].

Definition day (y : Z) : wcell :=
  WDate {| dt_year := y; dt_month := 1; dt_day := 1 |}.

Definition served : provider :=
  {| get_dataframe := fun _ _ date_range =>
       let years :=
         match date_range with
         | Some (a, b) => [dt_year a; dt_year b]
         | None => [1999; 2000; 2001]%Z
         end in
       ret {| index_names := ["country"; "date"];
              data_columns := ["GDP"; "extra"];
              records :=
                flat_map
                  (fun c =>
                     map (fun y => ([WStr c; day y], [WNum 1; WNull])) years)
                  ["Chile"; "Kenya"] |} |}.

(** A provider whose frame is indexed by country only. *)
Definition undated : provider :=
  {| get_dataframe := fun _ _ _ =>
       ret {| index_names := ["country"];
              data_columns := ["GDP"];
              records := [([WStr "Chile"], [WNum 1])] |} |}.

End World_Bank.

(** ** The library sort behind [sort_values]

    [DataFrame.sort_values(by=..., ascending=False)] is not code of the
    repository.  With one sort column and no [kind] it calls pandas'
    [nargsort(items, kind="quicksort", ascending=False)], which hands the
    column, reversed, to [numpy.argsort(kind="quicksort")] and reverses
    the answer.  The model below follows numpy's scalar routine
    [aquicksort_<tag>] of [npysort/quicksort.cpp] and its fallback
    [aheapsort_<tag>] of [npysort/heapsort.cpp], statement by statement:
    the index array [tosort] is a list, a pointer into it is a position.
    It is the routine numpy runs wherever it does not hand the array to a
    vectorised sort of the processor; such a sort is not modelled.  Loops
    that are not bounded by their own counter take a bound on their turns
    as first argument; the properties proved below hold for every input,
    so the bounds given are never reached. *)

Module Numpy.

Definition SMALL_QUICKSORT : nat := 16.

(** [*p] and [*p = x] *)
Definition get (a : list nat) (p : nat) : nat := nth p a 0.

Fixpoint set (a : list nat) (p x : nat) : list nat :=
  match a, p with
  | [], _ => []
  | _ :: a', 0 => x :: a'
  | y :: a', S p' => y :: set a' p' x
  end.

(** [INTP_SWAP] of two entries [p, q] *)
Definition INTP_SWAP (a : list nat) (p q : nat) : list nat :=
  set (set a p (get a q)) q (get a p).

(** [Tag::less(x, y)] on numbers; the column holds no NaN. *)
Definition less (x y : Q) : bool := negb (Qle_bool y x).

(** [npy_get_msb(unum)]: the number of halvings that leave [unum] positive. *)
Definition npy_get_msb (unum : nat) : nat := Nat.log2 unum.

Section Argsort.

(** The values [v] that are compared; [tosort] holds positions in [v]. *)
Variable v : list Q.

(** [v[*p]] *)
Definition val (a : list nat) (p : nat) : Q := nth (get a p) v 0%Q.

(** *** [aheapsort_]: [a = tosort - 1], so that [a[1]] is the first entry
    of the range that starts at [pl]. *)
Definition hget (a : list nat) (pl x : nat) : nat := get a (pl + x - 1).
Definition hset (a : list nat) (pl x y : nat) : list nat := set a (pl + x - 1) y.

(** [for (i, j; j <= n;) { if (j < n && less(v[a[j]], v[a[j + 1]])) j += 1;
      if (less(v[tmp], v[a[j]])) { a[i] = a[j]; i = j; j += j; } else break; }
    a[i] = tmp;]  Each turn at least doubles [j], so [n] turns are enough. *)
Fixpoint sift (fuel : nat) (a : list nat) (pl n tmp i j : nat) : list nat :=
  match fuel with
  | 0 => hset a pl i tmp
  | S fuel' =>
      if j <=? n then
        let j' :=
          if (j <? n) && less (nth (hget a pl j) v 0%Q)
                              (nth (hget a pl (j + 1)) v 0%Q)
          then j + 1 else j in
        if less (nth tmp v 0%Q) (nth (hget a pl j') v 0%Q)
        then sift fuel' (hset a pl i (hget a pl j')) pl n tmp j' (j' + j')
        else hset a pl i tmp
      else hset a pl i tmp
  end.

(** [for (l = n >> 1; l > 0; --l) { tmp = a[l]; ... }] *)
Definition heapify (a : list nat) (pl n : nat) : list nat :=
  fold_left (fun a l => sift n a pl n (hget a pl l) l (2 * l))
    (rev (seq 1 (n / 2))) a.

(** [for (; n > 1;) { tmp = a[n]; a[n] = a[1]; n -= 1; ... }] *)
Definition sortdown (a : list nat) (pl n : nat) : list nat :=
  fold_left
    (fun a n =>
       let tmp := hget a pl n in
       let a := hset a pl n (hget a pl 1) in
       sift n a pl (n - 1) tmp 1 2)
    (rev (seq 2 (n - 1))) a.

Definition aheapsort (a : list nat) (pl n : nat) : list nat :=
  sortdown (heapify a pl n) pl n.

(** *** The insertion sort that ends [aquicksort_]

    [while (pj > pl && less(vp, v[*pk])) { *pj-- = *pk--; }  *pj = vi;] *)
Fixpoint shift (a : list nat) (vi pl pj : nat) : list nat :=
  match pj with
  | 0 => set a pj vi
  | S pk =>
      if (pl <? pj) && less (nth vi v 0%Q) (val a pk)
      then shift (set a pj (get a pk)) vi pl pk
      else set a pj vi
  end.

(** [for (pi = pl + 1; pi <= pr; ++pi) { vi = *pi; ... }] *)
Definition insertion (a : list nat) (pl pr : nat) : list nat :=
  fold_left (fun a pi => shift a (get a pi) pl pi) (seq (pl + 1) (pr - pl)) a.

(** *** The partition step

    [do ++pi; while (less(v[*pi], vp));]  The first argument bounds the
    walk by the length of the array. *)
Fixpoint scan_up (fuel : nat) (a : list nat) (vp : Q) (pi : nat) : nat :=
  match fuel with
  | 0 => S pi
  | S fuel' =>
      if less (val a (S pi)) vp then scan_up fuel' a vp (S pi) else S pi
  end.

(** [do --pj; while (less(vp, v[*pj]));] *)
Fixpoint scan_down (a : list nat) (vp : Q) (pj : nat) : nat :=
  match pj with
  | 0 => 0
  | S pj' => if less vp (val a pj') then scan_down a vp pj' else pj'
  end.

(** [for (;;) { ...; if (pi >= pj) break; swap; }]  Each turn moves [pi]
    up and [pj] down, so the length of the array is turns enough. *)
Fixpoint exchange (fuel : nat) (a : list nat) (vp : Q) (pi pj : nat)
  : list nat * nat :=
  match fuel with
  | 0 => (a, pi)
  | S fuel' =>
      let pi := scan_up (List.length a) a vp pi in
      let pj := scan_down a vp pj in
      if pj <=? pi then (a, pi)
      else exchange fuel' (INTP_SWAP a pi pj) vp pi pj
  end.

(** The body of [while ((pr - pl) > SMALL_QUICKSORT)] up to the push:
    the median of three goes to [pr - 1], the entries are exchanged
    around it and it is put in its place [pi]. *)
Definition partition (a : list nat) (pl pr : nat) : list nat * nat :=
  let pm := pl + (pr - pl) / 2 in
  let a := if less (val a pm) (val a pl) then INTP_SWAP a pm pl else a in
  let a := if less (val a pr) (val a pm) then INTP_SWAP a pr pm else a in
  let a := if less (val a pm) (val a pl) then INTP_SWAP a pm pl else a in
  let vp := val a pm in
  let pj := pr - 1 in
  let a := INTP_SWAP a pm pj in
  let '(a, pi) := exchange (List.length a) a vp pl pj in
  let pk := pr - 1 in
  (INTP_SWAP a pi pk, pi).

(** *** The main loop

    [stack] holds the ranges pushed with their depth.  One turn of [loop]
    is one test of the outer [while (1)] ([inner = false]: the depth is
    checked first) or of the inner [while] ([inner = true]).  Every turn
    finishes a range or splits one, so twice the length of the array is
    turns enough. *)
Fixpoint loop (fuel : nat) (a : list nat) (pl pr : nat) (cdepth : Z)
  (inner : bool) (stack : list (nat * nat * Z)) : list nat :=
  match fuel with
  | 0 => a
  | S fuel' =>
      if negb inner && (cdepth <? 0)%Z then
        let a := aheapsort a pl (pr - pl + 1) in
        match stack with
        | [] => a
        | (pl', pr', cdepth') :: stack' =>
            loop fuel' a pl' pr' cdepth' false stack'
        end
      else if SMALL_QUICKSORT <? pr - pl then
        let '(a, pi) := partition a pl pr in
        let cdepth := (cdepth - 1)%Z in
        if pi - pl <? pr - pi
        then loop fuel' a pl (pi - 1) cdepth true ((pi + 1, pr, cdepth) :: stack)
        else loop fuel' a (pi + 1) pr cdepth true ((pl, pi - 1, cdepth) :: stack)
      else
        let a := insertion a pl pr in
        match stack with
        | [] => a
        | (pl', pr', cdepth') :: stack' =>
            loop fuel' a pl' pr' cdepth' false stack'
        end
  end.

(** [aquicksort_(vv, tosort, num)]; with [num = 0] no entry is read. *)
Definition aquicksort (tosort : list nat) (num : nat) : list nat :=
  match num with
  | 0 => tosort
  | S _ =>
      loop (2 * num) tosort 0 (num - 1)
        (2 * Z.of_nat (npy_get_msb num))%Z false []
  end.

End Argsort.

(** [v.argsort(kind="quicksort")]: the positions [0 .. len(v) - 1] sorted
    by the values they point at. *)
Definition argsort (v : list Q) : list nat :=
  aquicksort v (seq 0 (List.length v)) (List.length v).

End Numpy.

Module Pandas.

(** [nargsort(items, kind="quicksort", ascending=False)] on a column
    without missing values: the mask is empty, so [non_nans] is the whole
    column.
    [non_nans = items[::-1]; non_nan_idx = idx[::-1];
     indexer = non_nan_idx[non_nans.argsort(kind=kind)][::-1]] *)
Definition nargsort (items : list Q) : list nat :=
  let idx := seq 0 (List.length items) in
  let non_nans := rev items in
  let non_nan_idx := rev idx in
  let indexer :=
    map (fun i => nth i non_nan_idx 0) (Numpy.argsort non_nans) in
  rev indexer.

(** [frame.take(indexer)] *)
Definition take {A : Type} (frame : list A) (indexer : list nat) : list A :=
  flat_map
    (fun i => match nth_error frame i with Some r => [r] | None => [] end)
    indexer.

End Pandas.

(** ** The ranker's call of the library sort *)

Module Ranker_Sort.

Import Completeness_Ranker.
Local Open Scope string_scope.

(** [summary.sort_values(by="Completeness", ascending=False)]: the rows
    of the summary taken at the positions that [nargsort] returns for the
    column "Completeness".  The column holds the ratios computed on line
    49, or the integer 0 in every row; numpy runs the same routine on
    both. *)
Definition sort_values (summary : list summary_row) : list summary_row :=
  Pandas.take summary (Pandas.nargsort (map s_completeness summary)).

(** A catalog of 18 indicators, SG.A to SG.R, served by a provider that
    fails on every data request. *)
Definition letters : list ascii := list_ascii_of_string "ABCDEFGHIJKLMNOPQR".

Definition eighteen : list indicator :=
  map (fun c => {| ind_id := "SG." ++ String c ""; ind_name := String c "" |})
    letters.

Definition unanswered : wbdata :=
  {| get_indicators := fun _ => ret eighteen;
     get_data := fun _ _ => raise (ProviderError "timeout") |}.

(** The summary computed from [catalog_only] for 2000-2020: two rows of
    completeness 0. *)
Definition two_ties : list summary_row :=
  results [] 2000 2020 (indicator_dict two_indicators).

(** A row to read a table at a position that is known to be in it. *)
Definition no_row : summary_row :=
  {| s_code := ""; s_name := ""; s_completeness := 0; s_count := 0 |}.

End Ranker_Sort.

(** ** Notions used to state what the library sort does *)

Module Sort_Notions.

Import Numpy.

(** [a'] is [a] with the entries of the range [pl .. pr] rearranged. *)
Record within (pl pr : nat) (a a' : list nat) : Prop :=
  { w_len : List.length a' = List.length a;
    w_out : forall x, x < pl \/ pr < x -> get a' x = get a x;
    w_in : forall x, pl <= x <= pr ->
           exists y, pl <= y <= pr /\ get a' x = get a y;
    w_perm : Permutation a' a }.

(** The entries of the range point at values in ascending order. *)
Definition ascending (v : list Q) (a : list nat) (pl pr : nat) : Prop :=
  forall x, pl <= x -> x < pr -> (val v a x <= val v a (S x))%Q.

(** The positions that point at the value [q], in the order of [a]. *)
Definition pointing (v : list Q) (q : Q) (a : list nat) : list nat :=
  filter (fun i => Qeq_bool (nth i v 0%Q) q) a.

(** The heap of [aheapsort_]: entry [x] of the range that starts at [pl],
    counted from 1, has its children at [2 x] and [2 x + 1], and from
    entry [l] on no child points at a larger value than its parent. *)
Definition hval (v : list Q) (a : list nat) (pl x : nat) : Q :=
  val v a (pl + x - 1).

Definition child (x c : nat) : Prop := c = 2 * x \/ c = 2 * x + 1.

Definition heap_from (v : list Q) (a : list nat) (pl l n : nat) : Prop :=
  forall x c, l <= x -> child x c -> c <= n ->
    (hval v a pl c <= hval v a pl x)%Q.

(** The ranges that [aquicksort_] still has to sort: the one it works on
    and those on its stack.  They never overlap, and two entries that do
    not lie in one of them together are in order already. *)
Definition inside (r : nat * nat) (x : nat) : Prop := fst r <= x /\ x <= snd r.

Fixpoint apart (rs : list (nat * nat)) : Prop :=
  match rs with
  | [] => True
  | r :: rs' =>
      (forall r', In r' rs' -> snd r < fst r' \/ snd r' < fst r) /\ apart rs'
  end.

Definition settled (v : list Q) (a : list nat) (rs : list (nat * nat)) : Prop :=
  forall i j, i < j -> j < List.length a ->
    (exists r, In r rs /\ inside r i /\ inside r j)
    \/ (val v a i <= val v a j)%Q.

(** Twice the entries of the ranges, less one for each range. *)
Fixpoint weight (rs : list (nat * nat)) : nat :=
  match rs with
  | [] => 0
  | r :: rs' => 2 * (snd r - fst r) + 1 + weight rs'
  end.

End Sort_Notions.

(** * Tactics *)

(** Splits on the test of a conditional of the goal. *)
Ltac case_if :=
  match goal with
  | |- context [if ?b then _ else _] => destruct b
  end.

(** * Properties of the completeness ranker *)

Section RankerFacts.

Import Completeness_Ranker.

(** ** The catalog dict *)

Lemma in_keys_dict_set d k v x :
  In x (keys (dict_set d k v)) <-> In x (keys d) \/ x = k.
Proof.
  induction d as [|[k' v'] d IH]; simpl.
  - intuition.
  - destruct (String.eqb_spec k' k) as [->|Hne]; simpl.
    + intuition.
    + rewrite IH. intuition.
Qed.

Lemma nodup_keys_dict_set d k v :
  NoDup (keys d) -> NoDup (keys (dict_set d k v)).
Proof.
  induction d as [|[k' v'] d IH]; simpl; intros Hd.
  - constructor; [intros [] | constructor].
  - inversion Hd as [|? ? Hnotin Hrest]; subst.
    destruct (String.eqb_spec k' k) as [->|Hne]; simpl.
    + constructor; assumption.
    + constructor; [|auto].
      rewrite in_keys_dict_set. intros [Hin | ->]; [auto | congruence].
Qed.

Lemma dict_set_fresh d k v :
  ~ In k (keys d) -> dict_set d k v = d ++ [(k, v)].
Proof.
  induction d as [|[k' v'] d IH]; simpl; intros Hk; [reflexivity|].
  destruct (String.eqb_spec k' k) as [->|Hne].
  - exfalso. auto.
  - f_equal. apply IH. auto.
Qed.

Lemma nodup_keys_fold inds : forall acc,
  NoDup (keys acc) -> NoDup (keys (fold_left catalog_step inds acc)).
Proof.
  induction inds as [|i inds IH]; simpl; intros acc Hacc; [assumption|].
  apply IH. apply nodup_keys_dict_set. assumption.
Qed.

Lemma in_keys_fold inds : forall acc x,
  In x (keys (fold_left catalog_step inds acc))
  <-> In x (keys acc) \/ In x (map ind_id inds).
Proof.
  induction inds as [|i inds IH]; simpl; intros acc x.
  - intuition.
  - rewrite IH. unfold catalog_step. rewrite in_keys_dict_set.
    intuition.
Qed.

Lemma fold_fresh inds : forall acc,
  NoDup (keys acc ++ map ind_id inds) ->
  fold_left catalog_step inds acc
  = acc ++ map (fun i => (ind_id i, ind_name i)) inds.
Proof.
  induction inds as [|i inds IH]; simpl; intros acc Hnd.
  - symmetry. apply app_nil_r.
  - assert (Hi : ~ In (ind_id i) (keys acc)).
    { apply NoDup_remove_2 in Hnd. intros Hin. apply Hnd.
      apply in_or_app. left. assumption. }
    unfold catalog_step at 2. rewrite dict_set_fresh by exact Hi.
    rewrite IH.
    + rewrite <- app_assoc. reflexivity.
    + unfold keys in *. rewrite map_app. simpl. rewrite <- app_assoc.
      simpl. apply NoDup_Add with (a := ind_id i)
                                  (l := map fst acc ++ map ind_id inds).
      * apply Add_app.
      * split.
        -- apply NoDup_remove_1 in Hnd. assumption.
        -- apply NoDup_remove_2 in Hnd. assumption.
Qed.

Lemma nodup_keys_indicator_dict inds : NoDup (keys (indicator_dict inds)).
Proof. apply (nodup_keys_fold inds []). constructor. Qed.

Lemma in_keys_indicator_dict inds x :
  In x (keys (indicator_dict inds)) <-> In x (map ind_id inds).
Proof.
  unfold indicator_dict. rewrite (in_keys_fold inds [] x). simpl. intuition.
Qed.

Lemma indicator_dict_distinct inds :
  NoDup (map ind_id inds) ->
  indicator_dict inds = map (fun i => (ind_id i, ind_name i)) inds.
Proof. intros H. apply (fold_fresh inds []). exact H. Qed.

(** ** The observation table *)

Lemma fetch_rows_indicator w dr c r :
  In r (fetch_rows w dr c) -> o_indicator r = c.
Proof.
  unfold fetch_rows. destruct (get_data w c dr) as [e|data]; [intros []|].
  rewrite in_flat_map. intros [d [_ Hr]].
  destruct (d_value d); simpl in Hr; [|contradiction].
  destruct Hr as [<-|[]]. reflexivity.
Qed.

Lemma filter_all {A} (f : A -> bool) l :
  (forall x, In x l -> f x = true) -> filter f l = l.
Proof.
  induction l as [|a l IH]; simpl; intros H; [reflexivity|].
  rewrite (H a (or_introl eq_refl)). f_equal. apply IH. auto.
Qed.

Lemma filter_none {A} (f : A -> bool) l :
  (forall x, In x l -> f x = false) -> filter f l = [].
Proof.
  induction l as [|a l IH]; simpl; intros H; [reflexivity|].
  rewrite (H a (or_introl eq_refl)). apply IH. auto.
Qed.

Lemma count_rows_other w dr ks c :
  ~ In c ks -> count_rows (flat_map (fetch_rows w dr) ks) c = 0.
Proof.
  intros Hc. unfold count_rows. rewrite filter_none; [reflexivity|].
  intros r Hr. apply in_flat_map in Hr. destruct Hr as [k [Hk Hr]].
  apply fetch_rows_indicator in Hr. rewrite Hr.
  apply String.eqb_neq. intros ->. auto.
Qed.

Lemma count_rows_fetched w dr ks c :
  NoDup ks -> In c ks ->
  count_rows (flat_map (fetch_rows w dr) ks) c
  = List.length (fetch_rows w dr c).
Proof.
  induction ks as [|k ks IH]; simpl; intros Hnd Hin; [contradiction|].
  inversion Hnd as [|? ? Hk Hks]; subst.
  unfold count_rows in *. rewrite filter_app, length_app.
  destruct Hin as [->|Hin].
  - rewrite filter_all.
    + fold (count_rows (flat_map (fetch_rows w dr) ks) c).
      rewrite count_rows_other by assumption. lia.
    + intros r Hr. apply fetch_rows_indicator in Hr. rewrite Hr.
      apply String.eqb_refl.
  - rewrite filter_none.
    + simpl. apply IH; assumption.
    + intros r Hr. apply fetch_rows_indicator in Hr. rewrite Hr.
      apply String.eqb_neq. intros ->. auto.
Qed.

Lemma in_unique l x : In x (unique l) <-> In x l.
Proof.
  induction l as [|a l IH]; simpl; [tauto|].
  rewrite filter_In, IH, negb_true_iff, String.eqb_neq.
  destruct (string_dec a x); intuition congruence.
Qed.

Lemma nodup_unique l : NoDup (unique l).
Proof.
  induction l as [|a l IH]; simpl; constructor.
  - rewrite filter_In, negb_true_iff, String.eqb_neq. intuition.
  - apply NoDup_filter. assumption.
Qed.

(** Distinct (country, date) pairs fit in the grid of countries by dates. *)
Lemma grid_bound (rows : list obs_row) (countries : list string) :
  NoDup (map (fun r => (o_country r, o_date r)) rows) ->
  (forall r, In r rows -> In (o_country r) countries) ->
  List.length rows
  <= List.length (unique countries)
     * List.length (unique (map o_date rows)).
Proof.
  intros Hnd Hin.
  rewrite <- length_prod,
    <- (length_map (fun r => (o_country r, o_date r)) rows).
  apply NoDup_incl_length; [assumption|].
  intros [c d] Hcd. apply in_map_iff in Hcd.
  destruct Hcd as [r [Heq Hr]]. inversion Heq; subst.
  apply in_prod.
  - apply in_unique. auto.
  - apply in_unique. apply in_map. assumption.
Qed.

(** ** The ratio *)

Lemma completeness_nonneg count total : (0 <= completeness count total)%Q.
Proof.
  unfold completeness. destruct (Z.ltb_spec 0 total) as [Hpos|Hle].
  - apply Qle_shift_div_l.
    + rewrite (Zlt_Qlt 0 total) in Hpos. exact Hpos.
    + rewrite Qmult_0_l. rewrite <- (Zle_Qle 0). lia.
  - apply Qle_refl.
Qed.

Lemma completeness_le_1 count total :
  (Z.of_nat count <= total)%Z -> (completeness count total <= 1)%Q.
Proof.
  intros Hle. unfold completeness.
  destruct (Z.ltb_spec 0 total) as [Hpos|Hnp].
  - apply Qle_shift_div_r.
    + rewrite (Zlt_Qlt 0 total) in Hpos. exact Hpos.
    + rewrite Qmult_1_l. rewrite <- Zle_Qle. exact Hle.
  - discriminate.
Qed.

(** ** The sorting functions *)

Lemma desc_trans : Relations_1.Transitive desc.
Proof. intros a b c Hab Hbc. unfold desc in *. eapply Qle_trans; eauto. Qed.

Lemma insert_desc_perm x l : Permutation (insert_desc x l) (x :: l).
Proof.
  induction l as [|y l IH]; simpl; [reflexivity|].
  destruct (Qle_bool (s_completeness y) (s_completeness x)); [reflexivity|].
  rewrite IH. apply perm_swap.
Qed.

Lemma insert_desc_sorted x l :
  Sorted desc l -> Sorted desc (insert_desc x l).
Proof.
  induction l as [|y l IH]; simpl; intros Hs.
  - repeat constructor.
  - destruct (Qle_bool (s_completeness y) (s_completeness x)) eqn:E.
    + constructor; [assumption|]. constructor. unfold desc.
      apply Qle_bool_iff. exact E.
    + inversion Hs as [|? ? Hl Hhd]; subst.
      assert (Hyx : desc y x).
      { unfold desc. apply Qlt_le_weak. apply Qnot_le_lt.
        intros H. apply Qle_bool_iff in H. congruence. }
      constructor; [auto|].
      destruct l as [|z l]; simpl.
      * constructor. exact Hyx.
      * destruct (Qle_bool (s_completeness z) (s_completeness x));
          constructor; [exact Hyx|].
        inversion Hhd; assumption.
Qed.

Lemma sort_from_back_contract : sort_values_contract sort_from_back.
Proof.
  intros l. split.
  - induction l as [|x l IH]; simpl; [reflexivity|].
    rewrite insert_desc_perm. constructor. exact IH.
  - apply Sorted_StronglySorted; [exact desc_trans|].
    induction l as [|x l IH]; simpl; [constructor|].
    apply insert_desc_sorted. exact IH.
Qed.

(** Taking the rows from the back leaves ties in their first order. *)
Lemma insert_desc_ties q x l :
  filter (fun r => Qeq_bool (s_completeness r) q) (insert_desc x l)
  = filter (fun r => Qeq_bool (s_completeness r) q) (x :: l).
Proof.
  induction l as [|y l IH]; [reflexivity|].
  cbn [insert_desc].
  destruct (Qle_bool (s_completeness y) (s_completeness x)) eqn:E;
    [reflexivity|].
  cbn [filter] in *. rewrite IH.
  destruct (Qeq_bool (s_completeness x) q) eqn:Ex;
    destruct (Qeq_bool (s_completeness y) q) eqn:Ey; try reflexivity.
  exfalso. apply Qeq_bool_iff in Ex, Ey.
  assert (Hle : (s_completeness y <= s_completeness x)%Q).
  { rewrite Ex, Ey. apply Qle_refl. }
  apply Qle_bool_iff in Hle. congruence.
Qed.

Lemma sort_from_back_stable l : ties_in_order (sort_from_back l) l.
Proof.
  intros q. induction l as [|x l IH]; [reflexivity|].
  cbn [sort_from_back fold_right]. rewrite insert_desc_ties.
  cbn [filter]. fold (sort_from_back l). rewrite IH. reflexivity.
Qed.

End RankerFacts.

(** * The library sort *)

Section ArrayFacts.

Import Numpy Sort_Notions.

Lemma length_set a p x : List.length (set a p x) = List.length a.
Proof.
  revert p; induction a as [|y a IH]; intros [|p]; simpl; auto.
Qed.

Lemma get_set_eq a p x : p < List.length a -> get (set a p x) p = x.
Proof.
  unfold get. revert p; induction a as [|y a IH]; intros [|p]; simpl;
    intros H; try lia; auto. apply IH. lia.
Qed.

Lemma get_set_neq a p q x : p <> q -> get (set a p x) q = get a q.
Proof.
  unfold get. revert p q; induction a as [|y a IH]; intros [|p] [|q]; simpl;
    intros H; try lia; auto.
Qed.

Lemma set_set a p x y : set (set a p x) p y = set a p y.
Proof.
  revert p; induction a as [|z a IH]; intros [|p]; simpl; auto.
  rewrite IH. reflexivity.
Qed.

Lemma set_get a p : set a p (get a p) = a.
Proof.
  unfold get. revert p; induction a as [|z a IH]; intros [|p]; simpl; auto.
  rewrite IH. reflexivity.
Qed.

Lemma set_beyond a p x : List.length a <= p -> set a p x = a.
Proof.
  revert p; induction a as [|z a IH]; intros [|p]; simpl; intros H;
    try lia; auto. rewrite IH by lia. reflexivity.
Qed.

Lemma count_set a p x y :
  p < List.length a ->
  count_occ Nat.eq_dec (set a p x) y
  + (if Nat.eq_dec (get a p) y then 1 else 0)
  = count_occ Nat.eq_dec a y + (if Nat.eq_dec x y then 1 else 0).
Proof.
  unfold get. revert p; induction a as [|z a IH]; intros [|p]; simpl;
    intros H; try lia.
  - destruct (Nat.eq_dec x y), (Nat.eq_dec z y); lia.
  - specialize (IH p ltac:(lia)).
    destruct (Nat.eq_dec z y); lia.
Qed.

Lemma length_swap a p q : List.length (INTP_SWAP a p q) = List.length a.
Proof. unfold INTP_SWAP. rewrite !length_set. reflexivity. Qed.

(** Where the entry at [x] was before the entries at [p] and [q] were
    exchanged. *)
Lemma get_swap a p q x :
  p < List.length a -> q < List.length a ->
  get (INTP_SWAP a p q) x
  = get a (if x =? q then p else if x =? p then q else x).
Proof.
  intros Hp Hq. unfold INTP_SWAP.
  destruct (Nat.eqb_spec x q) as [->|Hxq].
  - rewrite get_set_eq by (rewrite length_set; exact Hq). reflexivity.
  - rewrite get_set_neq by auto.
    destruct (Nat.eqb_spec x p) as [->|Hxp].
    + rewrite get_set_eq by exact Hp. reflexivity.
    + rewrite get_set_neq by auto. reflexivity.
Qed.

Lemma swap_perm a p q :
  p < List.length a -> q < List.length a -> Permutation (INTP_SWAP a p q) a.
Proof.
  intros Hp Hq. apply (Permutation_count_occ Nat.eq_dec). intros y.
  destruct (Nat.eq_dec p q) as [->|Hpq].
  - unfold INTP_SWAP. rewrite set_set, set_get. reflexivity.
  - unfold INTP_SWAP.
    pose proof (@count_set (set a p (get a q)) q (get a p) y
                  ltac:(rewrite length_set; exact Hq)) as H1.
    pose proof (@count_set a p (get a q) y Hp) as H2.
    rewrite get_set_neq in H1 by exact Hpq.
    lia.
Qed.

Lemma within_refl pl pr a : within pl pr a a.
Proof.
  constructor; auto. intros x Hx. exists x. auto.
Qed.

Lemma within_trans pl pr a b c :
  within pl pr a b -> within pl pr b c -> within pl pr a c.
Proof.
  intros [L1 O1 I1 P1] [L2 O2 I2 P2]. constructor.
  - congruence.
  - intros x Hx. rewrite O2, O1 by exact Hx. reflexivity.
  - intros x Hx. destruct (I2 x Hx) as [y [Hy E]].
    destruct (I1 y Hy) as [z [Hz E']]. exists z. split; [exact Hz|]. congruence.
  - eapply Permutation_trans; eauto.
Qed.

Lemma within_wider pl pr pl' pr' a b :
  pl' <= pl -> pr <= pr' -> within pl pr a b -> within pl' pr' a b.
Proof.
  intros Hl Hr [L O I P]. constructor; auto.
  - intros x Hx. apply O. lia.
  - intros x Hx.
    destruct (le_lt_dec pl x) as [H1|H1]; [destruct (le_lt_dec x pr) as [H2|H2]|].
    + destruct (I x ltac:(lia)) as [y [Hy E]]. exists y. split; [lia | exact E].
    + exists x. split; [lia|]. apply O. lia.
    + exists x. split; [lia|]. apply O. lia.
Qed.

Lemma within_swap pl pr a p q :
  pl <= p <= pr -> pl <= q <= pr -> pr < List.length a ->
  within pl pr a (INTP_SWAP a p q).
Proof.
  intros Hp Hq Hlen. constructor.
  - apply length_swap.
  - intros x Hx. rewrite get_swap by lia.
    destruct (Nat.eqb_spec x q); [lia|]. destruct (Nat.eqb_spec x p); [lia|].
    reflexivity.
  - intros x Hx. rewrite get_swap by lia.
    destruct (Nat.eqb_spec x q); [exists p; auto|].
    destruct (Nat.eqb_spec x p); [exists q; auto|]. exists x; auto.
  - apply swap_perm; lia.
Qed.

End ArrayFacts.

Section InsertionFacts.

Import Numpy Sort_Notions.

Variable v : list Q.

Lemma less_true x y : less x y = true -> (x < y)%Q.
Proof.
  unfold less. intros H. apply negb_true_iff in H.
  apply Qnot_le_lt. intros Hle. apply Qle_bool_iff in Hle. congruence.
Qed.

Lemma less_false x y : less x y = false -> (y <= x)%Q.
Proof.
  unfold less. intros H. apply negb_false_iff in H.
  apply Qle_bool_iff. exact H.
Qed.

Lemma val_set_eq a p x :
  p < List.length a -> val v (set a p x) p = nth x v 0%Q.
Proof. intros H. unfold val. rewrite get_set_eq by exact H. reflexivity. Qed.

Lemma val_set_neq a p q x : p <> q -> val v (set a p x) q = val v a q.
Proof. intros H. unfold val. rewrite get_set_neq by exact H. reflexivity. Qed.

Lemma val_swap a p q x :
  p < List.length a -> q < List.length a ->
  val v (INTP_SWAP a p q) x
  = val v a (if x =? q then p else if x =? p then q else x).
Proof. intros Hp Hq. unfold val. rewrite get_swap by assumption. reflexivity. Qed.

(** Moving the hole down is exchanging neighbours in the array that has
    [vi] in the hole. *)
Lemma hole_moves a pk vi :
  S pk < List.length a ->
  set (set a (S pk) (get a pk)) pk vi
  = INTP_SWAP (set a (S pk) vi) (S pk) pk.
Proof.
  intros H. unfold INTP_SWAP.
  rewrite (@get_set_neq a (S pk) pk vi) by lia.
  rewrite get_set_eq by exact H. rewrite set_set. reflexivity.
Qed.

Lemma swap_neighbours a pk :
  S pk < List.length a ->
  exists l1 x y l2,
    a = l1 ++ x :: y :: l2 /\ INTP_SWAP a (S pk) pk = l1 ++ y :: x :: l2
    /\ get a pk = x /\ get a (S pk) = y.
Proof.
  revert a. induction pk as [|pk IH]; intros a H.
  - destruct a as [|x [|y l2]]; simpl in H; try lia.
    exists [], x, y, l2. repeat split.
  - destruct a as [|z a]; simpl in H; [lia|].
    destruct (IH a ltac:(lia)) as [l1 [x [y [l2 [E1 [E2 [E3 E4]]]]]]].
    exists (z :: l1), x, y, l2. split; [simpl; congruence|].
    split; [|split; [exact E3 | exact E4]].
    change (INTP_SWAP (z :: a) (S (S pk)) (S pk))
      with (z :: INTP_SWAP a (S pk) pk).
    rewrite E2. reflexivity.
Qed.

(** Exchanging neighbours that point at different values leaves the
    positions of each value in their order. *)
Lemma pointing_swap_neighbours a pk q :
  S pk < List.length a ->
  ~ (val v a (S pk) == val v a pk)%Q ->
  pointing v q (INTP_SWAP a (S pk) pk) = pointing v q a.
Proof.
  intros H Hne.
  destruct (swap_neighbours a H) as [l1 [x [y [l2 [E1 [E2 [E3 E4]]]]]]].
  unfold val in Hne. rewrite E3, E4 in Hne.
  rewrite E2. rewrite E1. unfold pointing.
  rewrite !filter_app. f_equal. cbn [filter].
  destruct (Qeq_bool (nth y v 0%Q) q) eqn:Ey;
    destruct (Qeq_bool (nth x v 0%Q) q) eqn:Ex; try reflexivity.
  exfalso. apply Hne. apply Qeq_bool_iff in Ex, Ey.
  rewrite Ex, Ey. reflexivity.
Qed.

Lemma shift_spec pl pi :
  forall pj a vi,
    pl <= pj -> pj <= pi -> pi < List.length a ->
    (forall x, pl <= x -> x < pi -> S x <> pj ->
       (val v (set a pj vi) x <= val v (set a pj vi) (S x))%Q) ->
    (pl < pj -> pj < pi ->
       (val v (set a pj vi) (pj - 1) <= val v (set a pj vi) (pj + 1))%Q) ->
    within pl pi (set a pj vi) (shift v a vi pl pj)
    /\ ascending v (shift v a vi pl pj) pl pi
    /\ forall q, pointing v q (shift v a vi pl pj)
                 = pointing v q (set a pj vi).
Proof.
  induction pj as [|pk IH]; intros a vi Hl Hr Hlen Hexc Hbr.
  - cbn [shift]. split; [apply within_refl|]. split; [|reflexivity].
    intros x Hx1 Hx2. apply Hexc; lia.
  - cbn [shift].
    destruct ((pl <? S pk) && less (nth vi v 0%Q) (val v a pk)) eqn:Ec.
    + apply andb_true_iff in Ec. destruct Ec as [Hlt Hless].
      apply Nat.ltb_lt in Hlt. apply less_true in Hless.
      set (A := set a (S pk) vi) in *.
      assert (HA : List.length A = List.length a) by apply length_set.
      assert (Hkey : val v A (S pk) = nth vi v 0%Q)
        by (apply val_set_eq; lia).
      assert (Hprev : val v A pk = val v a pk)
        by (apply val_set_neq; lia).
      destruct (IH (set a (S pk) (get a pk)) vi) as [Hw [Hasc Hpt]].
      * lia.
      * lia.
      * rewrite length_set. exact Hlen.
      * rewrite hole_moves by lia. fold A. intros x Hx1 Hx2 Hx3.
        rewrite !val_swap by lia.
        destruct (Nat.eqb_spec x pk) as [->|N1].
        -- replace (S pk =? pk) with false by (symmetry; apply Nat.eqb_neq; lia).
           rewrite Nat.eqb_refl. rewrite Hkey, Hprev.
           apply Qlt_le_weak. exact Hless.
        -- destruct (Nat.eqb_spec (S x) pk) as [N2|N2]; [lia|].
           destruct (Nat.eqb_spec x (S pk)) as [->|N3].
           ++ replace (S (S pk) =? S pk) with false
                by (symmetry; apply Nat.eqb_neq; lia).
              specialize (Hbr ltac:(lia) ltac:(lia)).
              replace (S pk - 1) with pk in Hbr by lia.
              replace (S pk + 1) with (S (S pk)) in Hbr by lia.
              exact Hbr.
           ++ destruct (Nat.eqb_spec (S x) (S pk)) as [N4|N4]; [lia|].
              apply Hexc; lia.
      * rewrite hole_moves by lia. fold A. intros H1 H2.
        rewrite !val_swap by lia.
        replace (pk - 1 =? pk) with false by (symmetry; apply Nat.eqb_neq; lia).
        replace (pk - 1 =? S pk) with false
          by (symmetry; apply Nat.eqb_neq; lia).
        replace (pk + 1 =? pk) with false by (symmetry; apply Nat.eqb_neq; lia).
        replace (pk + 1 =? S pk) with true by (symmetry; apply Nat.eqb_eq; lia).
        pose proof (Hexc (pk - 1) ltac:(lia) ltac:(lia) ltac:(lia)) as H.
        replace (S (pk - 1)) with pk in H by lia. exact H.
      * rewrite hole_moves in Hw, Hpt by lia. fold A in Hw, Hpt.
        split; [|split; [exact Hasc|]].
        -- eapply within_trans; [|exact Hw].
           apply within_swap; lia.
        -- intros q. rewrite Hpt. apply pointing_swap_neighbours; [lia|].
           rewrite Hkey, Hprev. intros E. rewrite E in Hless.
           exact (Qlt_irrefl _ Hless).
    + split; [apply within_refl|]. split; [|reflexivity].
      intros x Hx1 Hx2.
      destruct (Nat.eq_dec x pk) as [->|N]; [|apply Hexc; lia].
      apply andb_false_iff in Ec. destruct Ec as [Ec|Ec].
      * apply Nat.ltb_ge in Ec. lia.
      * apply less_false in Ec.
        rewrite val_set_eq by lia. rewrite val_set_neq by lia. exact Ec.
Qed.

(** The insertion sort puts the range in ascending order, touches nothing
    else and never exchanges two positions that point at equal values. *)
Lemma insertion_spec a pl pr :
  pl <= pr -> pr < List.length a ->
  within pl pr a (insertion v a pl pr)
  /\ ascending v (insertion v a pl pr) pl pr
  /\ forall q, pointing v q (insertion v a pl pr) = pointing v q a.
Proof.
  intros Hle Hlen. unfold insertion.
  assert (Hgen : forall m, pl + m <= pr ->
            let a' := fold_left (fun a pi => shift v a (get a pi) pl pi)
                        (seq (pl + 1) m) a in
            within pl pr a a' /\ ascending v a' pl (pl + m)
            /\ forall q, pointing v q a' = pointing v q a).
  { induction m as [|m IH]; intros Hm.
    - cbn. split; [apply within_refl|]. split; [|reflexivity].
      intros x H1 H2. lia.
    - rewrite seq_S, fold_left_app. cbn [fold_left].
      destruct (IH ltac:(lia)) as [Hw [Hasc Hpt]].
      set (b := fold_left _ (seq (pl + 1) m) a) in *.
      assert (Hb : List.length b = List.length a) by apply Hw.
      set (pi := pl + 1 + m).
      assert (Hself : set b pi (get b pi) = b) by apply set_get.
      destruct (@shift_spec pl pi pi b (get b pi)) as [Hw' [Hasc' Hpt']];
        try lia.
      + rewrite Hself. intros x H1 H2 H3. apply Hasc; lia.
      + rewrite Hself in Hw', Hpt'.
        split; [|split].
        * eapply within_trans; [exact Hw|].
          eapply within_wider; [| |exact Hw']; lia.
        * replace (pl + S m) with pi by lia. exact Hasc'.
        * intros q. rewrite Hpt'. apply Hpt. }
  specialize (Hgen (pr - pl) ltac:(lia)).
  replace (pl + (pr - pl)) with pr in Hgen by lia. exact Hgen.
Qed.

End InsertionFacts.

Ltac eqb_lia :=
  repeat match goal with
         | |- context [?x =? ?y] => destruct (Nat.eqb_spec x y); try lia
         | H : context [?x =? ?y] |- _ => destruct (Nat.eqb_spec x y); try lia
         end.

Section PartitionFacts.

Import Numpy Sort_Notions.

Variable v : list Q.

(** [if (less(v[*hi], v[*lo])) INTP_SWAP] leaves the two in order. *)
Lemma ordered_pair a pl pr lo hi :
  pl <= lo <= pr -> pl <= hi <= pr -> lo <> hi -> pr < List.length a ->
  let a' := if less (val v a hi) (val v a lo) then INTP_SWAP a hi lo else a in
  within pl pr a a'
  /\ (val v a' lo <= val v a' hi)%Q
  /\ (val v a' lo = val v a lo /\ val v a' hi = val v a hi
      \/ val v a' lo = val v a hi /\ val v a' hi = val v a lo)
  /\ forall x, x <> lo -> x <> hi -> val v a' x = val v a x.
Proof.
  intros Hlo Hhi Hne Hlen. cbv zeta.
  destruct (less (val v a hi) (val v a lo)) eqn:E.
  - apply less_true in E. split; [apply within_swap; lia|].
    rewrite !val_swap by lia. rewrite Nat.eqb_refl.
    replace (hi =? lo) with false by (symmetry; apply Nat.eqb_neq; lia).
    rewrite Nat.eqb_refl.
    split; [apply Qlt_le_weak; exact E|]. split; [right; auto|].
    intros x H1 H2. rewrite val_swap by lia. eqb_lia. reflexivity.
  - apply less_false in E. split; [apply within_refl|].
    split; [exact E|]. split; [left; auto|]. reflexivity.
Qed.

Lemma scan_up_spec a vp s :
  forall fuel pi,
    pi < s -> s - pi <= fuel -> less (val v a s) vp = false ->
    let r := scan_up v fuel a vp pi in
    pi < r /\ r <= s /\ less (val v a r) vp = false
    /\ forall x, pi < x -> x < r -> less (val v a x) vp = true.
Proof.
  induction fuel as [|fuel IH]; intros pi H1 H2 H3; [lia|].
  cbn [scan_up]. destruct (less (val v a (S pi)) vp) eqn:E.
  - assert (Hne : S pi <> s) by congruence.
    destruct (IH (S pi) ltac:(lia) ltac:(lia) H3) as [R1 [R2 [R3 R4]]].
    cbv zeta. split; [lia|]. split; [exact R2|]. split; [exact R3|].
    intros x Hx1 Hx2. destruct (Nat.eq_dec x (S pi)) as [->|N]; [exact E|].
    apply R4; lia.
  - cbv zeta. split; [lia|]. split; [lia|]. split; [exact E|].
    intros x Hx1 Hx2. lia.
Qed.

Lemma scan_down_spec a vp s :
  forall pj,
    s < pj -> less vp (val v a s) = false ->
    let r := scan_down v a vp pj in
    s <= r /\ r < pj /\ less vp (val v a r) = false
    /\ forall x, r < x -> x < pj -> less vp (val v a x) = true.
Proof.
  induction pj as [|pj IH]; intros H1 H2; [lia|].
  cbn [scan_down]. destruct (less vp (val v a pj)) eqn:E.
  - assert (Hne : pj <> s) by congruence.
    destruct (IH ltac:(lia) H2) as [R1 [R2 [R3 R4]]].
    cbv zeta. split; [exact R1|]. split; [lia|]. split; [exact R3|].
    intros x Hx1 Hx2. destruct (Nat.eq_dec x pj) as [->|N]; [exact E|].
    apply R4; lia.
  - cbv zeta. split; [lia|]. split; [lia|]. split; [exact E|].
    intros x Hx1 Hx2. lia.
Qed.

Lemma exchange_spec pl pr vp :
  forall fuel a pi pj a' r,
    pj - pi <= fuel -> pl <= pi -> pi < pj -> pj < pr ->
    pr < List.length a ->
    (forall x, pl <= x -> x <= pi -> (val v a x <= vp)%Q) ->
    (forall x, pj <= x -> x <= pr -> (vp <= val v a x)%Q) ->
    exchange v fuel a vp pi pj = (a', r) ->
    within (S pi) (pj - 1) a a'
    /\ pi < r /\ r <= pj
    /\ (forall x, pl <= x -> x < r -> (val v a' x <= vp)%Q)
    /\ (forall x, r <= x -> x <= pr -> (vp <= val v a' x)%Q).
Proof.
  induction fuel as [|fuel IH]; intros a pi pj a' r Hf Hl Hlt Hr Hlen Hlow Hhigh;
    [lia|].
  cbn [exchange].
  assert (Hstop_up : less (val v a pj) vp = false).
  { destruct (less (val v a pj) vp) eqn:E; [|reflexivity].
    apply less_true in E. pose proof (Hhigh pj ltac:(lia) ltac:(lia)) as H.
    exfalso. exact (Qlt_not_le _ _ E H). }
  assert (Hstop_down : less vp (val v a pi) = false).
  { destruct (less vp (val v a pi)) eqn:E; [|reflexivity].
    apply less_true in E. pose proof (Hlow pi ltac:(lia) ltac:(lia)) as H.
    exfalso. exact (Qlt_not_le _ _ E H). }
  destruct (@scan_up_spec a vp pj (List.length a) pi Hlt ltac:(lia) Hstop_up)
    as [U1 [U2 [U3 U4]]].
  destruct (@scan_down_spec a vp pi pj Hlt Hstop_down) as [D1 [D2 [D3 D4]]].
  set (pi' := scan_up v (List.length a) a vp pi) in *.
  set (pj' := scan_down v a vp pj) in *.
  destruct (Nat.leb_spec pj' pi') as [Hbreak|Hgo].
  - intros H. inversion H; subst a' r.
    split; [apply within_refl|]. split; [exact U1|]. split; [exact U2|].
    split.
    + intros x Hx1 Hx2. destruct (le_lt_dec x pi) as [Hx|Hx].
      * apply Hlow; lia.
      * apply Qlt_le_weak, less_true, U4; lia.
    + intros x Hx1 Hx2. destruct (le_lt_dec pj x) as [Hx|Hx].
      * apply Hhigh; lia.
      * destruct (Nat.eq_dec x pi') as [->|N].
        -- apply less_false. exact U3.
        -- apply Qlt_le_weak, less_true, D4; lia.
  - intros H.
    destruct (IH (INTP_SWAP a pi' pj') pi' pj' a' r) as [Hw [R1 [R2 [R3 R4]]]];
      try lia.
    + rewrite length_swap. exact Hlen.
    + intros x Hx1 Hx2. rewrite val_swap by lia. eqb_lia.
      * apply less_false. exact D3.
      * destruct (le_lt_dec x pi) as [Hx|Hx].
        -- apply Hlow; lia.
        -- apply Qlt_le_weak, less_true, U4; lia.
    + intros x Hx1 Hx2. rewrite val_swap by lia. eqb_lia.
      * apply less_false. exact U3.
      * destruct (le_lt_dec pj x) as [Hx|Hx].
        -- apply Hhigh; lia.
        -- apply Qlt_le_weak, less_true, D4; lia.
    + exact H.
    + split; [|split; [lia|split; [lia|split; assumption]]].
      eapply within_trans.
      * apply (@within_swap (S pi) (pj - 1) a pi' pj'); lia.
      * eapply within_wider; [| |exact Hw]; lia.
Qed.

(** The partition step puts one entry in its place [pi], strictly inside
    the range, with nothing above it on its left and nothing below it on
    its right. *)
Lemma partition_spec a pl pr a' pi :
  pl + 2 <= pr -> pr < List.length a ->
  partition v a pl pr = (a', pi) ->
  within pl pr a a'
  /\ pl < pi /\ pi < pr
  /\ (forall x, pl <= x -> x < pi -> (val v a' x <= val v a' pi)%Q)
  /\ (forall x, pi < x -> x <= pr -> (val v a' pi <= val v a' x)%Q).
Proof.
  intros Hsize Hlen. unfold partition.
  set (pm := pl + (pr - pl) / 2).
  assert (Hpm : pl < pm /\ pm < pr).
  { unfold pm. pose proof (Nat.div_mod_eq (pr - pl) 2) as E.
    pose proof (Nat.mod_upper_bound (pr - pl) 2 ltac:(lia)). lia. }
  destruct (@ordered_pair a pl pr pl pm) as [W1 [O1 [C1 F1]]]; try lia.
  set (a1 := if less (val v a pm) (val v a pl) then INTP_SWAP a pm pl else a)
    in *.
  assert (L1 : List.length a1 = List.length a) by apply W1.
  destruct (@ordered_pair a1 pl pr pm pr) as [W2 [O2 [C2 F2]]]; try lia.
  set (a2 := if less (val v a1 pr) (val v a1 pm) then INTP_SWAP a1 pr pm else a1)
    in *.
  assert (L2 : List.length a2 = List.length a) by (rewrite <- L1; apply W2).
  destruct (@ordered_pair a2 pl pr pl pm) as [W3 [O3 [C3 F3]]]; try lia.
  set (a3 := if less (val v a2 pm) (val v a2 pl) then INTP_SWAP a2 pm pl else a2)
    in *.
  assert (L3 : List.length a3 = List.length a) by (rewrite <- L2; apply W3).
  assert (Hmid : (val v a1 pm <= val v a2 pr)%Q).
  { destruct C2 as [[E1 E2]|[E1 E2]].
    - rewrite <- E1. exact O2.
    - rewrite E2. apply Qle_refl. }
  assert (Hlo : (val v a2 pl <= val v a2 pr)%Q).
  { rewrite (F2 pl) by lia. eapply Qle_trans; [exact O1 | exact Hmid]. }
  assert (Hhi : (val v a3 pm <= val v a3 pr)%Q).
  { rewrite (F3 pr) by lia.
    destruct C3 as [[_ E]|[_ E]]; rewrite E; [exact O2 | exact Hlo]. }
  set (vp := val v a3 pm) in *.
  set (a4 := INTP_SWAP a3 pm (pr - 1)).
  assert (W4 : within pl pr a3 a4) by (apply within_swap; lia).
  assert (L4 : List.length a4 = List.length a) by (rewrite <- L3; apply W4).
  assert (V4 : forall x, val v a4 x
                 = val v a3 (if x =? pr - 1 then pm
                             else if x =? pm then pr - 1 else x)).
  { intros x. apply val_swap; lia. }
  destruct (exchange v (List.length a4) a4 vp pl (pr - 1)) as [a5 r] eqn:Ex.
  destruct (@exchange_spec pl pr vp (List.length a4) a4 pl (pr - 1) a5 r)
    as [W5 [R1 [R2 [R3 R4]]]]; try lia.
  { intros x Hx1 Hx2. replace x with pl by lia. rewrite V4. eqb_lia.
    exact O3. }
  { intros x Hx1 Hx2. rewrite V4. eqb_lia; [apply Qle_refl|].
    replace x with pr by lia. exact Hhi. }
  { exact Ex. }
  assert (L5 : List.length a5 = List.length a) by (rewrite <- L4; apply W5).
  assert (Hpivot : val v a5 (pr - 1) = vp).
  { unfold val. rewrite (w_out W5) by lia. fold (val v a4 (pr - 1)).
    rewrite V4. rewrite Nat.eqb_refl. reflexivity. }
  assert (Hplace : val v (INTP_SWAP a5 r (pr - 1)) r = vp).
  { rewrite val_swap by lia. rewrite Nat.eqb_refl.
    destruct (Nat.eqb_spec r (pr - 1)) as [E|E]; [rewrite E|]; exact Hpivot. }
  intros H. inversion H; subst a' pi. clear H.
  split; [|split; [lia|split; [lia|split]]].
  - eapply within_trans; [exact W1|]. eapply within_trans; [exact W2|].
    eapply within_trans; [exact W3|]. eapply within_trans; [exact W4|].
    eapply within_trans.
    + eapply within_wider; [| |exact W5]; lia.
    + apply within_swap; lia.
  - intros x Hx1 Hx2. rewrite Hplace. rewrite val_swap by lia.
    destruct (Nat.eqb_spec x (pr - 1)); [lia|].
    destruct (Nat.eqb_spec x r); [lia|]. apply R3; lia.
  - intros x Hx1 Hx2. rewrite Hplace. rewrite val_swap by lia.
    destruct (Nat.eqb_spec x (pr - 1)); [apply R4; lia|].
    destruct (Nat.eqb_spec x r); [lia|]. apply R4; lia.
Qed.

End PartitionFacts.

Section HeapFacts.

Import Numpy Sort_Notions.

Variable v : list Q.

Lemma hole_jumps a p q vi :
  p < List.length a -> p <> q ->
  set (set a p (get a q)) q vi = INTP_SWAP (set a p vi) p q.
Proof.
  intros H Hne. unfold INTP_SWAP.
  rewrite (@get_set_neq a p q vi) by exact Hne.
  rewrite get_set_eq by exact H. rewrite set_set. reflexivity.
Qed.

Lemma hval_swap a pl i j x :
  1 <= i -> 1 <= j -> 1 <= x ->
  pl + i - 1 < List.length a -> pl + j - 1 < List.length a ->
  hval v (INTP_SWAP a (pl + i - 1) (pl + j - 1)) pl x
  = hval v a pl (if x =? j then i else if x =? i then j else x).
Proof.
  intros Hi Hj Hx Li Lj. unfold hval. rewrite val_swap by assumption.
  destruct (Nat.eqb_spec x j) as [->|N1].
  - rewrite Nat.eqb_refl. reflexivity.
  - destruct (Nat.eqb_spec (pl + x - 1) (pl + j - 1)); [lia|].
    destruct (Nat.eqb_spec x i) as [->|N2].
    + rewrite Nat.eqb_refl. reflexivity.
    + destruct (Nat.eqb_spec (pl + x - 1) (pl + i - 1)); [lia|]. reflexivity.
Qed.

Lemma hval_hset_eq a pl i tmp :
  pl + i - 1 < List.length a -> hval v (hset a pl i tmp) pl i = nth tmp v 0%Q.
Proof. intros H. unfold hval, hset. apply val_set_eq. exact H. Qed.

Lemma hval_hset_neq a pl i tmp x :
  1 <= i -> 1 <= x -> x <> i ->
  hval v (hset a pl i tmp) pl x = hval v a pl x.
Proof. intros Hi Hx N. unfold hval, hset. apply val_set_neq. lia. Qed.

(** Entries of the heap come from the heap, the others stay. *)
Lemma within_heap pl m a a' :
  1 <= m -> within pl (pl + m - 1) a a' ->
  (forall x, 1 <= x -> x <= m ->
     exists y, 1 <= y /\ y <= m /\ hval v a' pl x = hval v a pl y)
  /\ (forall x, m < x -> hval v a' pl x = hval v a pl x).
Proof.
  intros Hm W. split.
  - intros x H1 H2. destruct (w_in W (x := pl + x - 1) ltac:(lia))
      as [y [Hy E]].
    exists (y + 1 - pl). split; [lia|]. split; [lia|].
    unfold hval, val. rewrite E. f_equal. f_equal. lia.
  - intros x Hx. unfold hval, val. rewrite (w_out W) by lia. reflexivity.
Qed.

Lemma sift_spec pl n l :
  forall fuel a tmp i,
    1 <= l -> l <= i -> i <= n -> pl + n <= List.length a ->
    n < fuel + i ->
    (forall x c, l <= x -> x <> i -> child x c -> c <= n ->
       (hval v (hset a pl i tmp) pl c <= hval v (hset a pl i tmp) pl x)%Q) ->
    (forall p c, l <= p -> child p i -> child i c -> c <= n ->
       (hval v (hset a pl i tmp) pl c <= hval v (hset a pl i tmp) pl p)%Q) ->
    within pl (pl + n - 1) (hset a pl i tmp)
      (sift v fuel a pl n tmp i (i + i))
    /\ heap_from v (sift v fuel a pl n tmp i (i + i)) pl l n.
Proof.
  induction fuel as [|fuel IH]; intros a tmp i Hl Hli Hin Hlen Hfuel Ha Hb;
    [lia|].
  cbn [sift]. set (A := hset a pl i tmp) in *.
  assert (LA : List.length A = List.length a) by apply length_set.
  assert (Hi : hval v A pl i = nth tmp v 0%Q)
    by (apply hval_hset_eq; lia).
  assert (Hread : forall c, 1 <= c -> c <> i ->
            nth (hget a pl c) v 0%Q = hval v A pl c).
  { intros c H1 H2. unfold A. rewrite hval_hset_neq by lia. reflexivity. }
  destruct (Nat.leb_spec (i + i) n) as [Hj|Hj].
  - set (j' := if (i + i <? n)
                  && less (nth (hget a pl (i + i)) v 0%Q)
                          (nth (hget a pl (i + i + 1)) v 0%Q)
               then i + i + 1 else i + i).
    assert (Hj' : child i j' /\ j' <= n
                  /\ forall c, child i c -> c <= n ->
                       (hval v A pl c <= hval v A pl j')%Q).
    { unfold j'. rewrite !Hread by lia.
      destruct ((i + i <? n)
                && less (hval v A pl (i + i)) (hval v A pl (i + i + 1)))
        eqn:E.
      - apply andb_true_iff in E. destruct E as [E1 E2].
        apply Nat.ltb_lt in E1. apply less_true in E2.
        split; [right; lia|]. split; [lia|].
        intros c [Hc|Hc] Hcn.
        + replace c with (i + i) by lia. apply Qlt_le_weak. exact E2.
        + replace c with (i + i + 1) by lia. apply Qle_refl.
      - split; [left; lia|]. split; [lia|].
        intros c [Hc|Hc] Hcn.
        + replace c with (i + i) by lia. apply Qle_refl.
        + replace c with (i + i + 1) by lia.
          apply andb_false_iff in E. destruct E as [E|E].
          * apply Nat.ltb_ge in E. lia.
          * apply less_false. exact E. }
    destruct Hj' as [Hchild [Hjn Hmax]].
    assert (Hji : j' <> i /\ 1 <= j' /\ i < j') by (destruct Hchild; lia).
    clearbody j'.
    rewrite (Hread j') by lia. rewrite <- Hi.
    destruct (less (hval v A pl i) (hval v A pl j')) eqn:E.
    + apply less_true in E.
      assert (Hmove : hset (hset a pl i (hget a pl j')) pl j' tmp
                      = INTP_SWAP A (pl + i - 1) (pl + j' - 1)).
      { unfold hset, hget, A, hset. apply hole_jumps; lia. }
      assert (Hsw : forall x, 1 <= x ->
                hval v (INTP_SWAP A (pl + i - 1) (pl + j' - 1)) pl x
                = hval v A pl (if x =? j' then i
                               else if x =? i then j' else x)).
      { intros x Hx. apply hval_swap; lia. }
      destruct (IH (hset a pl i (hget a pl j')) tmp j') as [W Hheap];
        try lia.
      * unfold hset. rewrite length_set. exact Hlen.
      * rewrite Hmove. intros x c H1 H2 H3 H4.
        assert (Hc1 : 1 <= c) by (destruct H3; lia).
        rewrite !Hsw by lia.
        destruct (Nat.eqb_spec x j') as [|_]; [lia|].
        destruct (Nat.eqb_spec x i) as [->|Nx].
        -- destruct (Nat.eqb_spec c j') as [_|Nc].
           ++ apply Qlt_le_weak. exact E.
           ++ destruct (Nat.eqb_spec c i) as [|_]; [destruct H3; lia|].
              apply Hmax; assumption.
        -- destruct (Nat.eqb_spec c j') as [->|Nc].
           ++ exfalso. destruct H3, Hchild; lia.
           ++ destruct (Nat.eqb_spec c i) as [->|Nc'].
              ** apply Hb; assumption.
              ** apply Ha; assumption.
      * rewrite Hmove. intros p c H1 H2 H3 H4.
        assert (Hp : p = i) by (destruct H2, Hchild; lia). subst p.
        assert (Hc1 : 1 <= c) by (destruct H3; lia).
        rewrite !Hsw by lia.
        destruct (Nat.eqb_spec i j') as [|_]; [lia|]. rewrite Nat.eqb_refl.
        destruct (Nat.eqb_spec c j') as [|_]; [destruct H3; lia|].
        destruct (Nat.eqb_spec c i) as [|_]; [destruct H3; lia|].
        apply Ha; try assumption; lia.
      * rewrite Hmove in W. split; [|exact Hheap].
        eapply within_trans; [|exact W]. apply within_swap; lia.
    + apply less_false in E. split; [apply within_refl|].
      intros x c H1 H2 H3.
      destruct (Nat.eq_dec x i) as [->|Nx]; [|apply Ha; assumption].
      eapply Qle_trans; [apply Hmax; assumption | exact E].
  - split; [apply within_refl|].
    intros x c H1 H2 H3.
    destruct (Nat.eq_dec x i) as [->|Nx]; [|apply Ha; assumption].
    destruct H2; lia.
Qed.

Lemma heapify_spec pl n a :
  1 <= n -> pl + n <= List.length a ->
  within pl (pl + n - 1) a (heapify v a pl n)
  /\ heap_from v (heapify v a pl n) pl 1 n.
Proof.
  intros Hn Hlen. unfold heapify.
  assert (Hgen : forall m a,
            m <= n -> pl + n <= List.length a ->
            heap_from v a pl (m + 1) n ->
            let a' := fold_left
                        (fun a l => sift v n a pl n (hget a pl l) l (2 * l))
                        (rev (seq 1 m)) a in
            within pl (pl + n - 1) a a' /\ heap_from v a' pl 1 n).
  { clear a Hlen. induction m as [|m IH]; intros a Hm Hlen Hheap.
    - cbn. split; [apply within_refl | exact Hheap].
    - rewrite seq_S, rev_app_distr. cbn [rev app fold_left].
      replace (2 * (1 + m)) with ((1 + m) + (1 + m)) by lia.
      assert (Hself : hset a pl (1 + m) (hget a pl (1 + m)) = a)
        by apply set_get.
      destruct (@sift_spec pl n (1 + m) n a (hget a pl (1 + m)) (1 + m))
        as [W Hh]; try lia.
      + rewrite Hself. intros x c H1 H2 H3 H4.
        apply Hheap; try assumption; lia.
      + intros p c H1 H2 H3 H4. destruct H2; lia.
      + rewrite Hself in W.
        set (a1 := sift v n a pl n (hget a pl (1 + m)) (1 + m)
                     (1 + m + (1 + m))) in *.
        destruct (IH a1) as [W' Hh']; try lia.
        * rewrite (w_len W). exact Hlen.
        * replace (m + 1) with (1 + m) by lia. exact Hh.
        * split; [|exact Hh']. eapply within_trans; eauto. }
  apply Hgen; try assumption.
  - pose proof (Nat.div_mod_eq n 2).
    pose proof (Nat.mod_upper_bound n 2 ltac:(lia)). lia.
  - intros x c H1 H2 H3. exfalso.
    pose proof (Nat.div_mod_eq n 2).
    pose proof (Nat.mod_upper_bound n 2 ltac:(lia)). destruct H2; lia.
Qed.

(** The first entry of a heap points at its largest value. *)
Lemma root_max pl k a :
  heap_from v a pl 1 k ->
  forall x, 1 <= x -> x <= k -> (hval v a pl x <= hval v a pl 1)%Q.
Proof.
  intros Hheap x. induction x as [x IH] using lt_wf_ind. intros H1 H2.
  destruct (Nat.eq_dec x 1) as [->|N]; [apply Qle_refl|].
  pose proof (Nat.div_mod_eq x 2) as E.
  pose proof (Nat.mod_upper_bound x 2 ltac:(lia)) as B.
  eapply Qle_trans.
  - apply (Hheap (x / 2) x); [lia| |lia].
    unfold child. lia.
  - apply IH; lia.
Qed.

Lemma sortdown_spec pl N a :
  1 <= N -> pl + N <= List.length a ->
  heap_from v a pl 1 N ->
  within pl (pl + N - 1) a (sortdown v a pl N)
  /\ forall x y, 1 <= x -> x <= y -> y <= N ->
       (hval v (sortdown v a pl N) pl x <= hval v (sortdown v a pl N) pl y)%Q.
Proof.
  intros HN Hlen Hheap. unfold sortdown.
  assert (Hgen : forall m a,
            m + 1 <= N -> pl + N <= List.length a ->
            heap_from v a pl 1 (m + 1) ->
            (forall x y, 1 <= x -> x <= y -> y <= N -> m + 1 < y ->
               (hval v a pl x <= hval v a pl y)%Q) ->
            let a' := fold_left
                        (fun a n =>
                           let tmp := hget a pl n in
                           let a := hset a pl n (hget a pl 1) in
                           sift v n a pl (n - 1) tmp 1 2)
                        (rev (seq 2 m)) a in
            within pl (pl + N - 1) a a'
            /\ forall x y, 1 <= x -> x <= y -> y <= N ->
                 (hval v a' pl x <= hval v a' pl y)%Q).
  { clear a Hlen Hheap. induction m as [|m IH]; intros a Hm Hlen Hheap Htail.
    - cbn. split; [apply within_refl|]. intros x y H1 H2 H3.
      destruct (Nat.eq_dec y 1) as [->|Ny].
      + replace x with 1 by lia. apply Qle_refl.
      + apply Htail; lia.
    - rewrite seq_S, rev_app_distr. cbn [rev app fold_left].
      set (k := 2 + m). cbv zeta.
      set (A := INTP_SWAP a (pl + k - 1) (pl + 1 - 1)).
      assert (HA : hset (hset a pl k (hget a pl 1)) pl 1 (hget a pl k) = A)
        by reflexivity.
      assert (LA : List.length A = List.length a) by apply length_swap.
      assert (Hsw : forall x, 1 <= x ->
                hval v A pl x
                = hval v a pl (if x =? 1 then k
                               else if x =? k then 1 else x)).
      { intros x Hx. unfold A. apply hval_swap; lia. }
      destruct (@sift_spec pl (k - 1) 1 k (hset a pl k (hget a pl 1))
                  (hget a pl k) 1) as [W Hh]; try lia.
      + unfold hset. rewrite length_set. lia.
      + rewrite HA. intros x c H1 H2 H3 H4.
        assert (Hc : 1 <= c /\ x < c) by (destruct H3; lia).
        rewrite !Hsw by lia.
        destruct (Nat.eqb_spec c 1); [lia|]. destruct (Nat.eqb_spec c k); [lia|].
        destruct (Nat.eqb_spec x 1); [lia|]. destruct (Nat.eqb_spec x k); [lia|].
        apply Hheap; try assumption; lia.
      + intros p c H1 H2 H3 H4. destruct H2; lia.
      + rewrite HA in W. change (1 + 1) with 2 in *.
        set (a1 := sift v k (hset a pl k (hget a pl 1)) pl (k - 1)
                     (hget a pl k) 1 2) in *.
        destruct (@within_heap pl (k - 1) A a1 ltac:(lia) W) as [Hin Hout].
        assert (Hmax : forall z, 1 <= z -> z <= k ->
                  (hval v a pl z <= hval v a pl 1)%Q).
        { apply root_max. replace k with (S m + 1) by lia. exact Hheap. }
        assert (Hfrom : forall x, 1 <= x -> x < k ->
                  exists z, 1 <= z /\ z <= k /\ hval v a1 pl x = hval v a pl z).
        { intros x H1 H2. destruct (Hin x H1 ltac:(lia)) as [y [Y1 [Y2 E]]].
          rewrite E, Hsw by lia.
          destruct (Nat.eqb_spec y 1); [exists k; repeat split; lia|].
          destruct (Nat.eqb_spec y k); [lia|]. exists y. repeat split; lia. }
        assert (Hk : hval v a1 pl k = hval v a pl 1).
        { rewrite Hout, Hsw by lia.
          destruct (Nat.eqb_spec k 1); [lia|]. rewrite Nat.eqb_refl.
          reflexivity. }
        assert (Habove : forall y, k < y -> hval v a1 pl y = hval v a pl y).
        { intros y Hy. rewrite Hout, Hsw by lia.
          destruct (Nat.eqb_spec y 1); [lia|].
          destruct (Nat.eqb_spec y k); [lia|]. reflexivity. }
        destruct (IH a1) as [W' Hsorted]; try lia.
        * rewrite (w_len W), LA. exact Hlen.
        * replace (m + 1) with (k - 1) by lia. exact Hh.
        * intros x y H1 H2 H3 H4.
          destruct (Nat.eq_dec y k) as [->|Ny].
          -- rewrite Hk. destruct (Nat.eq_dec x k) as [->|Nx].
             ++ rewrite Hk. apply Qle_refl.
             ++ destruct (Hfrom x H1 ltac:(lia)) as [z [Z1 [Z2 ->]]].
                apply Hmax; assumption.
          -- rewrite (Habove y) by lia.
             destruct (lt_eq_lt_dec x k) as [[Hx|Hx]|Hx].
             ++ destruct (Hfrom x H1 Hx) as [z [Z1 [Z2 ->]]].
                apply Htail; lia.
             ++ subst x. rewrite Hk. apply Htail; lia.
             ++ rewrite (Habove x) by lia. apply Htail; lia.
        * split; [|exact Hsorted].
          eapply within_trans; [|exact W'].
          eapply within_trans.
          -- apply (@within_swap pl (pl + N - 1) a (pl + k - 1) (pl + 1 - 1));
               lia.
          -- fold A. eapply within_wider; [| |exact W]; lia. }
  destruct (Nat.eq_dec N 0) as [->|N0]; [lia|].
  apply Hgen; try lia.
  replace (N - 1 + 1) with N by lia. exact Hheap.
Qed.

(** [aheapsort_] puts the range in ascending order and touches nothing
    else. *)
Lemma aheapsort_spec a pl n :
  1 <= n -> pl + n <= List.length a ->
  within pl (pl + n - 1) a (aheapsort v a pl n)
  /\ ascending v (aheapsort v a pl n) pl (pl + n - 1).
Proof.
  intros Hn Hlen. unfold aheapsort.
  destruct (@heapify_spec pl n a Hn Hlen) as [W1 H1].
  destruct (@sortdown_spec pl n (heapify v a pl n) Hn) as [W2 H2].
  - rewrite (w_len W1). exact Hlen.
  - exact H1.
  - split; [eapply within_trans; eauto|].
    intros x Hx1 Hx2.
    pose proof (H2 (x - pl + 1) (x - pl + 2) ltac:(lia) ltac:(lia) ltac:(lia))
      as H.
    unfold hval in H.
    replace (pl + (x - pl + 1) - 1) with x in H by lia.
    replace (pl + (x - pl + 2) - 1) with (S x) in H by lia.
    exact H.
Qed.

End HeapFacts.

Section LoopFacts.

Import Numpy Sort_Notions.

Variable v : list Q.

Lemma ascending_sorted a pl pr :
  ascending v a pl pr ->
  forall i j, pl <= i -> i <= j -> j <= pr -> (val v a i <= val v a j)%Q.
Proof.
  intros Hasc i j Hi Hij Hj.
  induction j as [|j IH]; [replace i with 0 by lia; apply Qle_refl|].
  destruct (Nat.eq_dec i (S j)) as [->|N]; [apply Qle_refl|].
  eapply Qle_trans; [apply IH; lia|]. apply Hasc; lia.
Qed.

(** Rearranging one range leaves the pairs that reach out of it settled. *)
Lemma settled_outside a a1 pl pr rest i j :
  apart ((pl, pr) :: rest) -> settled v a ((pl, pr) :: rest) ->
  within pl pr a a1 -> pr < List.length a ->
  i < j -> j < List.length a ->
  ~ (pl <= i /\ j <= pr) ->
  (exists r, In r rest /\ inside r i /\ inside r j)
  \/ (val v a1 i <= val v a1 j)%Q.
Proof.
  intros [Hap _] Hset W Hpr Hij Hj Hout.
  assert (Hfrom : forall x, exists y,
            get a1 x = get a y
            /\ (pl <= x <= pr -> pl <= y <= pr)
            /\ (~ pl <= x <= pr -> y = x)).
  { intros x. destruct (le_lt_dec pl x) as [H1|H1];
      [destruct (le_lt_dec x pr) as [H2|H2]|].
    - destruct (w_in W (x := x) ltac:(lia)) as [y [Hy E]].
      exists y. split; [exact E|]. split; [auto|lia].
    - exists x. split; [apply (w_out W); lia|]. split; [lia|auto].
    - exists x. split; [apply (w_out W); lia|]. split; [lia|auto]. }
  destruct (Hfrom i) as [i' [Ei [Ii Oi]]].
  destruct (Hfrom j) as [j' [Ej [Ij Oj]]].
  assert (Hval : val v a1 i = val v a i' /\ val v a1 j = val v a j').
  { unfold val. rewrite Ei, Ej. auto. }
  destruct Hval as [-> ->].
  assert (Hij' : i' < j') by lia.
  assert (Hj' : j' < List.length a) by lia.
  destruct (Hset i' j' Hij' Hj') as [[r [[Hr|Hr] [[R1 R2] [R3 R4]]]]|Hle].
  - subst r. cbn [fst snd] in *. lia.
  - destruct (Hap r Hr) as [H|H]; cbn [fst snd] in H.
    + assert (i' = i /\ j' = j) as [-> ->] by lia.
      left. exists r. repeat split; assumption.
    + assert (i' = i /\ j' = j) as [-> ->] by lia.
      left. exists r. repeat split; assumption.
  - right. exact Hle.
Qed.

Lemma settled_finish a a1 pl pr rest :
  apart ((pl, pr) :: rest) -> settled v a ((pl, pr) :: rest) ->
  within pl pr a a1 -> pr < List.length a -> ascending v a1 pl pr ->
  settled v a1 rest.
Proof.
  intros Hap Hset W Hpr Hasc i j Hij Hj. rewrite (w_len W) in Hj.
  destruct (le_lt_dec pl i) as [H1|H1]; [destruct (le_lt_dec j pr) as [H2|H2]|].
  - right. apply (ascending_sorted Hasc); lia.
  - apply (settled_outside Hap Hset W Hpr Hij Hj). lia.
  - apply (settled_outside Hap Hset W Hpr Hij Hj). lia.
Qed.

Lemma settled_split a a1 pl pr pi rest :
  apart ((pl, pr) :: rest) -> settled v a ((pl, pr) :: rest) ->
  within pl pr a a1 -> pr < List.length a -> pl < pi -> pi < pr ->
  (forall x, pl <= x -> x < pi -> (val v a1 x <= val v a1 pi)%Q) ->
  (forall x, pi < x -> x <= pr -> (val v a1 pi <= val v a1 x)%Q) ->
  forall rs, incl ((pl, pi - 1) :: (pi + 1, pr) :: rest) rs ->
  settled v a1 rs.
Proof.
  intros Hap Hset W Hpr Hl Hr Hlow Hhigh rs Hincl i j Hij Hj.
  rewrite (w_len W) in Hj.
  assert (Hcase : pl <= i /\ j <= pr \/ ~ (pl <= i /\ j <= pr)) by lia.
  destruct Hcase as [[H1 H2]|Hout].
  - destruct (le_lt_dec j (pi - 1)) as [Hj1|Hj1].
    + left. exists (pl, pi - 1). split; [apply Hincl; left; reflexivity|].
      unfold inside; cbn [fst snd]. lia.
    + destruct (le_lt_dec (pi + 1) i) as [Hi1|Hi1].
      * left. exists (pi + 1, pr).
        split; [apply Hincl; right; left; reflexivity|].
        unfold inside; cbn [fst snd]. lia.
      * right. eapply Qle_trans with (y := val v a1 pi).
        -- destruct (Nat.eq_dec i pi) as [->|N]; [apply Qle_refl|].
           apply Hlow; lia.
        -- destruct (Nat.eq_dec j pi) as [->|N]; [apply Qle_refl|].
           apply Hhigh; lia.
  - destruct (settled_outside Hap Hset W Hpr Hij Hj Hout) as [[r [Hr' Hin]]|Hle].
    + left. exists r. split; [|exact Hin]. apply Hincl. right. right. exact Hr'.
    + right. exact Hle.
Qed.

Lemma loop_spec :
  forall fuel a pl pr cdepth inner stack,
    (forall r, In r ((pl, pr) :: map fst stack) ->
       fst r <= snd r /\ snd r < List.length a) ->
    apart ((pl, pr) :: map fst stack) ->
    settled v a ((pl, pr) :: map fst stack) ->
    weight ((pl, pr) :: map fst stack) <= fuel ->
    Permutation (loop v fuel a pl pr cdepth inner stack) a
    /\ settled v (loop v fuel a pl pr cdepth inner stack) [].
Proof.
  induction fuel as [|fuel IH];
    intros a pl pr cdepth inner stack Hok Hap Hset Hw.
  { cbn [weight] in Hw. lia. }
  destruct (Hok (pl, pr) ltac:(left; reflexivity)) as [Hle Hlen].
  cbn [fst snd] in Hle, Hlen.
  assert (Hdone : forall a1,
            within pl pr a a1 -> ascending v a1 pl pr ->
            let a' := match stack with
                      | [] => a1
                      | (pl', pr', cdepth') :: stack' =>
                          loop v fuel a1 pl' pr' cdepth' false stack'
                      end in
            Permutation a' a /\ settled v a' []).
  { intros a1 W Hasc.
    pose proof (settled_finish Hap Hset W Hlen Hasc) as Hset1.
    destruct stack as [|[[pl' pr'] cdepth'] stack']; cbv zeta.
    - split; [apply W | exact Hset1].
    - destruct (IH a1 pl' pr' cdepth' false stack') as [P S].
      + intros r Hr. rewrite (w_len W). apply Hok. right. exact Hr.
      + apply Hap.
      + exact Hset1.
      + cbn [weight map fst snd] in Hw |- *. lia.
      + split; [|exact S]. eapply Permutation_trans; [exact P | apply W]. }
  cbn [loop].
  destruct (negb inner && (cdepth <? 0)%Z).
  - destruct (@aheapsort_spec v a pl (pr - pl + 1)) as [W Hasc]; try lia.
    replace (pl + (pr - pl + 1) - 1) with pr in W, Hasc by lia.
    exact (Hdone _ W Hasc).
  - destruct (Nat.ltb_spec SMALL_QUICKSORT (pr - pl)) as [Hbig|Hsmall].
    + unfold SMALL_QUICKSORT in Hbig.
      destruct (partition v a pl pr) as [a1 pi] eqn:Ep.
      destruct (@partition_spec v a pl pr a1 pi ltac:(lia) Hlen Ep)
        as [W [P1 [P2 [Hlow Hhigh]]]].
      assert (Hap1 : forall r', In r' (map fst stack) ->
                pr < fst r' \/ snd r' < pl) by apply Hap.
      assert (Hok1 : forall r, In r (map fst stack) ->
                fst r <= snd r /\ snd r < List.length a1).
      { intros r Hr. rewrite (w_len W). apply Hok. right. exact Hr. }
      destruct (Nat.ltb_spec (pi - pl) (pr - pi)) as [Hside|Hside].
      * destruct (IH a1 pl (pi - 1) (cdepth - 1)%Z true
                    ((pi + 1, pr, (cdepth - 1)%Z) :: stack)) as [P S].
        -- cbn [map fst]. intros r [<-|[<-|Hr]]; cbn [fst snd].
           ++ rewrite (w_len W). lia.
           ++ rewrite (w_len W). lia.
           ++ apply Hok1. exact Hr.
        -- cbn [map fst apart]. split; [|split; [|apply Hap]].
           ++ intros r' [<-|Hr]; cbn [fst snd]; [lia|].
              destruct (Hap1 r' Hr); lia.
           ++ intros r' Hr; cbn [fst snd]. destruct (Hap1 r' Hr); lia.
        -- cbn [map fst].
           apply (settled_split Hap Hset W Hlen P1 P2 Hlow Hhigh).
           apply incl_refl.
        -- cbn [weight map fst snd] in Hw |- *. lia.
        -- split; [|exact S]. eapply Permutation_trans; [exact P | apply W].
      * destruct (IH a1 (pi + 1) pr (cdepth - 1)%Z true
                    ((pl, pi - 1, (cdepth - 1)%Z) :: stack)) as [P S].
        -- cbn [map fst]. intros r [<-|[<-|Hr]]; cbn [fst snd].
           ++ rewrite (w_len W). lia.
           ++ rewrite (w_len W). lia.
           ++ apply Hok1. exact Hr.
        -- cbn [map fst apart]. split; [|split; [|apply Hap]].
           ++ intros r' [<-|Hr]; cbn [fst snd]; [lia|].
              destruct (Hap1 r' Hr); lia.
           ++ intros r' Hr; cbn [fst snd]. destruct (Hap1 r' Hr); lia.
        -- cbn [map fst].
           apply (settled_split Hap Hset W Hlen P1 P2 Hlow Hhigh).
           intros r [<-|[<-|Hr]]; [right; left|left|right; right]; auto.
        -- cbn [weight map fst snd] in Hw |- *. lia.
        -- split; [|exact S]. eapply Permutation_trans; [exact P | apply W].
    + destruct (@insertion_spec v a pl pr Hle Hlen) as [W [Hasc _]].
      exact (Hdone _ W Hasc).
Qed.

(** [aquicksort_] rearranges the index array so that it points at the
    values in ascending order, whatever the values are. *)
Lemma aquicksort_spec tosort :
  let a' := aquicksort v tosort (List.length tosort) in
  Permutation a' tosort
  /\ forall i j, i < j -> j < List.length tosort ->
       (val v a' i <= val v a' j)%Q.
Proof.
  unfold aquicksort. destruct (List.length tosort) as [|n] eqn:En.
  - cbv zeta. split; [reflexivity|]. intros i j Hij Hj. lia.
  - cbv zeta.
    destruct (@loop_spec (2 * S n) tosort 0 (S n - 1)
                (2 * Z.of_nat (npy_get_msb (S n)))%Z false []) as [P S].
    + cbn [map]. intros r [<-|[]]. cbn [fst snd]. lia.
    + cbn [map apart]. split; [intros r' []|exact I].
    + intros i j Hij Hj. left. exists (0, S n - 1).
      split; [left; reflexivity|]. unfold inside; cbn [fst snd]. lia.
    + cbn [weight map fst snd]. lia.
    + split; [exact P|]. intros i j Hij Hj.
      destruct (S i j Hij) as [[r [[] _]]|Hle]; [|exact Hle].
      rewrite (Permutation_length P). lia.
Qed.

(** Up to 17 entries the routine is its final insertion sort. *)
Lemma aquicksort_small tosort num :
  1 <= num -> num <= 17 ->
  aquicksort v tosort num = insertion v tosort 0 (num - 1).
Proof.
  intros H1 H2. unfold aquicksort.
  destruct num as [|n]; [lia|].
  replace (2 * S n) with (S (2 * n + 1)) by lia. cbn [loop negb andb].
  replace ((2 * Z.of_nat (npy_get_msb (S n)) <? 0)%Z) with false
    by (symmetry; apply Z.ltb_ge; lia).
  replace (SMALL_QUICKSORT <? S n - 1 - 0) with false
    by (symmetry; apply Nat.ltb_ge; unfold SMALL_QUICKSORT; lia).
  reflexivity.
Qed.

End LoopFacts.

Section NargsortFacts.

Import Numpy Pandas Sort_Notions.

Variable A : Type.
Variable key : A -> Q.
Variable d : A.

Lemma take_map (l : list A) idx :
  (forall i, In i idx -> i < List.length l) ->
  take l idx = map (fun i => nth i l d) idx.
Proof.
  unfold take. induction idx as [|i idx IH]; intros H; [reflexivity|].
  cbn [flat_map map]. rewrite IH by (intros j Hj; apply H; right; exact Hj).
  assert (Hi : i < List.length l) by (apply H; left; reflexivity).
  rewrite (nth_error_nth' l d Hi). reflexivity.
Qed.

Lemma map_nth_seq (l : list A) :
  map (fun i => nth i l d) (seq 0 (List.length l)) = l.
Proof.
  induction l as [|x l IH]; [reflexivity|].
  cbn [List.length seq map nth]. f_equal.
  rewrite <- seq_shift, map_map. exact IH.
Qed.

Lemma nth_rev_seq n i : i < n -> nth i (rev (seq 0 n)) 0 = n - 1 - i.
Proof.
  intros H. rewrite rev_nth by (rewrite length_seq; exact H).
  rewrite length_seq. rewrite seq_nth by lia. lia.
Qed.

Lemma sorted_of_nth (R : A -> A -> Prop) (l : list A) :
  (forall i j, i < j -> j < List.length l -> R (nth i l d) (nth j l d)) ->
  StronglySorted R l.
Proof.
  induction l as [|x l IH]; intros H; constructor.
  - apply IH. intros i j Hij Hj.
    apply (H (S i) (S j)); cbn [List.length]; lia.
  - apply Forall_forall. intros y Hy.
    destruct (In_nth l y d Hy) as [k [Hk <-]].
    apply (H 0 (S k)); cbn [List.length]; lia.
Qed.

(** What [argsort] returns: the positions of the column, each once,
    pointing at ascending values. *)
Lemma argsort_spec (v : list Q) :
  Permutation (argsort v) (seq 0 (List.length v))
  /\ List.length (argsort v) = List.length v
  /\ (forall i, In i (argsort v) -> i < List.length v)
  /\ forall i j, i < j -> j < List.length v ->
       (val v (argsort v) i <= val v (argsort v) j)%Q.
Proof.
  unfold argsort.
  pose proof (@aquicksort_spec v (seq 0 (List.length v))) as H.
  rewrite length_seq in H. cbv zeta in H. destruct H as [P S].
  split; [exact P|]. split; [|split].
  - rewrite (Permutation_length P). apply length_seq.
  - intros i Hi. apply (Permutation_in i P) in Hi. apply in_seq in Hi. lia.
  - exact S.
Qed.

(** The sorted frame is the frame read backwards at the positions that
    [argsort] returns for the column read backwards, read backwards. *)
Lemma take_nargsort (l : list A) :
  take l (nargsort (map key l))
  = rev (map (fun i => nth i (rev l) d) (argsort (rev (map key l)))).
Proof.
  unfold nargsort. rewrite length_map.
  set (n := List.length l). set (P := argsort (rev (map key l))).
  destruct (argsort_spec (rev (map key l))) as [_ [_ [Hin _]]].
  rewrite length_rev, length_map in Hin. fold P n in Hin.
  rewrite (@take_map l).
  - rewrite map_rev, map_map. f_equal. apply map_ext_in. intros i Hi.
    specialize (Hin i Hi). rewrite nth_rev_seq by exact Hin.
    rewrite (rev_nth l d) by exact Hin. fold n. f_equal. lia.
  - intros i Hi. apply in_rev in Hi. apply in_map_iff in Hi.
    destruct Hi as [k [<- Hk]]. specialize (Hin k Hk).
    rewrite nth_rev_seq by exact Hin. fold n. lia.
Qed.

Lemma sort_perm (l : list A) : Permutation (take l (nargsort (map key l))) l.
Proof.
  rewrite take_nargsort.
  destruct (argsort_spec (rev (map key l))) as [P _].
  rewrite length_rev, length_map in P.
  eapply Permutation_trans; [apply Permutation_sym, Permutation_rev|].
  eapply Permutation_trans; [apply Permutation_map; exact P|].
  rewrite <- (length_rev l), map_nth_seq.
  apply Permutation_sym, Permutation_rev.
Qed.

Lemma sort_desc (l : list A) :
  StronglySorted (fun x y => (key y <= key x)%Q)
    (take l (nargsort (map key l))).
Proof.
  rewrite take_nargsort.
  set (v := rev (map key l)). set (P := argsort v).
  destruct (argsort_spec v) as [_ [Hlen [Hin Hs]]]. fold P in Hlen, Hin, Hs.
  assert (Hn : List.length v = List.length l)
    by (unfold v; rewrite length_rev, length_map; reflexivity).
  rewrite Hn in *.
  set (h := fun i => nth i (rev l) d).
  assert (Hkey : forall k, k < List.length l ->
            key (nth k (rev (map h P)) d)
            = val v P (List.length l - S k)).
  { intros k Hk. rewrite rev_nth by (rewrite length_map, Hlen; exact Hk).
    rewrite length_map, Hlen.
    rewrite (nth_indep (map h P) d (h 0))
      by (rewrite length_map, Hlen; lia).
    rewrite map_nth. unfold h, val, get.
    set (p := nth (List.length l - S k) P 0).
    assert (Hp : p < List.length l).
    { apply Hin. apply nth_In. rewrite Hlen. lia. }
    rewrite <- (map_nth key). rewrite map_rev. fold v.
    apply nth_indep. rewrite Hn. exact Hp. }
  apply sorted_of_nth. intros i j Hij Hj.
  rewrite length_rev, length_map, Hlen in Hj.
  rewrite !Hkey by lia. apply Hs; lia.
Qed.

(** A frame of at most 17 rows is sorted by insertion alone, which keeps
    rows of equal value in their order. *)
Lemma sort_stable (l : list A) q :
  List.length l <= 17 ->
  filter (fun x => Qeq_bool (key x) q) (take l (nargsort (map key l)))
  = filter (fun x => Qeq_bool (key x) q) l.
Proof.
  intros Hsmall. rewrite take_nargsort.
  set (v := rev (map key l)).
  assert (Hn : List.length v = List.length l)
    by (unfold v; rewrite length_rev, length_map; reflexivity).
  set (h := fun i => nth i (rev l) d).
  assert (Hh : forall i, i < List.length l ->
            Qeq_bool (key (h i)) q = Qeq_bool (nth i v 0%Q) q).
  { intros i Hi. f_equal. unfold h. rewrite <- (map_nth key), map_rev.
    fold v. apply nth_indep. rewrite Hn. exact Hi. }
  destruct (argsort_spec v) as [_ [_ [Hin _]]]. rewrite Hn in Hin.
  assert (Hpt : pointing v q (argsort v)
                = pointing v q (seq 0 (List.length l))).
  { unfold argsort. rewrite Hn.
    destruct (List.length l) as [|n] eqn:En; [reflexivity|].
    rewrite aquicksort_small by lia.
    apply insertion_spec; [lia|]. rewrite length_seq. lia. }
  rewrite filter_rev. rewrite filter_map_swap.
  rewrite (filter_ext_in _ (fun i => Qeq_bool (nth i v 0%Q) q))
    by (intros i Hi; apply Hh, Hin, Hi).
  fold (pointing v q (argsort v)). rewrite Hpt. unfold pointing.
  rewrite <- (filter_ext_in (fun i => Qeq_bool (key (h i)) q))
    by (intros i Hi; apply Hh; apply in_seq in Hi; lia).
  rewrite <- (filter_map_swap (fun x => Qeq_bool (key x) q) h).
  unfold h. rewrite <- (length_rev l), map_nth_seq.
  rewrite <- filter_rev, rev_involutive. reflexivity.
Qed.

End NargsortFacts.

(** * Claims on the completeness ranker *)

Section RankerClaims.

Import Completeness_Ranker.
Local Open Scope string_scope.
Local Open Scope list_scope.

Lemma datetime_jan1_ok y d : datetime_jan1 y = inr d -> d = jan1 y.
Proof.
  unfold datetime_jan1.
  destruct ((y <? - 2 ^ 31) || (2 ^ 31 - 1 <? y))%Z; [discriminate|].
  destruct ((y <? MINYEAR) || (MAXYEAR <? y))%Z; [discriminate|].
  intros H. inversion H. reflexivity.
Qed.

(** A call that returns two tables got the catalog, and the tables are the
    accumulated observations and the sorted summary. *)
Lemma rank_returned sort w source sy ey top_n out top df :
  rank_indicators_by_completeness sort w source sy ey top_n
  = (out, Returned (Some top) (Some df)) ->
  exists inds,
    get_indicators w source = inr inds
    /\ df = all_data w (jan1 sy, jan1 ey) (indicator_dict inds)
    /\ top = sort (results df sy ey (indicator_dict inds)).
Proof.
  unfold rank_indicators_by_completeness.
  destruct (get_indicators w source) as [e|inds]; [discriminate|].
  destruct (datetime_jan1 sy) as [e|s] eqn:Es; simpl; [discriminate|].
  destruct (datetime_jan1 ey) as [e'|e'] eqn:Ee; simpl; [discriminate|].
  apply datetime_jan1_ok in Es, Ee. subst.
  intros H. inversion H; subst. exists inds. auto.
Qed.

Lemma in_results df sy ey d r :
  In r (results df sy ey d) ->
  exists kv, In kv d
    /\ s_code r = fst kv /\ s_name r = snd kv
    /\ s_count r = count_rows df (fst kv)
    /\ s_completeness r
       = completeness (count_rows df (fst kv)) (total_possible df sy ey).
Proof.
  unfold results. rewrite in_map_iff. intros [kv [<- Hkv]].
  exists kv. simpl. auto.
Qed.

Lemma codes_results df sy ey d : map s_code (results df sy ey d) = keys d.
Proof. unfold results, keys. rewrite map_map. reflexivity. Qed.

(** C1, as amended: the catalog is requested before the [try] block, so a
    failure of that request reaches the caller and nothing is printed.
    Once the catalog is there no exception leaves the function: when a
    year is rejected by [datetime] the failure is printed and the pair
    (None, None) is returned, otherwise both tables are returned. *)
Theorem rank_catches_inside_try sort w source sy ey top_n :
  match get_indicators w source with
  | inl e =>
      rank_indicators_by_completeness sort w source sy ey top_n
      = ([], Raised e)
  | inr inds =>
      let head := [Found (List.length (indicator_dict inds)) source; Fetching] in
      match datetime_jan1 sy, datetime_jan1 ey with
      | inr _, inr _ =>
          exists top df,
            rank_indicators_by_completeness sort w source sy ey top_n
            = (head ++ [Retrieved (List.length df)],
               Returned (Some top) (Some df))
      | inl e, _ | inr _, inl e =>
          rank_indicators_by_completeness sort w source sy ey top_n
          = (head ++ [ErrorFetching e; Traceback e], Returned None None)
      end
  end.
Proof.
  unfold rank_indicators_by_completeness.
  destruct (get_indicators w source) as [e|inds]; [reflexivity|].
  destruct (datetime_jan1 sy) as [e|s]; simpl; [reflexivity|].
  destruct (datetime_jan1 ey) as [e|e']; simpl; [reflexivity|].
  eexists. eexists. reflexivity.
Qed.

(** C1, as stated, fails: when the catalog request fails the exception
    reaches the caller; no diagnostic is printed and no pair returned. *)
Lemma catalog_failure_propagates :
  rank_indicators_by_completeness sort_from_back offline 80 2000 2020 10
  = ([], Raised (ProviderError "connection refused")).
Proof. reflexivity. Qed.

(** C2, as amended: each row of the summary carries the number of
    observations of its code and that number divided by [total_possible],
    or 0 when [total_possible] is not positive; the ratio is never
    negative, and it is at most 1 when the provider serves at most one
    observation per country and date over at most as many dates as the
    range has years. *)
Theorem completeness_is_count_over_total sort w source sy ey top_n out top df :
  sort_values_contract sort ->
  rank_indicators_by_completeness sort w source sy ey top_n
  = (out, Returned (Some top) (Some df)) ->
  forall r, In r top ->
    let total := total_possible df sy ey in
    s_count r = count_rows df (s_code r)
    /\ ((0 < total)%Z ->
        s_completeness r
        = (inject_Z (Z.of_nat (s_count r)) / inject_Z total)%Q)
    /\ ((total <= 0)%Z -> s_completeness r = 0%Q)
    /\ (0 <= s_completeness r)%Q
    /\ (one_per_cell w (jan1 sy, jan1 ey) (ey - sy + 1) ->
        (s_completeness r <= 1)%Q).
Proof.
  intros Hsort Hrank r Hr total.
  destruct (rank_returned _ _ _ _ _ _ Hrank) as [inds [_ [Hdf Htop]]].
  assert (Hin : In r (results df sy ey (indicator_dict inds))).
  { apply (Permutation_in r (proj1 (Hsort _))). rewrite <- Htop. exact Hr. }
  destruct (in_results _ _ _ _ _ Hin) as [kv [Hkv [Hc [_ [Hn Hq]]]]].
  rewrite Hc, Hn, Hq. fold total.
  split; [reflexivity|]. split; [|split; [|split]].
  - intros Hpos. unfold completeness.
    apply Z.ltb_lt in Hpos. rewrite Hpos. reflexivity.
  - intros Hle. unfold completeness.
    destruct (Z.ltb_spec 0 total); [lia | reflexivity].
  - apply completeness_nonneg.
  - intros Hcell. apply completeness_le_1.
    assert (Hk : In (fst kv) (keys (indicator_dict inds))).
    { unfold keys. apply in_map. exact Hkv. }
    destruct (Hcell (fst kv)) as [Hnd Hdates].
    rewrite Hdf at 1. unfold all_data.
    rewrite count_rows_fetched
      by (auto using nodup_keys_indicator_dict).
    pose proof (@grid_bound (fetch_rows w (jan1 sy, jan1 ey) (fst kv))
                  (map o_country df) Hnd) as Hgrid.
    assert (Hsub : forall x,
               In x (fetch_rows w (jan1 sy, jan1 ey) (fst kv)) ->
               In (o_country x) (map o_country df)).
    { intros x Hx. apply in_map. rewrite Hdf. unfold all_data.
      apply in_flat_map. exists (fst kv). split; assumption. }
    specialize (Hgrid Hsub).
    unfold total, total_possible. nia.
Qed.

(** C2, as stated, fails: a provider that serves the same observation
    twice gives one country, one year and two rows, a ratio of 2. *)
Lemma completeness_can_exceed_1 :
  exists out top df r,
    rank_indicators_by_completeness sort_from_back doubled 80 2000 2000 10
    = (out, Returned (Some top) (Some df))
    /\ total_possible df 2000 2000 = 1%Z
    /\ In r top /\ s_code r = "SG.A" /\ s_count r = 2
    /\ (1 < s_completeness r)%Q.
Proof.
  do 3 eexists.
  exists {| s_code := "SG.A"; s_name := "first";
            s_completeness := completeness 2 1; s_count := 2 |}.
  split; [reflexivity|].
  split; [reflexivity|].
  split; [left; reflexivity|].
  split; [reflexivity|]. split; [reflexivity|]. reflexivity.
Qed.

(** C3: a call that returns the tables returns one summary row for each
    indicator of the catalog, whether or not observations were retrieved
    for it, and the result does not depend on [top_n]. *)
Theorem one_row_per_catalog_indicator sort w source sy ey top_n out top df :
  sort_values_contract sort ->
  rank_indicators_by_completeness sort w source sy ey top_n
  = (out, Returned (Some top) (Some df)) ->
  exists inds,
    get_indicators w source = inr inds
    /\ Permutation (map s_code top) (keys (indicator_dict inds))
    /\ NoDup (map s_code top)
    /\ (forall c, In c (map ind_id inds) <-> In c (map s_code top))
    /\ List.length top = List.length (indicator_dict inds)
    /\ forall top_n',
         rank_indicators_by_completeness sort w source sy ey top_n'
         = rank_indicators_by_completeness sort w source sy ey top_n.
Proof.
  intros Hsort Hrank.
  destruct (rank_returned _ _ _ _ _ _ Hrank) as [inds [Hcat [Hdf Htop]]].
  exists inds. split; [exact Hcat|].
  assert (Hperm : Permutation (map s_code top) (keys (indicator_dict inds))).
  { rewrite <- (codes_results df sy ey). apply Permutation_map.
    rewrite Htop. apply Hsort. }
  split; [exact Hperm|]. split; [|split; [|split]].
  - apply (Permutation_NoDup (Permutation_sym Hperm)).
    apply nodup_keys_indicator_dict.
  - intros c. rewrite <- in_keys_indicator_dict. split; intros H.
    + apply (Permutation_in c (Permutation_sym Hperm) H).
    + apply (Permutation_in c Hperm H).
  - rewrite <- (length_map s_code top), (Permutation_length Hperm).
    unfold keys. apply length_map.
  - intros top_n'. reflexivity.
Qed.

(** The library sort rearranges the summary and leaves it in descending
    order of completeness, whatever the rows are. *)
Lemma library_sort_contract : sort_values_contract Ranker_Sort.sort_values.
Proof.
  intros l. unfold Ranker_Sort.sort_values. split.
  - apply (sort_perm s_completeness Ranker_Sort.no_row).
  - apply (sort_desc s_completeness Ranker_Sort.no_row).
Qed.

(** C4, as amended: with the sort that pandas runs by default, the
    summary returned is in descending order of completeness and holds
    exactly the rows computed in catalog order; in a summary of at most 17
    rows, rows of equal completeness keep their catalog order.  Nothing
    is promised on the order of ties in a longer summary. *)
Theorem summary_sorted_descending w source sy ey top_n out top df :
  rank_indicators_by_completeness Ranker_Sort.sort_values w source sy ey top_n
  = (out, Returned (Some top) (Some df)) ->
  exists inds,
    get_indicators w source = inr inds
    /\ desc_sorted top
    /\ Permutation top (results df sy ey (indicator_dict inds))
    /\ (List.length top <= 17 ->
        ties_in_order top (results df sy ey (indicator_dict inds))).
Proof.
  intros Hrank.
  destruct (rank_returned _ _ _ _ _ _ Hrank) as [inds [Hcat [Hdf Htop]]].
  exists inds. split; [exact Hcat|].
  destruct (library_sort_contract (results df sy ey (indicator_dict inds)))
    as [Hperm Hsorted].
  rewrite Htop. split; [exact Hsorted|]. split; [exact Hperm|].
  intros Hsmall q. unfold Ranker_Sort.sort_values.
  apply (sort_stable s_completeness Ranker_Sort.no_row).
  rewrite <- (Permutation_length Hperm). exact Hsmall.
Qed.

(** C4, as stated, fails: on a catalog of 18 indicators without any
    observation every row has completeness 0, the library sort takes its
    partition step, and the summary comes back in the order A, B, Q, P,
    ..., D, C, R. *)
Lemma ties_need_not_keep_catalog_order :
  let summary :=
    results [] 2000 2020 (indicator_dict Ranker_Sort.eighteen) in
  rank_indicators_by_completeness Ranker_Sort.sort_values
    Ranker_Sort.unanswered 80 2000 2020 10
  = ([Found 18 80; Fetching; Retrieved 0],
     Returned (Some (Ranker_Sort.sort_values summary)) (Some []))
  /\ map s_code summary
     = ["SG.A"; "SG.B"; "SG.C"; "SG.D"; "SG.E"; "SG.F"; "SG.G"; "SG.H";
        "SG.I"; "SG.J"; "SG.K"; "SG.L"; "SG.M"; "SG.N"; "SG.O"; "SG.P";
        "SG.Q"; "SG.R"]
  /\ map s_completeness summary = repeat 0%Q 18
  /\ map s_code (Ranker_Sort.sort_values summary)
     = ["SG.A"; "SG.B"; "SG.Q"; "SG.P"; "SG.O"; "SG.N"; "SG.M"; "SG.L";
        "SG.K"; "SG.J"; "SG.I"; "SG.H"; "SG.G"; "SG.F"; "SG.E"; "SG.D";
        "SG.C"; "SG.R"]
  /\ ~ ties_in_order (Ranker_Sort.sort_values summary) summary.
Proof.
  split; [reflexivity|]. split; [reflexivity|]. split; [reflexivity|].
  split; [reflexivity|].
  intros H. specialize (H 0%Q).
  apply (f_equal (map s_code)) in H. vm_compute in H. discriminate H.
Qed.

End RankerClaims.

Section RankerWitnesses.

Import Completeness_Ranker.
Local Open Scope string_scope.
Local Open Scope list_scope.

(** ** Worked examples *)

Lemma well_behaved_one_per_cell :
  one_per_cell well_behaved (jan1 2000, jan1 2001) (2001 - 2000 + 1).
Proof.
  intros code. unfold fetch_rows, well_behaved; simpl.
  destruct (String.eqb code "SG.A"); simpl; split; try lia;
    repeat constructor; simpl; intuition discriminate.
Qed.

Lemma well_behaved_returns :
  rank_indicators_by_completeness sort_from_back well_behaved 80 2000 2001 10
  = ([Found 2 80; Fetching; Retrieved 6],
     Returned (Some example_top) (Some example_df)).
Proof. reflexivity. Qed.

Lemma example_row_in_top : In example_row example_top.
Proof. right. left. reflexivity. Qed.

(** The second indicator of [well_behaved] has 2 of 4 possible
    observations. *)
Lemma completeness_is_count_over_total_witness :
  s_count example_row = count_rows example_df (s_code example_row)
  /\ s_completeness example_row = (inject_Z 2 / inject_Z 4)%Q
  /\ (0 <= s_completeness example_row)%Q
  /\ (s_completeness example_row <= 1)%Q.
Proof.
  destruct (@completeness_is_count_over_total sort_from_back well_behaved
              80 2000 2001 10 _ _ _
              sort_from_back_contract well_behaved_returns
              example_row example_row_in_top)
    as [Hcount [Hratio [_ [Hlow Hhigh]]]].
  split; [exact Hcount|].
  split; [apply Hratio; reflexivity|].
  split; [exact Hlow|].
  apply Hhigh. exact well_behaved_one_per_cell.
Defined.

(** The two indicators of [well_behaved] get one row each, whatever
    [top_n] is. *)
Lemma one_row_per_catalog_indicator_witness :
  Permutation (map s_code example_top) ["SG.A"; "SG.B"]
  /\ NoDup (map s_code example_top)
  /\ List.length example_top = 2
  /\ rank_indicators_by_completeness sort_from_back well_behaved
       80 2000 2001 1
     = rank_indicators_by_completeness sort_from_back well_behaved
         80 2000 2001 10.
Proof.
  destruct (@one_row_per_catalog_indicator sort_from_back well_behaved
              80 2000 2001 10 _ _ _
              sort_from_back_contract well_behaved_returns)
    as [inds [Hcat [Hperm [Hnd [_ [Hlen Htop]]]]]].
  inversion Hcat; subst inds.
  split; [exact Hperm|]. split; [exact Hnd|].
  split; [exact Hlen|]. apply Htop.
Defined.

Lemma catalog_only_returns :
  rank_indicators_by_completeness Ranker_Sort.sort_values catalog_only
    80 2000 2020 10
  = ([Found 2 80; Fetching; Retrieved 0],
     Returned (Some (Ranker_Sort.sort_values Ranker_Sort.two_ties)) (Some [])).
Proof. reflexivity. Qed.

(** The two indicators of [catalog_only] both have completeness 0 and
    come back in catalog order. *)
Lemma summary_sorted_descending_witness :
  desc_sorted (Ranker_Sort.sort_values Ranker_Sort.two_ties)
  /\ Permutation (Ranker_Sort.sort_values Ranker_Sort.two_ties)
       Ranker_Sort.two_ties
  /\ ties_in_order (Ranker_Sort.sort_values Ranker_Sort.two_ties)
       Ranker_Sort.two_ties.
Proof.
  destruct (@summary_sorted_descending catalog_only 80 2000 2020 10 _ _ _
              catalog_only_returns)
    as [inds [Hcat [Hsorted [Hperm Hties]]]].
  inversion Hcat; subst inds.
  split; [exact Hsorted|]. split; [exact Hperm|].
  apply Hties. vm_compute. lia.
Defined.

End RankerWitnesses.

(** * Properties of the data handler *)

Import Frame Data_Handler.
Local Open Scope string_scope.
Local Open Scope list_scope.

Section StringFacts.





Lemma rsplit1_shape sep s :
  Py.rsplit1 sep s = [s] \/ exists a b, Py.rsplit1 sep s = [a; b].
Proof.
  induction s as [|c s IH]; simpl.
  - left. reflexivity.
  - destruct IH as [H | [a [b H]]]; rewrite H.
    + destruct (Ascii.eqb c sep); [right; eauto | left; reflexivity].
    + right. eauto.
Qed.

Lemma rsplit1_sep sep s :
  In sep (list_ascii_of_string s) -> exists a b, Py.rsplit1 sep s = [a; b].
Proof.
  induction s as [|c s IH]; simpl; [intros []|].
  intros [Hc | Hin].
  - destruct (rsplit1_shape sep s) as [H | [a [b H]]]; rewrite H.
    + subst c. rewrite Ascii.eqb_refl. eauto.
    + eauto.
  - destruct (IH Hin) as [a [b H]]. rewrite H. eauto.
Qed.

Lemma prefix_cons a b s t :
  String.prefix (String a s) (String b t)
  = if ascii_dec a b then String.prefix s t else false.
Proof. reflexivity. Qed.

Lemma prefix_sep k : forall c,
  String.prefix (k ++ "_") c = true ->
  In "_"%char (list_ascii_of_string c).
Proof.
  induction k as [|a k IH]; intros [|b c];
    cbn [append list_ascii_of_string]; try discriminate;
    rewrite prefix_cons.
  - destruct (ascii_dec "_"%char b) as [E|E]; [left; symmetry; exact E | discriminate].
  - destruct (ascii_dec a b); [|discriminate].
    intros H. right. apply IH. exact H.
Qed.

Lemma value_var_splits indicators c :
  is_value_var indicators c = true ->
  exists a b, Py.rsplit1 "_" c = [a; b] /\ Py.split_last "_" c = b.
Proof.
  unfold is_value_var. rewrite existsb_exists. intros [kv [_ Hp]].
  destruct (rsplit1_sep _ _ (prefix_sep _ _ Hp)) as [a [b H]].
  exists a, b. split; [exact H|].
  unfold Py.split_last. rewrite H. reflexivity.
Qed.

End StringFacts.

Section FrameFacts.

Lemma mem_In x l : mem x l = true <-> In x l.
Proof.
  unfold mem. rewrite existsb_exists. split.
  - intros [y [Hy Heq]]. apply String.eqb_eq in Heq. subst. exact Hy.
  - intros H. exists x. split; [exact H | apply String.eqb_refl].
Qed.

Lemma mapM_ok {A B} (f : A -> result B) l :
  (forall a, In a l -> exists b, f a = inr b) ->
  exists bs, mapM f l = inr bs /\ Forall2 (fun a b => f a = inr b) l bs.
Proof.
  induction l as [|a l IH]; simpl; intros H.
  - exists []. split; [reflexivity | constructor].
  - destruct (H a (or_introl eq_refl)) as [b Hb].
    destruct IH as [bs [Hbs HF]]; [auto|].
    exists (b :: bs). rewrite Hb, Hbs. split; [reflexivity|].
    constructor; assumption.
Qed.

Lemma mapM_inv {A B} (f : A -> result B) l : forall bs,
  mapM f l = inr bs -> Forall2 (fun a b => f a = inr b) l bs.
Proof.
  induction l as [|a l IH]; simpl; intros bs H.
  - inversion H. constructor.
  - destruct (f a) as [e|b] eqn:Ea; simpl in H; [discriminate|].
    destruct (mapM f l) as [e|bs'] eqn:El; simpl in H; [discriminate|].
    inversion H; subst. constructor; [exact Ea | apply IH; reflexivity].
Qed.

(** A failing element makes the whole traversal fail, with its own
    exception when everything before it went through. *)
Lemma mapM_fails {A B} (f : A -> result B) l1 x l2 e :
  f x = inl e ->
  (exists e', mapM f (l1 ++ x :: l2) = inl e')
  /\ ((forall a, In a l1 -> exists b, f a = inr b) ->
      mapM f (l1 ++ x :: l2) = inl e).
Proof.
  intros Hx. induction l1 as [|a l1 [[e' IH1] IH2]]; simpl.
  - rewrite Hx. simpl. split; [eauto | reflexivity].
  - split.
    + destruct (f a) as [ea|b]; simpl; [eauto|].
      rewrite IH1. simpl. eauto.
    + intros H. destruct (H a (or_introl eq_refl)) as [b Hb].
      rewrite Hb. simpl. rewrite IH2; [reflexivity | auto].
Qed.

Lemma map_flat_map' {A B C} (f : B -> C) (g : A -> list B) l :
  map f (flat_map g l) = flat_map (fun x => map f (g x)) l.
Proof.
  induction l as [|a l IH]; simpl; [reflexivity|].
  rewrite map_app, IH. reflexivity.
Qed.

Lemma length_unpivot df id_pos value_pos :
  List.length (unpivot df id_pos value_pos)
  = List.length (rows df) * List.length value_pos.
Proof.
  unfold unpivot. induction value_pos as [|p ps IH]; simpl; [lia|].
  rewrite length_app, length_map, IH. lia.
Qed.

Lemma in_positions_from l cols : forall i p,
  In p (positions_from i l cols)
  <-> i <= p /\ nth_error cols (p - i) = Some l.
Proof.
  induction cols as [|c cols IH]; simpl; intros i p.
  - split; [intros [] | intros [_ H]]. destruct (p - i); discriminate.
  - assert (Hrec : In p (positions_from (S i) l cols)
                   <-> i <= p /\ p <> i
                       /\ nth_error (c :: cols) (p - i) = Some l).
    { rewrite IH. split.
      - intros [Hle Hn]. replace (p - i) with (S (p - S i)) by lia.
        simpl. repeat split; [lia | lia | exact Hn].
      - intros [Hle [Hne Hn]]. replace (p - i) with (S (p - S i)) in Hn by lia.
        simpl in Hn. split; [lia | exact Hn]. }
    destruct (String.eqb_spec c l) as [->|Hcl]; simpl; rewrite Hrec.
    + split.
      * intros [<- | [Hle [_ Hn]]]; [|auto].
        rewrite Nat.sub_diag. simpl. auto.
      * intros [Hle Hn]. destruct (Nat.eq_dec i p) as [->|Hne]; [auto|].
        right. repeat split; [exact Hle | congruence | exact Hn].
    + split.
      * intros [Hle [_ Hn]]. auto.
      * intros [Hle Hn]. repeat split; [exact Hle | | exact Hn].
        intros ->. rewrite Nat.sub_diag in Hn. simpl in Hn. congruence.
Qed.

Lemma in_positions_where f cols : forall i p,
  In p (positions_where f i cols)
  <-> i <= p /\ exists c, nth_error cols (p - i) = Some c /\ f c = true.
Proof.
  induction cols as [|c cols IH]; simpl; intros i p.
  - split; [intros [] | intros [_ [c [H _]]]]. destruct (p - i); discriminate.
  - assert (Hrec : In p (positions_where f (S i) cols)
                   <-> i <= p /\ p <> i
                       /\ exists c', nth_error (c :: cols) (p - i) = Some c'
                                     /\ f c' = true).
    { rewrite IH. split.
      - intros [Hle Hn]. replace (p - i) with (S (p - S i)) by lia.
        simpl. repeat split; [lia | lia | exact Hn].
      - intros [Hle [Hne Hn]]. replace (p - i) with (S (p - S i)) in Hn by lia.
        simpl in Hn. split; [lia | exact Hn]. }
    destruct (f c) eqn:Efc; simpl; rewrite Hrec.
    + split.
      * intros [<- | [Hle [_ Hn]]]; [|auto].
        rewrite Nat.sub_diag. simpl. eauto.
      * intros [Hle Hn]. destruct (Nat.eq_dec i p) as [->|Hne]; [auto|].
        right. repeat split; [exact Hle | congruence | exact Hn].
    + split.
      * intros [Hle [_ Hn]]. auto.
      * intros [Hle Hn]. repeat split; [exact Hle | | exact Hn].
        intros ->. rewrite Nat.sub_diag in Hn. simpl in Hn.
        destruct Hn as [c' [Hc' Hf]]. congruence.
Qed.

Lemma nodup_positions_where f cols : forall i,
  NoDup (positions_where f i cols).
Proof.
  induction cols as [|c cols IH]; simpl; intros i; [constructor|].
  destruct (f c); [|apply IH].
  constructor; [|apply IH].
  rewrite in_positions_where. intros [Hle _]. lia.
Qed.

Lemma length_positions_where f cols : forall i,
  List.length (positions_where f i cols) = List.length (filter f cols).
Proof.
  induction cols as [|c cols IH]; simpl; intros i; [reflexivity|].
  destruct (f c); simpl; rewrite IH; reflexivity.
Qed.

Lemma in_unique_pos l x : In x (unique_pos l) <-> In x l.
Proof.
  induction l as [|a l IH]; simpl; [tauto|].
  rewrite filter_In, IH, negb_true_iff, Nat.eqb_neq.
  destruct (Nat.eq_dec a x); intuition congruence.
Qed.

Lemma nodup_unique_pos l : NoDup (unique_pos l).
Proof.
  induction l as [|a l IH]; simpl; constructor.
  - rewrite filter_In, negb_true_iff, Nat.eqb_neq. intuition.
  - apply NoDup_filter. assumption.
Qed.

(** The positions [melt] visits are those of the columns that pass the
    test which selected the value labels. *)
Lemma in_indexer_filter f cols p :
  In p (unique_pos (get_indexer_for cols (filter f cols)))
  <-> In p (positions_where f 0 cols).
Proof.
  rewrite in_unique_pos, in_positions_where.
  unfold get_indexer_for. rewrite in_flat_map. split.
  - intros [l [Hl Hp]]. apply filter_In in Hl.
    apply in_positions_from in Hp. destruct Hp as [Hle Hn].
    split; [exact Hle|]. exists l. tauto.
  - intros [Hle [c [Hn Hf]]]. exists c. split.
    + apply filter_In. split; [|exact Hf].
      apply nth_error_In in Hn. exact Hn.
    + apply in_positions_from. auto.
Qed.

Lemma length_indexer_filter f cols :
  List.length (unique_pos (get_indexer_for cols (filter f cols)))
  = List.length (filter f cols).
Proof.
  rewrite <- (length_positions_where f cols 0).
  apply Permutation_length. apply NoDup_Permutation.
  - apply nodup_unique_pos.
  - apply nodup_positions_where.
  - intros p. apply in_indexer_filter.
Qed.

Lemma expand_width_two parts :
  parts <> [] ->
  (forall x, In x parts -> List.length x = 2) ->
  expand_width parts = 2.
Proof.
  unfold expand_width. induction parts as [|x parts IH]; [congruence|].
  intros _ H. simpl. rewrite (H x (or_introl eq_refl)).
  destruct parts as [|y parts]; [reflexivity|].
  rewrite IH; [reflexivity | discriminate | ].
  intros z Hz. apply H. right. exact Hz.
Qed.

End FrameFacts.

Section ReshapeFacts.

Lemma wide_ok_melt df indicators :
  wide_ok df indicators = true ->
  melt df id_vars (value_vars df indicators)
  = inr (unpivot df (get_indexer_for (columns df) id_vars)
           (value_positions df indicators)).
Proof.
  unfold wide_ok. rewrite !andb_true_iff, negb_true_iff.
  intros [[Hvalue Hid] _]. unfold melt. rewrite Hvalue.
  assert (Hmem : forallb (fun v => mem v (columns df)) id_vars = true).
  { rewrite forallb_forall in *. intros v Hv. specialize (Hid v Hv).
    apply Nat.eqb_eq in Hid. apply mem_In.
    destruct (positions_from 0 v (columns df)) as [|p l] eqn:E;
      [discriminate|].
    assert (Hp : In p (positions_from 0 v (columns df)))
      by (rewrite E; left; reflexivity).
    apply in_positions_from in Hp. destruct Hp as [_ Hp].
    apply nth_error_In in Hp. exact Hp. }
  rewrite Hmem. cbn [negb].
  assert (Hvars : forallb (fun v => mem v (columns df))
                    (value_vars df indicators) = true).
  { rewrite forallb_forall. intros v Hv. apply mem_In.
    unfold value_vars in Hv. apply filter_In in Hv. tauto. }
  rewrite Hvars. cbn [negb]. rewrite Hid. reflexivity.
Qed.

Lemma in_unpivot df id_pos value_pos m :
  In m (unpivot df id_pos value_pos) ->
  exists p r,
    In p value_pos /\ In r (rows df)
    /\ m_var m = nth p (columns df) EmptyString
    /\ m_value m = cell_at r p.
Proof.
  unfold unpivot. rewrite in_flat_map. intros [p [Hp Hm]].
  apply in_map_iff in Hm. destruct Hm as [r [<- Hr]].
  exists p, r. simpl. auto.
Qed.

Lemma value_position_label df indicators p :
  In p (value_positions df indicators) <->
  exists c, nth_error (columns df) p = Some c
            /\ is_value_var indicators c = true.
Proof.
  unfold value_positions, value_vars.
  rewrite in_indexer_filter, in_positions_where, Nat.sub_0_r.
  split; [tauto|]. intros H. split; [lia | exact H].
Qed.

Lemma length_value_positions df indicators :
  List.length (value_positions df indicators)
  = List.length (value_vars df indicators).
Proof. apply length_indexer_filter. Qed.

Lemma hdi_of_melted_inv indicators m h :
  hdi_of_melted indicators m = inr h ->
  value h = m_value m
  /\ metric_name h = lookup indicators (metric h)
  /\ exists b, Py.rsplit1 "_" (m_var m) = [metric h; b]
               /\ astype_int b = inr (year h).
Proof.
  unfold hdi_of_melted.
  destruct (Py.rsplit1 "_" (m_var m)) as [|a [|b [|c l]]]; try discriminate.
  destruct (astype_int b) as [e|y] eqn:Ey; simpl; [discriminate|].
  intros H. inversion H; subst; simpl. eauto.
Qed.

Lemma hdi_of_melted_ok df indicators id_pos m :
  wide_ok df indicators = true ->
  In m (unpivot df id_pos (value_positions df indicators)) ->
  List.length (Py.rsplit1 "_" (m_var m)) = 2
  /\ exists h, hdi_of_melted indicators m = inr h.
Proof.
  unfold wide_ok. rewrite !andb_true_iff. intros [_ Hyears] Hm.
  destruct (in_unpivot _ _ _ _ Hm) as [p [r [Hp [_ [Hvar _]]]]].
  apply value_position_label in Hp. destruct Hp as [c [Hc Hf]].
  rewrite (nth_error_nth _ _ EmptyString Hc) in Hvar.
  destruct (value_var_splits _ _ Hf) as [a [b [Hsplit Hlast]]].
  rewrite forallb_forall in Hyears.
  assert (Hy : year_parses c = true).
  { apply Hyears. unfold value_vars. apply filter_In.
    split; [|exact Hf]. apply nth_error_In in Hc. exact Hc. }
  unfold year_parses in Hy. rewrite Hlast in Hy.
  unfold hdi_of_melted. rewrite Hvar, Hsplit.
  split; [reflexivity|].
  destruct (astype_int b) as [e|y]; [discriminate|].
  simpl. eauto.
Qed.

(** A well-formed wide table with a row and a value column is reshaped
    without an exception, one long row for each melted row. *)
Lemma reshape_returns df indicators :
  wide_ok df indicators = true ->
  rows df <> [] -> value_vars df indicators <> [] ->
  exists long,
    reshape_long_HDI df indicators = inr long
    /\ Forall2 (fun m h => hdi_of_melted indicators m = inr h)
         (unpivot df (get_indexer_for (columns df) id_vars)
            (value_positions df indicators))
         long.
Proof.
  intros Hok Hrows Hvars. unfold reshape_long_HDI.
  rewrite (wide_ok_melt _ _ Hok). simpl.
  set (ml := unpivot df (get_indexer_for (columns df) id_vars)
               (value_positions df indicators)).
  assert (Hne : ml <> []).
  { intros E. apply (f_equal (@List.length melted)) in E.
    unfold ml in E. rewrite length_unpivot, length_value_positions in E.
    simpl in E. destruct (rows df); [congruence|].
    destruct (value_vars df indicators); [congruence|]. simpl in E. lia. }
  rewrite expand_width_two.
  - simpl. apply mapM_ok. intros m Hm.
    destruct (hdi_of_melted_ok _ _ _ _ Hok Hm) as [_ H]. exact H.
  - intros E. apply map_eq_nil in E. exact (Hne E).
  - intros x Hx. apply in_map_iff in Hx. destruct Hx as [m [<- Hm]].
    destruct (hdi_of_melted_ok _ _ _ _ Hok Hm) as [H _]. exact H.
Qed.

Lemma reshaped_values indicators ml long :
  Forall2 (fun m h => hdi_of_melted indicators m = inr h) ml long ->
  map value long = map m_value ml.
Proof.
  induction 1 as [|m h ml hl Hmh _ IH]; simpl; [reflexivity|].
  destruct (hdi_of_melted_inv _ _ Hmh) as [Hv _].
  rewrite Hv, IH. reflexivity.
Qed.


Lemma melt_inv df ids vars ml :
  melt df ids vars = inr ml ->
  ml = unpivot df (get_indexer_for (columns df) ids)
         (unique_pos (get_indexer_for (columns df) vars)).
Proof.
  unfold melt.
  repeat case_if; intros H; try discriminate H.
  inversion H. reflexivity.
Qed.

(** A call that returns a table went through every melted row. *)
Lemma reshape_inv df indicators long :
  reshape_long_HDI df indicators = inr long ->
  Forall2 (fun m h => hdi_of_melted indicators m = inr h)
    (unpivot df (get_indexer_for (columns df) id_vars)
       (value_positions df indicators))
    long.
Proof.
  unfold reshape_long_HDI.
  destruct (melt df id_vars (value_vars df indicators)) as [e|ml] eqn:Em;
    cbn [bind]; [discriminate|].
  apply melt_inv in Em. subst ml.
  case_if; [discriminate|].
  apply mapM_inv.
Qed.


End ReshapeFacts.

Section HandlerClaims.

(** C5, as amended: whenever [reshape_long_HDI] returns a table it has
    exactly R times C rows, and the value of each long row is the cell of
    its row and value column, a missing cell staying missing; it does
    return one for a wide table with at least one row and at least one
    value column, whose id columns are each there once and whose value
    labels end in a year. *)
Theorem reshape_row_count df indicators :
  (forall long,
      reshape_long_HDI df indicators = inr long ->
      List.length long
      = List.length (rows df) * List.length (value_vars df indicators)
      /\ map value long
         = flat_map (fun p => map (fun r => cell_at r p) (rows df))
             (value_positions df indicators))
  /\ NoDup (value_positions df indicators)
  /\ (forall p,
         In p (value_positions df indicators) <->
         exists c, nth_error (columns df) p = Some c
                   /\ is_value_var indicators c = true)
  /\ (wide_ok df indicators = true ->
      rows df <> [] -> value_vars df indicators <> [] ->
      exists long, reshape_long_HDI df indicators = inr long).
Proof.
  split; [|split; [|split]].
  - intros long Hlong. pose proof (reshape_inv _ _ Hlong) as HF. split.
    + rewrite <- (Forall2_length HF), length_unpivot,
        length_value_positions. reflexivity.
    + rewrite (@reshaped_values _ _ _ HF). unfold unpivot.
      rewrite map_flat_map'.
      apply flat_map_ext. intros p. rewrite map_map. reflexivity.
  - apply nodup_unique_pos.
  - intros p. apply value_position_label.
  - intros Hok Hrows Hvars.
    destruct (reshape_returns _ _ Hok Hrows Hvars) as [long [Hlong _]].
    exists long. exact Hlong.
Qed.

(** C5, as stated, fails on a table without a value column and on a
    table without a row: the split of the empty label column has no
    column to assign, and the call raises instead of returning a table
    of no rows. *)
Lemma reshape_of_nothing_raises :
  List.length (rows hdi_no_value_column) = 1
  /\ value_vars hdi_no_value_column edu = []
  /\ reshape_long_HDI hdi_no_value_column edu
     = inl (ValueError "Columns must be same length as key")
  /\ rows hdi_no_row = []
  /\ value_vars hdi_no_row edu = ["edu_2010"]
  /\ reshape_long_HDI hdi_no_row edu
     = inl (ValueError "Columns must be same length as key").
Proof. repeat split; reflexivity. Qed.






Lemma load_EPI_missing fs folder_path var var_name :
  exists_ fs (epi_filename folder_path var) = false ->
  load_EPI fs folder_path (var, var_name)
  = inl (FileNotFoundError
           ("File " ++ epi_filename folder_path var ++ " not found.")).
Proof. intros H. unfold load_EPI. rewrite H. reflexivity. Qed.

(** C9, as amended: when the file of a requested variable is missing the
    EPI loader raises and returns nothing; the exception is the
    [FileNotFoundError] of that file when the variables before it in the
    mapping were loaded without error. *)
Theorem missing_file_is_fatal fs before var var_name after countries
  start_year end_year folder_path :
  exists_ fs (epi_filename folder_path var) = false ->
  (exists e,
      get_data_EPI fs (before ++ (var, var_name) :: after) countries
        start_year end_year folder_path = inl e)
  /\ ((forall item, In item before ->
         exists frame, load_EPI fs folder_path item = inr frame) ->
      get_data_EPI fs (before ++ (var, var_name) :: after) countries
        start_year end_year folder_path
      = inl (FileNotFoundError
               ("File " ++ epi_filename folder_path var ++ " not found."))).
Proof.
  intros Hmiss.
  pose proof (load_EPI_missing fs folder_path var var_name Hmiss) as Hload.
  destruct (@mapM_fails _ _ (load_EPI fs folder_path) before
              (var, var_name) after _ Hload)
    as [[e He] Hfirst].
  unfold get_data_EPI. split.
  - exists e. rewrite He. reflexivity.
  - intros Hbefore. rewrite (Hfirst Hbefore). reflexivity.
Qed.

(** C9, as stated, fails: the files are visited in the order of the
    mapping, and a file that is there but has no [iso] column stops the
    call with a [KeyError] before the missing file is looked for. *)
Lemma earlier_failure_comes_first :
  exists_ epi_files_bad (epi_filename "P5_Indicator" "BER") = false
  /\ get_data_EPI epi_files_bad two_variables None (Some 1990%Z)
       (Some 1995%Z) "P5_Indicator"
     = inl (KeyError "The following id_vars are not present in the DataFrame").
Proof. split; reflexivity. Qed.

(** C10: a table that lacks one of [iso3], [country] and [region] is not
    reshaped: [melt] raises, a [KeyError] unless a column is called
    [value], and so does the HDI loader on a file with such columns. *)
Theorem reshape_requires_id_columns df indicators v :
  In v id_vars -> ~ In v (columns df) ->
  exists e,
    reshape_long_HDI df indicators = inl e
    /\ (~ In "value" (columns df) -> exists msg, e = KeyError msg)
    /\ forall fs filepath raw countries start_year end_year,
         read_csv fs filepath = inr raw -> normalize_columns raw = df ->
         get_data_HDI fs filepath indicators countries start_year end_year
         = inl e.
Proof.
  intros Hv Hmissing.
  assert (Hmem : forallb (fun x => mem x (columns df)) id_vars = false).
  { apply not_true_is_false. intros H. rewrite forallb_forall in H.
    apply Hmissing. apply mem_In. apply H. exact Hv. }
  assert (Hfail : exists e,
             melt df id_vars (value_vars df indicators) = inl e
             /\ (~ In "value" (columns df) -> exists msg, e = KeyError msg)).
  { unfold melt. destruct (mem "value" (columns df)) eqn:Ev.
    - eexists. split; [reflexivity|]. intros Hn. exfalso. apply Hn.
      apply mem_In. exact Ev.
    - rewrite Hmem. cbn [negb]. eexists. split; [reflexivity|]. eauto. }
  destruct Hfail as [e [He Hkey]]. exists e.
  assert (Hre : reshape_long_HDI df indicators = inl e).
  { unfold reshape_long_HDI. rewrite He. reflexivity. }
  split; [exact Hre|]. split; [exact Hkey|].
  intros fs filepath raw countries start_year end_year Hread Hnorm.
  unfold get_data_HDI. rewrite Hread. simpl. rewrite Hnorm, Hre. reflexivity.
Qed.

End HandlerClaims.

Section HandlerWitnesses.

(** ** Worked examples *)

(** Two rows and three value columns give six long rows. *)
Lemma reshape_row_count_witness :
  exists long,
    reshape_long_HDI hdi_wide edu = inr long
    /\ List.length long = 2 * 3
    /\ map value long = [Num 1; Null; Null; Num 2; Num 3; Null].
Proof.
  assert (Hok : wide_ok hdi_wide edu = true) by reflexivity.
  assert (Hrows : rows hdi_wide <> []) by (simpl; discriminate).
  assert (Hvars : value_vars hdi_wide edu <> [])
    by (vm_compute; discriminate).
  destruct (@reshape_row_count hdi_wide edu) as [Hshape [_ [_ Hreturns]]].
  destruct (Hreturns Hok Hrows Hvars) as [long Hlong].
  destruct (Hshape long Hlong) as [Hlen Hvalues].
  exists long. split; [exact Hlong|]. split; [exact Hlen | exact Hvalues].
Defined.





(** The folder has the file of the first variable and not of the second. *)
Lemma missing_file_is_fatal_witness :
  exists_ epi_files (epi_filename "P5_Indicator" "BER") = false
  /\ get_data_EPI epi_files two_variables None (Some 1990%Z) (Some 1995%Z)
       "P5_Indicator"
     = inl (FileNotFoundError "File P5_Indicator/BER_ind_na.csv not found.").
Proof.
  assert (Hmiss : exists_ epi_files (epi_filename "P5_Indicator" "BER")
                  = false) by reflexivity.
  split; [exact Hmiss|].
  destruct (@missing_file_is_fatal epi_files
              [("BCA", "Biodiversity Conservation Area")]
              "BER" "Biodiversity Expenditure Ratio" []
              None (Some 1990%Z) (Some 1995%Z) "P5_Indicator" Hmiss)
    as [_ Hfirst].
  apply Hfirst. intros item [<-|[]]. eexists. reflexivity.
Defined.

(** A table without [region] is not reshaped. *)
Lemma reshape_requires_id_columns_witness :
  exists e,
    reshape_long_HDI hdi_no_region edu = inl e
    /\ exists msg, e = KeyError msg.
Proof.
  assert (Hid : In "region" id_vars) by (simpl; auto).
  assert (Hmissing : ~ In "region" (columns hdi_no_region))
    by (simpl; intuition discriminate).
  destruct (@reshape_requires_id_columns hdi_no_region edu "region"
              Hid Hmissing) as [e [He [Hkey _]]].
  exists e. split; [exact He|].
  apply Hkey. simpl. intuition discriminate.
Defined.

End HandlerWitnesses.

(** * Further properties of the completeness ranker *)

Section RankerMore.

Import Completeness_Ranker Ranker_Notions.

Lemma fetch_rows_answered w dr code :
  fetch_rows (answered w) dr code = fetch_rows w dr code.
Proof.
  unfold fetch_rows, answered. cbn [get_data].
  destruct (get_data w code dr) as [e|data]; [reflexivity|].
  unfold ret. induction data as [|d data IH]; [reflexivity|].
  cbn [filter]. unfold has_value at 1.
  destruct (d_value d) as [v|] eqn:Ev; cbn [flat_map]; rewrite IH, ?Ev;
    reflexivity.
Qed.

(** X1: a data request that fails counts as an empty answer and an
    observation without a value counts as absent: the ranker gives the
    same output and the same result on a provider and on the provider
    with both removed. *)
Theorem rank_ignores_failures_and_missing sort w source sy ey top_n :
  rank_indicators_by_completeness sort (answered w) source sy ey top_n
  = rank_indicators_by_completeness sort w source sy ey top_n.
Proof.
  unfold rank_indicators_by_completeness. cbn [get_indicators answered].
  destruct (get_indicators w source) as [e|inds]; [reflexivity|].
  destruct (datetime_jan1 sy) as [e|s]; cbn [bind]; [reflexivity|].
  destruct (datetime_jan1 ey) as [e|e']; cbn [bind ret]; [reflexivity|].
  assert (Hdata : all_data (answered w) (s, e') (indicator_dict inds)
                  = all_data w (s, e') (indicator_dict inds)).
  { unfold all_data. apply flat_map_ext. intros c.
    apply fetch_rows_answered. }
  rewrite Hdata. reflexivity.
Qed.

Lemma completeness_of_count sort w source sy ey top_n out top df r :
  sort_values_contract sort ->
  rank_indicators_by_completeness sort w source sy ey top_n
  = (out, Returned (Some top) (Some df)) ->
  In r top ->
  s_completeness r = completeness (s_count r) (total_possible df sy ey).
Proof.
  intros Hsort Hrank Hr.
  destruct (rank_returned _ _ _ _ _ _ Hrank) as [inds [_ [Hdf Htop]]].
  assert (Hin : In r (results df sy ey (indicator_dict inds))).
  { apply (Permutation_in r (proj1 (Hsort _))). rewrite <- Htop. exact Hr. }
  destruct (in_results _ _ _ _ _ Hin) as [kv [_ [_ [_ [Hn Hq]]]]].
  rewrite Hq, Hn. reflexivity.
Qed.

Lemma completeness_lt n m total :
  (0 < total)%Z -> n < m ->
  (completeness n total < completeness m total)%Q.
Proof.
  intros Hpos Hnm. unfold completeness.
  apply Z.ltb_lt in Hpos. rewrite Hpos. apply Z.ltb_lt in Hpos.
  unfold Qdiv. apply Qmult_lt_compat_r.
  - apply Qinv_lt_0_compat. rewrite (Zlt_Qlt 0 total) in Hpos. exact Hpos.
  - rewrite <- Zlt_Qlt. lia.
Qed.

(** In a descending table a row comes before every row of smaller key. *)
Lemma sorted_precedes l a b :
  desc_sorted l -> In a l -> In b l ->
  (s_completeness b < s_completeness a)%Q ->
  exists l1 l2 l3, l = l1 ++ a :: l2 ++ b :: l3.
Proof.
  intros Hs. induction Hs as [|x l Hs IH Hx]; intros Ha Hb Hlt;
    [contradiction|].
  destruct Ha as [<-|Ha].
  - destruct Hb as [<-|Hb].
    + exfalso. apply (Qlt_irrefl _ Hlt).
    + destruct (in_split _ _ Hb) as [l2 [l3 ->]].
      exists [], l2, l3. reflexivity.
  - destruct Hb as [<-|Hb].
    + exfalso. rewrite Forall_forall in Hx. specialize (Hx a Ha).
      unfold desc in Hx. apply (Qlt_irrefl (s_completeness a)).
      eapply Qle_lt_trans; eassumption.
    + destruct (IH Ha Hb Hlt) as [l1 [l2 [l3 ->]]].
      exists (x :: l1), l2, l3. reflexivity.
Qed.

(** X2: when there is something to divide by, an indicator with more
    observations has a larger completeness and stands before every
    indicator with fewer observations in the returned summary. *)
Theorem more_observations_rank_first sort w source sy ey top_n out top df
  a b :
  sort_values_contract sort ->
  rank_indicators_by_completeness sort w source sy ey top_n
  = (out, Returned (Some top) (Some df)) ->
  In a top -> In b top ->
  (0 < total_possible df sy ey)%Z -> s_count b < s_count a ->
  (s_completeness b < s_completeness a)%Q
  /\ exists l1 l2 l3, top = l1 ++ a :: l2 ++ b :: l3.
Proof.
  intros Hsort Hrank Ha Hb Hpos Hcount.
  assert (Hlt : (s_completeness b < s_completeness a)%Q).
  { rewrite (completeness_of_count _ _ _ _ _ _ Hsort Hrank Ha),
      (completeness_of_count _ _ _ _ _ _ Hsort Hrank Hb).
    apply completeness_lt; assumption. }
  split; [exact Hlt|].
  apply sorted_precedes; try assumption.
  destruct (rank_returned _ _ _ _ _ _ Hrank) as [inds [_ [_ ->]]].
  apply Hsort.
Qed.

Lemma list_sum_perm l l' : Permutation l l' -> list_sum l = list_sum l'.
Proof. induction 1; simpl; lia. Qed.

Lemma rank_returned_output sort w source sy ey top_n out top df :
  rank_indicators_by_completeness sort w source sy ey top_n
  = (out, Returned (Some top) (Some df)) ->
  exists n, out = [Found n source; Fetching; Retrieved (List.length df)].
Proof.
  unfold rank_indicators_by_completeness.
  destruct (get_indicators w source) as [e|inds]; [discriminate|].
  destruct (datetime_jan1 sy) as [e|s]; cbn [bind]; [discriminate|].
  destruct (datetime_jan1 ey) as [e|e']; cbn [bind ret]; [discriminate|].
  intros H. inversion H; subst. eexists. reflexivity.
Qed.

(** X3: the numbers of the summary add up to the observation table: the
    sum of the [Data Points] column is the number of rows of the table
    returned with it, which is also the number printed as retrieved. *)
Theorem data_points_add_up sort w source sy ey top_n out top df :
  sort_values_contract sort ->
  rank_indicators_by_completeness sort w source sy ey top_n
  = (out, Returned (Some top) (Some df)) ->
  data_points top = List.length df
  /\ In (Retrieved (data_points top)) out.
Proof.
  intros Hsort Hrank.
  assert (Hsum : data_points top = List.length df).
  { destruct (rank_returned _ _ _ _ _ _ Hrank) as [inds [_ [Hdf Htop]]].
    unfold data_points. rewrite Htop.
    rewrite (list_sum_perm (Permutation_map s_count (proj1 (Hsort _)))).
    unfold results. rewrite map_map. cbn [s_count].
    assert (Hcounts :
              map (fun kv => count_rows df (fst kv)) (indicator_dict inds)
              = map (fun kv =>
                       List.length
                         (fetch_rows w (jan1 sy, jan1 ey) (fst kv)))
                  (indicator_dict inds)).
    { apply map_ext_in. intros kv Hkv. rewrite Hdf. unfold all_data.
      apply count_rows_fetched.
      - apply nodup_keys_indicator_dict.
      - unfold keys. apply in_map. exact Hkv. }
    rewrite Hcounts, Hdf. unfold all_data. rewrite length_flat_map.
    unfold keys. rewrite map_map. reflexivity. }
  split; [exact Hsum|].
  destruct (rank_returned_output _ _ _ _ _ _ Hrank) as [n ->].
  rewrite Hsum. simpl. auto.
Qed.

(** X4: when every data request fails the ranking still returns: the
    observation table is empty, the denominator is 0, and every indicator
    of the catalog has count 0 and completeness 0. *)
Theorem all_requests_failed sort w source sy ey top_n out top df :
  sort_values_contract sort ->
  (forall code date_range, exists e, get_data w code date_range = inl e) ->
  rank_indicators_by_completeness sort w source sy ey top_n
  = (out, Returned (Some top) (Some df)) ->
  df = []
  /\ total_possible df sy ey = 0%Z
  /\ forall r, In r top -> s_count r = 0 /\ s_completeness r = 0%Q.
Proof.
  intros Hsort Hfail Hrank.
  destruct (rank_returned _ _ _ _ _ _ Hrank) as [inds [_ [Hdf Htop]]].
  assert (Hempty : df = []).
  { rewrite Hdf. unfold all_data.
    induction (keys (indicator_dict inds)) as [|k ks IH]; [reflexivity|].
    cbn [flat_map]. rewrite IH. unfold fetch_rows.
    destruct (Hfail k (jan1 sy, jan1 ey)) as [e ->]. reflexivity. }
  split; [exact Hempty|]. split; [rewrite Hempty; reflexivity|].
  intros r Hr.
  assert (Hin : In r (results df sy ey (indicator_dict inds))).
  { apply (Permutation_in r (proj1 (Hsort _))). rewrite <- Htop. exact Hr. }
  destruct (in_results _ _ _ _ _ Hin) as [kv [_ [_ [_ [Hn Hq]]]]].
  rewrite Hq, Hn, Hempty. split; reflexivity.
Qed.

Lemma in_dict_set d k' v' k v :
  NoDup (keys d) -> In (k, v) (dict_set d k' v') ->
  (k = k' /\ v = v') \/ (k <> k' /\ In (k, v) d).
Proof.
  induction d as [|[k0 v0] d IH]; simpl; intros Hnd Hin.
  - destruct Hin as [H|[]]. inversion H. auto.
  - inversion Hnd as [|? ? Hk0 Hd]; subst.
    destruct (String.eqb_spec k0 k') as [->|Hne].
    + destruct Hin as [H|Hin]; [inversion H; auto|].
      right. split; [|auto]. intros ->. apply Hk0.
      unfold keys. apply (in_map fst _ _ Hin).
    + destruct Hin as [H|Hin].
      * inversion H; subst. right. split; [exact Hne | auto].
      * destruct (IH Hd Hin) as [H|[H1 H2]]; auto.
Qed.

Lemma in_fold_last inds : forall acc k v,
  NoDup (keys acc) ->
  In (k, v) (fold_left catalog_step inds acc) ->
  last_name inds k = Some v \/ (last_name inds k = None /\ In (k, v) acc).
Proof.
  induction inds as [|i inds IH]; intros acc k v Hnd Hin.
  - right. split; [reflexivity | exact Hin].
  - cbn [fold_left] in Hin. cbn [last_name].
    destruct (IH _ k v (nodup_keys_dict_set _ _ _ Hnd) Hin)
      as [H|[Hnone Hacc]].
    + rewrite H. left. reflexivity.
    + rewrite Hnone. unfold catalog_step in Hacc.
      destruct (in_dict_set _ _ _ _ _ Hnd Hacc) as [[-> ->]|[Hne Hk]].
      * rewrite String.eqb_refl. left. reflexivity.
      * right. split; [|exact Hk].
        destruct (String.eqb_spec (ind_id i) k); [congruence | reflexivity].
Qed.

(** X5: when the catalog lists an id more than once, the summary has one
    row for it, and the row carries the name of the last entry with that
    id. *)
Theorem repeated_id_keeps_last_name sort w source sy ey top_n out top df
  inds :
  sort_values_contract sort ->
  get_indicators w source = inr inds ->
  rank_indicators_by_completeness sort w source sy ey top_n
  = (out, Returned (Some top) (Some df)) ->
  forall r, In r top -> last_name inds (s_code r) = Some (s_name r).
Proof.
  intros Hsort Hcat Hrank r Hr.
  destruct (rank_returned _ _ _ _ _ _ Hrank) as [inds' [Hcat' [Hdf Htop]]].
  rewrite Hcat in Hcat'. inversion Hcat'; subst inds'.
  assert (Hin : In r (results df sy ey (indicator_dict inds))).
  { apply (Permutation_in r (proj1 (Hsort _))). rewrite <- Htop. exact Hr. }
  destruct (in_results _ _ _ _ _ Hin) as [[k v] [Hkv [Hc [Hn _]]]].
  simpl in Hc, Hn. rewrite Hc, Hn.
  destruct (in_fold_last inds [] k v (NoDup_nil _) Hkv) as [H|[_ []]].
  exact H.
Qed.

(** X6: when [end_year] is before [start_year] the denominator is not
    positive, and every indicator gets completeness 0 whatever number of
    observations was retrieved for it. *)
Theorem inverted_range_gives_zero sort w source sy ey top_n out top df :
  sort_values_contract sort ->
  rank_indicators_by_completeness sort w source sy ey top_n
  = (out, Returned (Some top) (Some df)) ->
  (ey < sy)%Z ->
  forall r, In r top -> s_completeness r = 0%Q.
Proof.
  intros Hsort Hrank Hlt r Hr.
  rewrite (completeness_of_count _ _ _ _ _ _ Hsort Hrank Hr).
  unfold completeness, total_possible.
  destruct (Z.ltb_spec 0
              (Z.of_nat (List.length (unique (map o_country df)))
               * (ey - sy + 1))); [nia | reflexivity].
Qed.

End RankerMore.

Section RankerMoreExamples.

Import Completeness_Ranker Ranker_Notions.
Local Open Scope string_scope.
Local Open Scope list_scope.

Lemma example_first_row_in_top : In example_first_row example_top.
Proof. left. reflexivity. Qed.

(** The indicator with 4 observations stands before the one with 2. *)
Lemma more_observations_rank_first_witness :
  (s_completeness example_row < s_completeness example_first_row)%Q
  /\ exists l1 l2 l3,
       example_top = l1 ++ example_first_row :: l2 ++ example_row :: l3.
Proof.
  apply (@more_observations_rank_first sort_from_back well_behaved
           80 2000 2001 10 _ _ _ example_first_row example_row
           sort_from_back_contract well_behaved_returns
           example_first_row_in_top example_row_in_top).
  - reflexivity.
  - simpl. lia.
Defined.

(** Four and two observations make the six rows of the table. *)
Lemma data_points_add_up_witness :
  data_points example_top = 6
  /\ In (Retrieved 6) [Found 2 80; Fetching; Retrieved 6].
Proof.
  apply (@data_points_add_up sort_from_back well_behaved
           80 2000 2001 10 _ _ _
           sort_from_back_contract well_behaved_returns).
Defined.

Lemma catalog_only_fails :
  forall code date_range,
    exists e, get_data catalog_only code date_range = inl e.
Proof. intros code date_range. eexists. reflexivity. Qed.

(** With [catalog_only] both indicators are ranked with nothing. *)
Lemma all_requests_failed_witness :
  exists out top df,
    rank_indicators_by_completeness sort_from_back catalog_only
      80 2000 2020 10
    = (out, Returned (Some top) (Some df))
    /\ df = []
    /\ List.length top = 2
    /\ forall r, In r top -> s_count r = 0 /\ s_completeness r = 0%Q.
Proof.
  do 3 eexists. split; [reflexivity|].
  destruct (@all_requests_failed sort_from_back catalog_only
              80 2000 2020 10 _ _ _
              sort_from_back_contract catalog_only_fails eq_refl)
    as [Hdf [_ Hrows]].
  split; [exact Hdf|]. split; [reflexivity | exact Hrows].
Defined.

(** The id [SG.A] comes twice in the catalog of [renaming]. *)
Lemma repeated_id_keeps_last_name_witness :
  exists out top df,
    rank_indicators_by_completeness sort_from_back renaming 80 2000 2001 10
    = (out, Returned (Some top) (Some df))
    /\ List.length top = 2
    /\ forall r, In r top -> s_code r = "SG.A" -> s_name r = "new name".
Proof.
  do 3 eexists. split; [reflexivity|]. split; [reflexivity|].
  intros r Hr Hcode.
  pose proof (@repeated_id_keeps_last_name sort_from_back renaming
                80 2000 2001 10 _ _ _ renamed_indicator
                sort_from_back_contract eq_refl eq_refl r Hr) as Hname.
  rewrite Hcode in Hname. simpl in Hname. inversion Hname. reflexivity.
Defined.

(** Asking [well_behaved] for 2001 to 2000 gives rows of completeness 0. *)
Lemma inverted_range_gives_zero_witness :
  exists out top df,
    rank_indicators_by_completeness sort_from_back well_behaved
      80 2001 2000 10
    = (out, Returned (Some top) (Some df))
    /\ map s_count top = [4; 2]
    /\ forall r, In r top -> s_completeness r = 0%Q.
Proof.
  do 3 eexists. split; [reflexivity|]. split; [reflexivity|].
  apply (@inverted_range_gives_zero sort_from_back well_behaved
           80 2001 2000 10 _ _ _ sort_from_back_contract eq_refl).
  reflexivity.
Defined.

End RankerMoreExamples.

(** * Further properties of the data handler *)

Section HandlerMore.

Import Handler_Notions.

Lemma rsplit1_join sep s : forall a b,
  Py.rsplit1 sep s = [a; b] ->
  s = (a ++ String sep b)%string /\ ~ In sep (list_ascii_of_string b).
Proof.
  induction s as [|c s IH]; intros a b H; [discriminate H|].
  cbn [Py.rsplit1] in H.
  destruct (rsplit1_shape sep s) as [Hs | [a' [b' Hs]]]; rewrite Hs in H.
  - destruct (Ascii.eqb_spec c sep) as [->|Hne]; [|discriminate H].
    inversion H; subst. split; [reflexivity|].
    intros Hin. destruct (rsplit1_sep _ _ Hin) as [x [y Hxy]].
    rewrite Hxy in Hs. discriminate Hs.
  - inversion H; subst. destruct (IH _ _ Hs) as [Heq Hno].
    split; [|exact Hno]. rewrite Heq at 1. reflexivity.
Qed.

Lemma Forall2_in_r {A B} (R : A -> B -> Prop) l l' :
  Forall2 R l l' -> forall y, In y l' -> exists x, In x l /\ R x y.
Proof.
  induction 1 as [|x y l l' Hxy _ IH]; intros z Hz; [contradiction|].
  destruct Hz as [<-|Hz].
  - exists x. split; [left; reflexivity | exact Hxy].
  - destruct (IH z Hz) as [x' [Hx' Hr]]. exists x'. split; [right|]; assumption.
Qed.

Lemma Forall2_in_l {A B} (R : A -> B -> Prop) l l' :
  Forall2 R l l' -> forall x, In x l -> exists y, In y l' /\ R x y.
Proof.
  induction 1 as [|x y l l' Hxy _ IH]; intros z Hz; [contradiction|].
  destruct Hz as [<-|Hz].
  - exists y. split; [left; reflexivity | exact Hxy].
  - destruct (IH z Hz) as [y' [Hy' Hr]]. exists y'. split; [right|]; assumption.
Qed.

Lemma unpivot_label df indicators id_pos m :
  In m (unpivot df id_pos (value_positions df indicators)) ->
  In (m_var m) (value_vars df indicators).
Proof.
  intros Hm. destruct (in_unpivot _ _ _ _ Hm) as [p [r [Hp [_ [Hvar _]]]]].
  apply value_position_label in Hp. destruct Hp as [c [Hc Hf]].
  rewrite (nth_error_nth _ _ EmptyString Hc) in Hvar. rewrite Hvar.
  unfold value_vars. apply filter_In. split; [|exact Hf].
  apply nth_error_In in Hc. exact Hc.
Qed.

(** X7: the metric and the year of a long row spell the label of the
    value column the row comes from: the label is the metric, [_] and a
    text without [_] that reads as the year. *)
Theorem long_rows_spell_their_column df indicators long :
  reshape_long_HDI df indicators = inr long ->
  forall h, In h long ->
    exists year_text,
      In (metric h ++ "_" ++ year_text)%string (value_vars df indicators)
      /\ astype_int year_text = inr (year h)
      /\ ~ In "_"%char (list_ascii_of_string year_text).
Proof.
  intros Hlong h Hh.
  destruct (Forall2_in_r (reshape_inv _ _ Hlong) h Hh) as [m [Hm Hmh]].
  destruct (hdi_of_melted_inv _ _ Hmh) as [_ [_ [b [Hsplit Hyear]]]].
  destruct (rsplit1_join _ _ Hsplit) as [Hlabel Hno].
  exists b. split; [|split; assumption].
  change (metric h ++ "_" ++ b)%string
    with (metric h ++ String "_" b)%string.
  rewrite <- Hlabel. apply (unpivot_label _ _ _ _ Hm).
Qed.

Lemma reshape_inv_nonempty df indicators long :
  reshape_long_HDI df indicators = inr long ->
  unpivot df (get_indexer_for (columns df) id_vars)
    (value_positions df indicators) <> [].
Proof.
  unfold reshape_long_HDI.
  destruct (melt df id_vars (value_vars df indicators)) as [e|ml] eqn:Em;
    cbn [bind]; [discriminate|].
  apply melt_inv in Em. subst ml. intros H E.
  unfold value_positions in E. rewrite E in H. discriminate H.
Qed.

(** X8: a value column whose label does not end in an integer year makes
    [reshape_long_HDI] raise, whatever else the table holds, and the HDI
    loader raises with it. *)
Theorem unreadable_year_raises df indicators c :
  In c (value_vars df indicators) -> year_parses c = false ->
  exists e,
    reshape_long_HDI df indicators = inl e
    /\ forall fs filepath raw countries start_year end_year,
         read_csv fs filepath = inr raw -> normalize_columns raw = df ->
         get_data_HDI fs filepath indicators countries start_year end_year
         = inl e.
Proof.
  intros Hc Hyear.
  destruct (reshape_long_HDI df indicators) as [e|long] eqn:Hlong.
  - exists e. split; [reflexivity|].
    intros fs filepath raw countries start_year end_year Hread Hnorm.
    unfold get_data_HDI. rewrite Hread. cbn [bind].
    rewrite Hnorm, Hlong. reflexivity.
  - exfalso.
    pose proof (reshape_inv _ _ Hlong) as HF.
    pose proof (reshape_inv_nonempty _ _ Hlong) as Hne.
    assert (Hrows : exists r, In r (rows df)).
    { destruct (rows df) as [|r rs] eqn:Er; [|exists r; left; reflexivity].
      exfalso. apply Hne. apply length_zero_iff_nil.
      rewrite length_unpivot, Er. reflexivity. }
    destruct Hrows as [r Hr].
    assert (Hp : exists p, In p (value_positions df indicators)
                           /\ nth p (columns df) EmptyString = c).
    { unfold value_vars in Hc. apply filter_In in Hc. destruct Hc as [Hin Hf].
      destruct (In_nth_error _ _ Hin) as [p Hp]. exists p. split.
      - apply value_position_label. exists c. auto.
      - apply (nth_error_nth _ _ EmptyString Hp). }
    destruct Hp as [p [Hp Hlabel]].
    set (m := {| m_ids := map (cell_at r)
                            (get_indexer_for (columns df) id_vars);
                 m_var := nth p (columns df) EmptyString;
                 m_value := cell_at r p |}).
    assert (Hm : In m (unpivot df (get_indexer_for (columns df) id_vars)
                         (value_positions df indicators))).
    { unfold unpivot. apply in_flat_map. exists p. split; [exact Hp|].
      apply in_map_iff. exists r. split; [reflexivity | exact Hr]. }
    destruct (Forall2_in_l HF m Hm) as [h [_ Hmh]].
    destruct (hdi_of_melted_inv _ _ Hmh) as [_ [_ [b [Hsplit Hb]]]].
    unfold m in Hsplit. cbn [m_var] in Hsplit. rewrite Hlabel in Hsplit.
    unfold year_parses, Py.split_last in Hyear. rewrite Hsplit in Hyear.
    cbn [last] in Hyear. rewrite Hb in Hyear. discriminate Hyear.
Qed.

Lemma filter_filter' {A} (f g : A -> bool) l :
  filter f (filter g l) = filter (fun x => g x && f x) l.
Proof.
  induction l as [|a l IH]; [reflexivity|]. cbn [filter].
  destruct (g a); cbn [filter andb]; rewrite IH; reflexivity.
Qed.

Lemma filter_countries_opt_selects {R : Type} (country : R -> cell)
  countries frame kept :
  filter_countries_opt country countries frame = inr kept ->
  kept = filter (fun r => keeps_country countries (country r)) frame.
Proof.
  unfold filter_countries_opt, keeps_country.
  destruct countries as [cs|].
  - unfold filter_countries.
    destruct (str_accessor (map country frame)) as [e|[]]; cbn [bind];
      [discriminate|].
    intros H. inversion H. reflexivity.
  - intros H. inversion H. symmetry. apply filter_all. reflexivity.
Qed.

(** X9: the filters of the HDI loader only select: what a call with a
    country filter and year bounds returns is what the call without them
    returns, restricted to the rows that pass the country test and both
    year tests, in the same order. *)
Theorem hdi_filters_select fs filepath indicators countries start_year
  end_year all out :
  get_data_HDI fs filepath indicators None None None = inr all ->
  get_data_HDI fs filepath indicators countries start_year end_year
  = inr out ->
  out = filter
          (fun r => keeps_country countries (country r)
                    && keeps_year start_year end_year (year r))
          all.
Proof.
  unfold get_data_HDI.
  destruct (read_csv fs filepath) as [e|df]; cbn [bind]; [discriminate|].
  destruct (reshape_long_HDI (normalize_columns df) indicators)
    as [e|long]; cbn [bind]; [discriminate|].
  cbn [filter_countries_opt filter_start filter_end ret bind].
  intros Hall. inversion Hall; subst all. clear Hall.
  destruct (filter_countries_opt country countries long) as [e|kept] eqn:Ek;
    cbn [bind]; [discriminate|].
  intros Hout. inversion Hout; subst out. clear Hout.
  rewrite (filter_countries_opt_selects _ _ _ Ek).
  unfold filter_start, filter_end, keeps_year.
  destruct start_year as [s|], end_year as [e|];
    rewrite ?filter_filter'; apply filter_ext; intros r;
    destruct (keeps_country countries (country r)); cbn [andb];
    rewrite ?andb_true_r; reflexivity.
Qed.

(** X10: an empty list of countries is a filter that nothing passes: both
    loaders return no row for it, where [None] would keep every row. *)
Theorem empty_country_list_keeps_nothing :
  (forall fs filepath indicators start_year end_year out,
      get_data_HDI fs filepath indicators (Some (inr [])) start_year
        end_year = inr out ->
      out = [])
  /\ (forall fs indicators start_year end_year folder_path out,
         get_data_EPI fs indicators (Some (inr [])) start_year end_year
           folder_path = inr out ->
         out = []).
Proof.
  assert (Hnone : forall (R : Type) (country : R -> cell) frame kept,
             filter_countries_opt country (Some (inr [])) frame = inr kept ->
             kept = []).
  { intros R country frame kept H.
    rewrite (filter_countries_opt_selects _ _ _ H).
    apply filter_none. intros r _. unfold keeps_country. cbn.
    destruct (str_lower (country r)); reflexivity. }
  split.
  - intros fs filepath indicators start_year end_year out.
    unfold get_data_HDI.
    destruct (read_csv fs filepath) as [e|df]; cbn [bind]; [discriminate|].
    destruct (reshape_long_HDI (normalize_columns df) indicators)
      as [e|long]; cbn [bind]; [discriminate|].
    destruct (filter_countries_opt country (Some (inr [])) long)
      as [e|kept] eqn:Ek; cbn [bind]; [discriminate|].
    rewrite (Hnone _ _ _ _ Ek). intros H. inversion H.
    destruct start_year, end_year; reflexivity.
  - intros fs indicators start_year end_year folder_path out.
    unfold get_data_EPI.
    destruct (mapM (load_EPI fs folder_path) indicators) as [e|dfs];
      cbn [bind]; [discriminate|].
    destruct (concat dfs) as [e|all]; cbn [bind]; [discriminate|].
    destruct (filter_countries_opt e_country (Some (inr [])) all)
      as [e|kept] eqn:Ek; cbn [bind]; [discriminate|].
    rewrite (Hnone _ _ _ _ Ek). unfold filter_years_EPI.
    destruct start_year, end_year; intros H; inversion H; reflexivity.
Qed.

Lemma epi_of_melted_inv var var_name m r :
  epi_of_melted var var_name m = inr r ->
  e_variable r = var /\ e_variable_name r = var_name
  /\ e_value r = m_value m
  /\ astype_int (Py.split_last "." (m_var m)) = inr (e_year r).
Proof.
  unfold epi_of_melted.
  destruct (astype_int (Py.split_last "." (m_var m))) as [e|y]; cbn [bind];
    [discriminate|].
  intros H. inversion H. cbn. auto.
Qed.

(** What one turn of the loop of [get_data_EPI] went through when it
    gave a frame. *)
Lemma load_EPI_inv fs folder_path var var_name frame :
  load_EPI fs folder_path (var, var_name) = inr frame ->
  exists raw,
    fs (epi_filename folder_path var) = Some (inr raw)
    /\ Forall2 (fun m r => epi_of_melted var var_name m = inr r)
         (unpivot (normalize_columns raw)
            (get_indexer_for (columns (normalize_columns raw))
               ["iso"; "country"])
            (unique_pos
               (get_indexer_for (columns (normalize_columns raw))
                  (year_cols var (normalize_columns raw)))))
         frame.
Proof.
  unfold load_EPI, exists_, read_csv.
  destruct (fs (epi_filename folder_path var)) as [[e|raw]|]; cbn [negb bind];
    try discriminate.
  destruct (melt (normalize_columns raw) ["iso"; "country"]
              (filter
                 (fun col => Py.startswith col (Py.lower var ++ ".ind."))
                 (columns (normalize_columns raw)))) as [e|ml] eqn:Em;
    cbn [bind]; [discriminate|].
  intros H. exists raw. split; [reflexivity|].
  apply melt_inv in Em. subst ml. apply mapM_inv. exact H.
Qed.

(** X11: every row the EPI loader returns belongs to a requested
    variable and carries its code and its readable name, has a year
    within the two bounds, both included, and passes the country filter. *)
Theorem epi_rows_are_requested fs indicators countries s e folder_path out :
  get_data_EPI fs indicators countries (Some s) (Some e) folder_path
  = inr out ->
  forall r, In r out ->
    In (e_variable r, e_variable_name r) indicators
    /\ (s <= e_year r <= e)%Z
    /\ keeps_country countries (e_country r) = true.
Proof.
  unfold get_data_EPI.
  destruct (mapM (load_EPI fs folder_path) indicators) as [e0|dfs] eqn:Em;
    cbn [bind]; [discriminate|].
  destruct (concat dfs) as [e0|all] eqn:Ec; cbn [bind]; [discriminate|].
  destruct (filter_countries_opt e_country countries all) as [e0|kept] eqn:Ek;
    cbn [bind]; [discriminate|].
  unfold filter_years_EPI, ret. intros H r Hr. inversion H; subst out.
  apply filter_In in Hr. destruct Hr as [Hr Hy].
  apply andb_true_iff in Hy. rewrite !Z.leb_le in Hy.
  rewrite (filter_countries_opt_selects _ _ _ Ek) in Hr.
  apply filter_In in Hr. destruct Hr as [Hr Hc].
  split; [|split; assumption].
  assert (Hall : all = List.concat dfs).
  { unfold concat in Ec. destruct dfs; [discriminate|].
    inversion Ec. reflexivity. }
  rewrite Hall in Hr. apply in_concat in Hr. destruct Hr as [frame [Hf Hr]].
  destruct (Forall2_in_r (mapM_inv _ _ Em) frame Hf) as [[var name] [Hi Hl]].
  destruct (load_EPI_inv _ _ _ _ Hl) as [raw [_ HF]].
  destruct (Forall2_in_r HF r Hr) as [m [_ Hm]].
  destruct (epi_of_melted_inv _ _ _ Hm) as [-> [-> _]]. exact Hi.
Qed.

Lemma melt_returns df ids vars :
  mem "value" (columns df) = false ->
  forallb (fun v => Nat.eqb (List.length (positions_from 0 v (columns df))) 1)
    ids = true ->
  (forall v, In v vars -> In v (columns df)) ->
  melt df ids vars
  = inr (unpivot df (get_indexer_for (columns df) ids)
           (unique_pos (get_indexer_for (columns df) vars))).
Proof.
  intros Hvalue Hid Hvars. unfold melt. rewrite Hvalue.
  assert (Hmem : forallb (fun v => mem v (columns df)) ids = true).
  { rewrite forallb_forall in *. intros v Hv. specialize (Hid v Hv).
    apply Nat.eqb_eq in Hid. apply mem_In.
    destruct (positions_from 0 v (columns df)) as [|p l] eqn:E;
      [discriminate|].
    assert (Hp : In p (positions_from 0 v (columns df)))
      by (rewrite E; left; reflexivity).
    apply in_positions_from in Hp. destruct Hp as [_ Hp].
    apply nth_error_In in Hp. exact Hp. }
  rewrite Hmem. cbn [negb].
  assert (Hin : forallb (fun v => mem v (columns df)) vars = true).
  { rewrite forallb_forall. intros v Hv. apply mem_In. auto. }
  rewrite Hin. cbn [negb]. rewrite Hid. reflexivity.
Qed.

(** X12: for one variable, no country filter and year bounds that hold
    every year of the file, the EPI loader returns R times C rows, R the
    rows of the file and C its year columns; unlike the HDI reshaping it
    does return, with no row, when the file has no year column or no
    row, provided the file is well formed. *)
Theorem epi_file_row_count fs var var_name folder_path raw s e :
  fs (epi_filename folder_path var) = Some (inr raw) ->
  (forall out,
      get_data_EPI fs [(var, var_name)] None (Some s) (Some e) folder_path
      = inr out ->
      (forall c y,
          In c (year_cols var (normalize_columns raw)) ->
          astype_int (Py.split_last "." c) = inr y -> (s <= y <= e)%Z) ->
      List.length out
      = List.length (rows raw)
        * List.length (year_cols var (normalize_columns raw)))
  /\ (epi_ok var (normalize_columns raw) = true ->
      exists out,
        get_data_EPI fs [(var, var_name)] None (Some s) (Some e) folder_path
        = inr out).
Proof.
  intros Hfile. split.
  - intros out. unfold get_data_EPI. cbn [mapM].
    destruct (load_EPI fs folder_path (var, var_name)) as [e0|frame] eqn:El;
      cbn [bind ret concat filter_countries_opt filter_years_EPI];
      [discriminate|].
    intros H Hyears. inversion H; subst out. clear H.
    destruct (load_EPI_inv _ _ _ _ El) as [raw' [Hfile' HF]].
    rewrite Hfile in Hfile'. inversion Hfile'; subst raw'.
    cbn [List.concat]. rewrite app_nil_r.
    rewrite filter_all.
    + rewrite <- (Forall2_length HF), length_unpivot.
      unfold year_cols. rewrite length_indexer_filter. reflexivity.
    + intros r Hr. destruct (Forall2_in_r HF r Hr) as [m [Hm Hmr]].
      destruct (epi_of_melted_inv _ _ _ Hmr) as [_ [_ [_ Hy]]].
      destruct (in_unpivot _ _ _ _ Hm) as [p [row [Hp [_ [Hvar _]]]]].
      unfold year_cols in Hp at 1. apply in_indexer_filter in Hp.
      apply in_positions_where in Hp. rewrite Nat.sub_0_r in Hp.
      destruct Hp as [_ [c [Hc Hf]]].
      rewrite (nth_error_nth _ _ EmptyString Hc) in Hvar.
      rewrite Hvar in Hy.
      assert (Hin : In c (year_cols var (normalize_columns raw))).
      { unfold year_cols. apply filter_In. split; [|exact Hf].
        apply nth_error_In in Hc. exact Hc. }
      specialize (Hyears c (e_year r) Hin Hy).
      apply andb_true_iff. rewrite !Z.leb_le. exact Hyears.
  - unfold epi_ok. rewrite !andb_true_iff, negb_true_iff.
    intros [[Hvalue Hid] Hparse].
    unfold get_data_EPI. cbn [mapM].
    unfold load_EPI, exists_, read_csv. rewrite Hfile. cbn [negb bind].
    fold (year_cols var (normalize_columns raw)).
    rewrite (melt_returns _ _ _ Hvalue Hid).
    + cbn [bind].
      set (ml := unpivot _ _ _).
      destruct (@mapM_ok _ _ (epi_of_melted var var_name) ml)
        as [frame [Hframe _]].
      * intros m Hm. unfold ml in Hm.
        destruct (in_unpivot _ _ _ _ Hm) as [p [row [Hp [_ [Hvar _]]]]].
        unfold year_cols in Hp at 1. apply in_indexer_filter in Hp.
        apply in_positions_where in Hp. rewrite Nat.sub_0_r in Hp.
        destruct Hp as [_ [c [Hc Hf]]].
        rewrite (nth_error_nth _ _ EmptyString Hc) in Hvar.
        rewrite forallb_forall in Hparse.
        assert (Hin : In c (year_cols var (normalize_columns raw))).
        { unfold year_cols. apply filter_In. split; [|exact Hf].
          apply nth_error_In in Hc. exact Hc. }
        specialize (Hparse c Hin). unfold epi_of_melted. rewrite Hvar.
        destruct (astype_int (Py.split_last "." c)) as [e0|y];
          [discriminate|]. cbn [bind]. eauto.
      * rewrite Hframe.
        cbn [bind ret concat filter_countries_opt filter_years_EPI].
        eauto.
    + intros v Hv. unfold year_cols in Hv. apply filter_In in Hv. tauto.
Qed.

Lemma melt_ids_once df ids vars ml :
  melt df ids vars = inr ml ->
  forall v, In v ids ->
    exists p, positions_from 0 v (columns df) = [p].
Proof.
  unfold melt. do 3 (case_if; [discriminate|]).
  destruct (forallb
              (fun v => List.length (positions_from 0 v (columns df)) =? 1)%nat
              ids) eqn:E; cbn [negb]; [|discriminate].
  intros _ v Hv. rewrite forallb_forall in E. specialize (E v Hv).
  apply Nat.eqb_eq in E.
  destruct (positions_from 0 v (columns df)) as [|p [|q l]];
    try discriminate E. exists p. reflexivity.
Qed.

Lemma hdi_of_melted_ids indicators m h :
  hdi_of_melted indicators m = inr h ->
  iso3 h = nth 0 (m_ids m) Null
  /\ country h = nth 1 (m_ids m) Null
  /\ region h = nth 2 (m_ids m) Null.
Proof.
  unfold hdi_of_melted.
  destruct (Py.rsplit1 "_" (m_var m)) as [|a [|b [|c l]]]; try discriminate.
  destruct (astype_int b) as [e|y]; cbn [bind]; [discriminate|].
  intros H. inversion H. cbn. auto.
Qed.

Lemma in_unpivot_ids df id_pos value_pos m :
  In m (unpivot df id_pos value_pos) ->
  exists p r,
    In p value_pos /\ In r (rows df)
    /\ m_ids m = map (cell_at r) id_pos
    /\ m_value m = cell_at r p.
Proof.
  unfold unpivot. rewrite in_flat_map. intros [p [Hp Hm]].
  apply in_map_iff in Hm. destruct Hm as [r [<- Hr]].
  exists p, r. cbn. auto.
Qed.

(** X18: a table that is reshaped has one column for each of [iso3],
    [country] and [region], and every long row repeats the three cells
    of the wide row its value is taken from. *)
Theorem long_rows_repeat_their_entity df indicators long :
  reshape_long_HDI df indicators = inr long ->
  exists p_iso3 p_country p_region,
    positions_from 0 "iso3" (columns df) = [p_iso3]
    /\ positions_from 0 "country" (columns df) = [p_country]
    /\ positions_from 0 "region" (columns df) = [p_region]
    /\ forall h, In h long ->
         exists r p_value,
           In r (rows df)
           /\ In p_value (value_positions df indicators)
           /\ iso3 h = cell_at r p_iso3
           /\ country h = cell_at r p_country
           /\ region h = cell_at r p_region
           /\ value h = cell_at r p_value.
Proof.
  intros Hlong. pose proof (reshape_inv _ _ Hlong) as HF.
  assert (Hmelt : exists ml,
             melt df id_vars (value_vars df indicators) = inr ml).
  { unfold reshape_long_HDI in Hlong.
    destruct (melt df id_vars (value_vars df indicators)) as [e|ml];
      [discriminate Hlong | eauto]. }
  destruct Hmelt as [ml Hmelt].
  destruct (melt_ids_once _ _ _ Hmelt "iso3") as [p1 H1];
    [simpl; auto|].
  destruct (melt_ids_once _ _ _ Hmelt "country") as [p2 H2];
    [simpl; auto|].
  destruct (melt_ids_once _ _ _ Hmelt "region") as [p3 H3];
    [simpl; auto|].
  exists p1, p2, p3. repeat (split; [assumption|]).
  intros h Hh. destruct (Forall2_in_r HF h Hh) as [m [Hm Hmh]].
  destruct (in_unpivot_ids _ _ _ _ Hm) as [p [r [Hp [Hr [Hids Hval]]]]].
  destruct (hdi_of_melted_ids _ _ Hmh) as [Hi [Hc Hg]].
  destruct (hdi_of_melted_inv _ _ Hmh) as [Hv _].
  exists r, p. split; [exact Hr|]. split; [exact Hp|].
  unfold get_indexer_for, id_vars in Hids. cbn [flat_map] in Hids.
  rewrite H1, H2, H3 in Hids. cbn [app map] in Hids.
  rewrite Hids in Hi, Hc, Hg. cbn [nth] in Hi, Hc, Hg.
  rewrite Hv, Hval. auto.
Qed.

End HandlerMore.

Section HandlerMoreExamples.

Import Handler_Notions.

(** The long rows of [hdi_wide] come from its three [edu] columns. *)
Lemma long_rows_spell_their_column_witness :
  exists long,
    reshape_long_HDI hdi_wide edu = inr long
    /\ forall h, In h long ->
         exists year_text,
           In (metric h ++ "_" ++ year_text)%string
             ["edu_2010"; "edu_2011"; "edu_x_2012"]
           /\ astype_int year_text = inr (year h).
Proof.
  eexists. split; [reflexivity|]. intros h Hh.
  destruct (@long_rows_spell_their_column hdi_wide edu _ eq_refl h Hh)
    as [t [Hlabel [Hyear _]]].
  exists t. split; [exact Hlabel | exact Hyear].
Defined.

(** The column [edu_rank] is a value column and [rank] is no year. *)
Lemma unreadable_year_raises_witness :
  exists e, reshape_long_HDI hdi_bad_year edu = inl e.
Proof.
  assert (Hc : In "edu_rank" (value_vars hdi_bad_year edu))
    by (right; left; reflexivity).
  assert (Hy : year_parses "edu_rank" = false) by reflexivity.
  destruct (@unreadable_year_raises hdi_bad_year edu "edu_rank" Hc Hy)
    as [e [He _]].
  exists e. exact He.
Defined.

(** France from 2011 on, out of the six rows of the file. *)
Lemma hdi_filters_select_witness :
  exists all out,
    get_data_HDI hdi_files "hdi.csv" edu None None None = inr all
    /\ get_data_HDI hdi_files "hdi.csv" edu (Some (inl "france"))
         (Some 2011%Z) None = inr out
    /\ List.length all = 6 /\ List.length out = 2
    /\ out = filter
               (fun r =>
                  keeps_country (Some (inl "france")) (country r)
                  && keeps_year (Some 2011%Z) None (year r))
               all.
Proof.
  do 2 eexists. split; [reflexivity|]. split; [reflexivity|].
  split; [reflexivity|]. split; [reflexivity|].
  apply (@hdi_filters_select hdi_files "hdi.csv" edu
           (Some (inl "france")) (Some 2011%Z) None _ _ eq_refl eq_refl).
Defined.

(** An empty list of countries empties the result of both loaders. *)
Lemma empty_country_list_keeps_nothing_witness :
  (exists out,
      get_data_HDI hdi_files "hdi.csv" edu (Some (inr [])) None None
      = inr out /\ out = [])
  /\ (exists out,
         get_data_EPI epi_files [("BCA", "Biodiversity Conservation Area")]
           (Some (inr [])) (Some 1990%Z) (Some 1995%Z) "P5_Indicator"
         = inr out /\ out = []).
Proof.
  destruct empty_country_list_keeps_nothing as [Hhdi Hepi].
  split; eexists; (split; [reflexivity|]).
  - apply (Hhdi hdi_files "hdi.csv" edu None None _ eq_refl).
  - apply (Hepi epi_files [("BCA", "Biodiversity Conservation Area")]
             (Some 1990%Z) (Some 1995%Z) "P5_Indicator" _ eq_refl).
Defined.

(** The rows loaded from the file of [BCA] carry [BCA] and its name. *)
Lemma epi_rows_are_requested_witness :
  exists out,
    get_data_EPI epi_files [("BCA", "Biodiversity Conservation Area")]
      None (Some 1995%Z) (Some 2000%Z) "P5_Indicator" = inr out
    /\ List.length out = 2
    /\ forall r, In r out ->
         e_variable r = "BCA" /\ e_year r = 1995%Z.
Proof.
  eexists. split; [reflexivity|]. split; [reflexivity|]. intros r Hr.
  destruct (@epi_rows_are_requested epi_files
              [("BCA", "Biodiversity Conservation Area")] None
              1995%Z 2000%Z "P5_Indicator" _ eq_refl r Hr)
    as [[Hvar|[]] _].
  split; [inversion Hvar; reflexivity|].
  destruct Hr as [<-|[<-|[]]]; reflexivity.
Defined.

(** A file without year columns gives a table without rows. *)
Lemma epi_file_row_count_witness :
  exists out,
    get_data_EPI epi_files_no_year
      [("BCA", "Biodiversity Conservation Area")]
      None (Some 1990%Z) (Some 1995%Z) "P5_Indicator" = inr out
    /\ List.length out = 1 * 0.
Proof.
  destruct (@epi_file_row_count epi_files_no_year "BCA"
              "Biodiversity Conservation Area" "P5_Indicator" bca_no_year
              1990%Z 1995%Z eq_refl) as [Hcount Hreturns].
  destruct (Hreturns eq_refl) as [out Hout].
  exists out. split; [exact Hout|].
  apply (Hcount out Hout). intros c y [].
Defined.

(** The long rows of [hdi_wide] repeat the first three cells of a row. *)
Lemma long_rows_repeat_their_entity_witness :
  exists long,
    reshape_long_HDI hdi_wide edu = inr long
    /\ forall h, In h long ->
         exists r,
           In r (rows hdi_wide)
           /\ iso3 h = cell_at r 0
           /\ country h = cell_at r 1
           /\ region h = cell_at r 2.
Proof.
  eexists. split; [reflexivity|].
  destruct (@long_rows_repeat_their_entity hdi_wide edu _ eq_refl)
    as [p1 [p2 [p3 [H1 [H2 [H3 Hrows]]]]]].
  cbv in H1, H2, H3.
  injection H1 as <-. injection H2 as <-. injection H3 as <-.
  intros h Hh. destruct (Hrows h Hh) as [r [p [Hr [_ [Hi [Hc [Hg _]]]]]]].
  exists r. auto.
Defined.

End HandlerMoreExamples.

(** * Properties of the World Bank loader *)

Section WorldBank.

Import Completeness_Ranker World_Bank.

(** X13: a date range is asked of the provider only when both years are
    given and not 0; with a single bound, or none, the loader asks for
    the whole series, so that a bound given alone changes nothing. *)
Theorem single_bound_is_ignored w indicators countries start_year end_year :
  start_year = None \/ start_year = Some 0%Z
  \/ end_year = None \/ end_year = Some 0%Z ->
  get_data_WB w indicators countries start_year end_year
  = get_data_WB w indicators countries None None.
Proof.
  intros H. unfold get_data_WB.
  assert (Hrange : date_range_of start_year end_year
                   = date_range_of None None).
  { unfold date_range_of.
    destruct start_year as [s|], end_year as [e|]; try reflexivity.
    destruct H as [H | [H | [H | H]]]; try discriminate H;
      inversion H; subst; cbn [truthy Z.eqb negb andb];
      rewrite ?andb_false_r; reflexivity. }
  rewrite Hrange. reflexivity.
Qed.

Lemma get_data_WB_inv w indicators countries start_year end_year out :
  get_data_WB w indicators countries start_year end_year = inr out ->
  exists date_range raw df df',
    date_range_of start_year end_year = inr date_range
    /\ get_dataframe w indicators countries date_range = inr raw
    /\ reset_index raw = inr df
    /\ year_step (rename df) = inr df'
    /\ out = select df' ("Country" :: "Year" :: map snd indicators).
Proof.
  unfold get_data_WB. intros H.
  destruct (date_range_of start_year end_year) as [e|dr] eqn:E1;
    cbn [bind] in H; [discriminate|].
  destruct (get_dataframe w indicators countries dr) as [e|raw] eqn:E2;
    cbn [bind] in H; [discriminate|].
  destruct (reset_index raw) as [e|df] eqn:E3; cbn [bind] in H;
    [discriminate|].
  destruct (year_step (rename df)) as [e|df'] eqn:E4; cbn [bind] in H;
    [discriminate|].
  inversion H. exists dr, raw, df, df'.
  repeat split; assumption.
Qed.

Lemma reset_index_inv raw df :
  reset_index raw = inr df ->
  labels df = index_names raw ++ data_columns raw
  /\ lines df = map (fun r => fst r ++ snd r) (records raw).
Proof.
  unfold reset_index. case_if; [|discriminate].
  intros H. inversion H. split; reflexivity.
Qed.

Lemma year_step_inv df df' :
  year_step df = inr df' ->
  labels df' = labels df
  /\ List.length (lines df') = List.length (lines df)
  /\ In "Year" (labels df).
Proof.
  unfold year_step.
  destruct (Frame.positions_from 0 "Year" (labels df)) as [|p [|q l]] eqn:E;
    [discriminate| |].
  - assert (Hin : In "Year" (labels df)).
    { assert (Hp : In p (Frame.positions_from 0 "Year" (labels df)))
        by (rewrite E; left; reflexivity).
      apply in_positions_from in Hp. destruct Hp as [_ Hp].
      apply nth_error_In in Hp. exact Hp. }
    case_if; intros H; inversion H; subst; cbn [labels lines];
      rewrite ?length_map; repeat split; auto.
  - assert (Hin : In "Year" (labels df)).
    { assert (Hp : In p (Frame.positions_from 0 "Year" (labels df)))
        by (rewrite E; left; reflexivity).
      apply in_positions_from in Hp. destruct Hp as [_ Hp].
      apply nth_error_In in Hp. exact Hp. }
    intros H. inversion H; subst. repeat split; auto.
Qed.

Lemma in_labels_select df cols c :
  In c (labels (select df cols)) <-> In c cols /\ In c (labels df).
Proof.
  unfold select. cbn [labels]. rewrite in_map_iff. split.
  - intros [p [Hnth Hp]]. unfold Frame.get_indexer_for in Hp.
    apply in_flat_map in Hp. destruct Hp as [c' [Hc' Hp]].
    apply in_positions_from in Hp. destruct Hp as [_ Hp].
    rewrite Nat.sub_0_r in Hp.
    rewrite (nth_error_nth _ _ EmptyString Hp) in Hnth. subst c'.
    apply filter_In in Hc'. destruct Hc' as [Hcols Hmem].
    split; [exact Hcols|]. apply mem_In. exact Hmem.
  - intros [Hcols Hlab]. destruct (In_nth_error _ _ Hlab) as [p Hp].
    exists p. split; [apply (nth_error_nth _ _ EmptyString Hp)|].
    unfold Frame.get_indexer_for. apply in_flat_map. exists c. split.
    + apply filter_In. split; [exact Hcols|]. apply mem_In. exact Hlab.
    + apply in_positions_from. rewrite Nat.sub_0_r. split; [lia | exact Hp].
Qed.

(** X14: what the World Bank loader returns has as many lines as the
    provider served and always a [Year] column; its columns are the
    labels among [Country], [Year] and the indicator names that the
    provider's frame has once its index is reset and renamed: an
    indicator name the frame lacks is left out without an error, and a
    column that was not asked for is dropped. *)
Theorem wb_columns_are_requested w indicators countries start_year end_year
  out :
  get_data_WB w indicators countries start_year end_year = inr out ->
  exists date_range raw,
    date_range_of start_year end_year = inr date_range
    /\ get_dataframe w indicators countries date_range = inr raw
    /\ List.length (lines out) = List.length (records raw)
    /\ In "Year" (labels out)
    /\ forall c,
         In c (labels out) <->
         In c ("Country" :: "Year" :: map snd indicators)
         /\ In c (map rename_label (index_names raw ++ data_columns raw)).
Proof.
  intros H.
  destruct (get_data_WB_inv _ _ _ _ _ H)
    as [dr [raw [df [df' [Hdr [Hraw [Hreset [Hyear Hout]]]]]]]].
  exists dr, raw. split; [exact Hdr|]. split; [exact Hraw|].
  destruct (reset_index_inv _ Hreset) as [Hlabels Hlines].
  destruct (year_step_inv _ Hyear) as [Hlabels' [Hlen Hin]].
  assert (Hcols : forall c,
             In c (labels out) <->
             In c ("Country" :: "Year" :: map snd indicators)
             /\ In c (map rename_label
                        (index_names raw ++ data_columns raw))).
  { intros c. rewrite Hout, in_labels_select, Hlabels'.
    unfold rename. cbn [labels]. rewrite Hlabels. reflexivity. }
  split; [|split; [|exact Hcols]].
  - rewrite Hout. unfold select. cbn [lines]. rewrite length_map, Hlen.
    unfold rename. cbn [lines]. rewrite Hlines. apply length_map.
  - apply Hcols. split; [right; left; reflexivity|].
    unfold rename in Hin. cbn [labels] in Hin. rewrite Hlabels in Hin.
    exact Hin.
Qed.

Lemma not_mem x l : ~ In x l -> Frame.mem x l = false.
Proof.
  intros H. apply not_true_is_false. intros Hm. apply H.
  apply mem_In. exact Hm.
Qed.

Lemma positions_from_notin c l : forall i,
  ~ In c l -> Frame.positions_from i c l = [].
Proof.
  induction l as [|x l IH]; intros i H; [reflexivity|].
  cbn [Frame.positions_from].
  destruct (String.eqb_spec x c) as [->|Hne].
  - exfalso. apply H. left. reflexivity.
  - apply IH. intros Hin. apply H. right. exact Hin.
Qed.

Lemma rename_fixed l :
  (forall c, In c l -> c <> "country" /\ c <> "date") ->
  map rename_label l = l.
Proof.
  induction l as [|x l IH]; intros H; [reflexivity|].
  cbn [map]. rewrite IH by (intros c Hc; apply H; right; exact Hc).
  destruct (H x (or_introl eq_refl)) as [H1 H2].
  unfold rename_label.
  destruct (String.eqb_spec x "country"); [congruence|].
  destruct (String.eqb_spec x "date"); [congruence|]. reflexivity.
Qed.

(** X15: for a provider answer indexed by country and date, whose date
    level holds dates, the loader returns the columns [Country] and
    [Year] first, each line with the country of its record and the
    calendar year of its date as an integer. *)
Theorem wb_year_is_calendar_year w indicators countries start_year end_year
  date_range raw :
  date_range_of start_year end_year = inr date_range ->
  get_dataframe w indicators countries date_range = inr raw ->
  index_names raw = ["country"; "date"] ->
  (forall c, In c (data_columns raw) ->
             ~ In c ["country"; "date"; "Country"; "Year"]) ->
  (forall r, In r (records raw) -> exists cty d, fst r = [cty; WDate d]) ->
  exists out,
    get_data_WB w indicators countries start_year end_year = inr out
    /\ firstn 2 (labels out) = ["Country"; "Year"]
    /\ map (firstn 2) (lines out)
       = map (fun r =>
                match fst r with
                | [cty; WDate d] => [cty; WInt (dt_year d)]
                | _ => []
                end)
           (records raw).
Proof.
  intros Hdr Hraw Hidx Hcols Hrec.
  destruct raw as [names data recs]. cbn [index_names data_columns records] in *.
  subst names.
  assert (Hno : forall x, In x ["country"; "date"; "Country"; "Year"] ->
                          ~ In x data).
  { intros x Hx Hin. apply (Hcols x Hin). exact Hx. }
  assert (Hcountry : ~ In "country" data) by (apply Hno; simpl; auto).
  assert (Hdate : ~ In "date" data) by (apply Hno; simpl; auto).
  assert (HCountry : ~ In "Country" data) by (apply Hno; simpl; auto).
  assert (HYear : ~ In "Year" data) by (apply Hno; simpl; auto).
  unfold get_data_WB. rewrite Hdr. cbn [bind]. rewrite Hraw. cbn [bind].
  unfold reset_index. cbn [index_names data_columns records insertable app].
  rewrite (@not_mem "date" data Hdate).
  assert (Hc2 : Frame.mem "country" ("date" :: data) = false).
  { apply not_mem. intros [H|H]; [discriminate H | exact (Hcountry H)]. }
  rewrite Hc2. cbn [andb negb bind ret].
  unfold rename. cbn [labels lines]. rewrite !map_cons.
  assert (Hfix : map rename_label data = data).
  { apply rename_fixed. intros c Hc. split; intros ->; auto. }
  rewrite Hfix.
  change (rename_label "country") with "Country".
  change (rename_label "date") with "Year".
  unfold year_step. cbn [labels lines].
  assert (Hpos : Frame.positions_from 0 "Year" ("Country" :: "Year" :: data)
                 = [1]).
  { cbn [Frame.positions_from].
    change (String.eqb "Country" "Year") with false.
    change (String.eqb "Year" "Year") with true.
    cbn iota. rewrite positions_from_notin by exact HYear. reflexivity. }
  rewrite Hpos.
  assert (Hdates : forallb (fun line => datelike (nth 1 line WNull))
                     (map (fun r : list wcell * list wcell => fst r ++ snd r)
                        recs) = true).
  { apply forallb_forall. intros line Hline. apply in_map_iff in Hline.
    destruct Hline as [r [<- Hr]].
    destruct (Hrec r Hr) as [cty [d ->]]. reflexivity. }
  rewrite Hdates. cbn [bind ret].
  eexists. split; [reflexivity|].
  unfold select. cbn [labels lines filter].
  assert (Hm1 : Frame.mem "Country" ("Country" :: "Year" :: data) = true)
    by reflexivity.
  assert (Hm2 : Frame.mem "Year" ("Country" :: "Year" :: data) = true)
    by reflexivity.
  rewrite Hm1, Hm2.
  unfold Frame.get_indexer_for. cbn [flat_map]. rewrite Hpos.
  assert (Hpos0 : Frame.positions_from 0 "Country"
                    ("Country" :: "Year" :: data) = [0]).
  { cbn [Frame.positions_from].
    change (String.eqb "Country" "Country") with true.
    change (String.eqb "Year" "Country") with false.
    cbn iota. rewrite positions_from_notin by exact HCountry. reflexivity. }
  rewrite Hpos0. cbn [app map firstn nth].
  split; [reflexivity|].
  rewrite !map_map. apply map_ext_in. intros r Hr.
  destruct (Hrec r Hr) as [cty [d ->]]. reflexivity.
Qed.

(** X17: when the frame of the provider has, once its index is reset,
    neither a column called [date] nor one called [Year], the loader
    raises [KeyError] on the [Year] column and returns nothing. *)
Theorem wb_needs_a_date w indicators countries start_year end_year
  date_range raw :
  date_range_of start_year end_year = inr date_range ->
  get_dataframe w indicators countries date_range = inr raw ->
  insertable (index_names raw) (data_columns raw) = true ->
  ~ In "date" (index_names raw ++ data_columns raw) ->
  ~ In "Year" (index_names raw ++ data_columns raw) ->
  get_data_WB w indicators countries start_year end_year
  = inl (KeyError "Year").
Proof.
  intros Hdr Hraw Hins Hdate Hyear.
  unfold get_data_WB. rewrite Hdr. cbn [bind]. rewrite Hraw. cbn [bind].
  unfold reset_index. rewrite Hins. cbn [bind ret].
  unfold year_step, rename. cbn [labels].
  rewrite positions_from_notin; [reflexivity|].
  rewrite in_map_iff. intros [c [Hc Hin]]. revert Hc. unfold rename_label.
  destruct (String.eqb_spec c "country"); [discriminate|].
  destruct (String.eqb_spec c "date") as [Hd|Hd].
  - intros _. subst c. exact (Hdate Hin).
  - intros Hc. subst c. exact (Hyear Hin).
Qed.

End WorldBank.

Section WorldBankExamples.

Import Completeness_Ranker World_Bank.

(** A start year given alone changes nothing. *)
Lemma single_bound_is_ignored_witness :
  get_data_WB served gdp (inl "all") (Some 2000%Z) None
  = get_data_WB served gdp (inl "all") None None.
Proof.
  apply single_bound_is_ignored. right. right. left. reflexivity.
Defined.

(** [served] has a column for [GDP], none for [Population], and one that
    was not asked for. *)
Lemma wb_columns_are_requested_witness :
  exists out,
    get_data_WB served gdp (inl "all") (Some 2000%Z) (Some 2001%Z) = inr out
    /\ List.length (lines out) = 4
    /\ In "Year" (labels out)
    /\ In "GDP" (labels out)
    /\ ~ In "Population" (labels out)
    /\ ~ In "extra" (labels out).
Proof.
  eexists. split; [reflexivity|].
  destruct (@wb_columns_are_requested served gdp (inl "all")
              (Some 2000%Z) (Some 2001%Z) _ eq_refl)
    as [dr [raw [Hdr [Hraw [Hlen [Hyear Hcols]]]]]].
  inversion Hdr; subst dr. inversion Hraw; subst raw.
  split; [exact Hlen|]. split; [exact Hyear|]. split; [|split].
  - apply Hcols. split; simpl; auto 6.
  - intros H. apply Hcols in H. destruct H as [_ H].
    simpl in H. intuition discriminate.
  - intros H. apply Hcols in H. destruct H as [H _].
    simpl in H. intuition discriminate.
Defined.

(** The dates served for 2000 and 2001 come back as the years. *)
Lemma wb_year_is_calendar_year_witness :
  exists out,
    get_data_WB served gdp (inl "all") (Some 2000%Z) (Some 2001%Z) = inr out
    /\ firstn 2 (labels out) = ["Country"; "Year"]
    /\ map (firstn 2) (lines out)
       = [ [WStr "Chile"; WInt 2000]; [WStr "Chile"; WInt 2001];
           [WStr "Kenya"; WInt 2000]; [WStr "Kenya"; WInt 2001] ].
Proof.
  apply (@wb_year_is_calendar_year served gdp (inl "all")
           (Some 2000%Z) (Some 2001%Z) _ _ eq_refl eq_refl eq_refl).
  - intros c Hc. simpl in Hc. simpl. intuition (subst; discriminate).
  - intros r Hr. simpl in Hr.
    repeat (destruct Hr as [<-|Hr]; [do 2 eexists; reflexivity|]).
    contradiction.
Defined.

(** Without a date level there is no [Year] column to read. *)
Lemma wb_needs_a_date_witness :
  get_data_WB undated gdp (inl "all") None None = inl (KeyError "Year").
Proof.
  apply (@wb_needs_a_date undated gdp (inl "all") None None _ _
           eq_refl eq_refl eq_refl);
    simpl; intuition discriminate.
Defined.

End WorldBankExamples.

(** * Column names *)

Section ColumnNames.

Lemma isspace_lower_char c : Py.isspace (Py.lower_char c) = Py.isspace c.
Proof. destruct c as [[] [] [] [] [] [] [] []]; reflexivity. Qed.

Lemma rstrip_cons c s :
  Py.rstrip (String c s)
  = match Py.rstrip s with
    | EmptyString =>
        if Py.isspace c then EmptyString else String c EmptyString
    | r => String c r
    end.
Proof. reflexivity. Qed.

Lemma lstrip_lower s : Py.lstrip (Py.lower s) = Py.lower (Py.lstrip s).
Proof.
  induction s as [|c s IH]; [reflexivity|].
  cbn [Py.lower Py.lstrip]. rewrite isspace_lower_char.
  destruct (Py.isspace c); [exact IH | reflexivity].
Qed.

Lemma rstrip_lower s : Py.rstrip (Py.lower s) = Py.lower (Py.rstrip s).
Proof.
  induction s as [|c s IH]; [reflexivity|].
  cbn [Py.lower]. rewrite !rstrip_cons, IH, isspace_lower_char.
  destruct (Py.rstrip s); cbn [Py.lower];
    [destruct (Py.isspace c); reflexivity | reflexivity].
Qed.

Lemma lstrip_idem s : Py.lstrip (Py.lstrip s) = Py.lstrip s.
Proof.
  induction s as [|c s IH]; [reflexivity|]. cbn [Py.lstrip].
  destruct (Py.isspace c) eqn:E; [exact IH|].
  cbn [Py.lstrip]. rewrite E. reflexivity.
Qed.

Lemma rstrip_idem s : Py.rstrip (Py.rstrip s) = Py.rstrip s.
Proof.
  induction s as [|c s IH]; [reflexivity|]. rewrite rstrip_cons.
  destruct (Py.rstrip s) as [|a r] eqn:E.
  - destruct (Py.isspace c) eqn:Ec; [reflexivity|].
    rewrite rstrip_cons. cbn [Py.rstrip]. rewrite Ec. reflexivity.
  - rewrite rstrip_cons, IH. reflexivity.
Qed.

Lemma length_lstrip s : String.length (Py.lstrip s) <= String.length s.
Proof.
  induction s as [|c s IH]; [apply le_n|]. cbn [Py.lstrip].
  destruct (Py.isspace c); cbn [String.length]; lia.
Qed.

Lemma lstrip_fixed c s :
  Py.lstrip (String c s) = String c s -> Py.isspace c = false.
Proof.
  cbn [Py.lstrip]. destruct (Py.isspace c); [|reflexivity].
  intros H. pose proof (length_lstrip s) as Hlen. rewrite H in Hlen.
  cbn [String.length] in Hlen. lia.
Qed.

Lemma lstrip_rstrip y :
  Py.lstrip y = y -> Py.lstrip (Py.rstrip y) = Py.rstrip y.
Proof.
  destruct y as [|c y]; [reflexivity|]. intros H.
  pose proof (@lstrip_fixed _ _ H) as Ec. rewrite rstrip_cons.
  destruct (Py.rstrip y); rewrite ?Ec; cbn [Py.lstrip]; rewrite Ec;
    reflexivity.
Qed.

Lemma nonspace_kept c :
  Py.isspace c = false -> (if Ascii.eqb c " " then "_"%char else c) = c.
Proof.
  intros H. destruct (Ascii.eqb_spec c " ") as [->|]; [discriminate H|].
  reflexivity.
Qed.

Lemma lstrip_replace t :
  Py.lstrip t = t -> Py.lstrip (Py.replace_space t) = Py.replace_space t.
Proof.
  destruct t as [|c t]; [reflexivity|]. intros H.
  pose proof (@lstrip_fixed _ _ H) as Ec.
  cbn [Py.replace_space]. rewrite (@nonspace_kept _ Ec).
  cbn [Py.lstrip]. rewrite Ec. reflexivity.
Qed.

Lemma rstrip_replace t :
  Py.rstrip t = t -> Py.rstrip (Py.replace_space t) = Py.replace_space t.
Proof.
  induction t as [|c t IH]; [reflexivity|].
  rewrite rstrip_cons. intros H. cbn [Py.replace_space]. rewrite rstrip_cons.
  destruct (Py.rstrip t) as [|a r] eqn:E.
  - destruct (Py.isspace c) eqn:Ec; [discriminate H|].
    injection H as Ht. subst t. cbn [Py.replace_space Py.rstrip].
    rewrite (@nonspace_kept _ Ec), Ec. reflexivity.
  - injection H as Ht. rewrite IH by (first [exact Ht | rewrite E; exact Ht]).
    rewrite <- Ht. reflexivity.
Qed.

Lemma lower_replace_lower x :
  Py.lower (Py.replace_space (Py.lower x)) = Py.replace_space (Py.lower x).
Proof.
  induction x as [|c x IH]; [reflexivity|].
  cbn [Py.lower Py.replace_space]. rewrite IH. f_equal.
  destruct c as [[] [] [] [] [] [] [] []]; reflexivity.
Qed.

Lemma replace_replace y :
  Py.replace_space (Py.replace_space y) = Py.replace_space y.
Proof.
  induction y as [|c y IH]; [reflexivity|].
  cbn [Py.replace_space]. rewrite IH. f_equal.
  destruct (Ascii.eqb_spec c " ") as [->|Hne]; [reflexivity|].
  destruct (Ascii.eqb_spec c " "); [contradiction | reflexivity].
Qed.

(** A normalized label is left as it is by each of the three steps. *)
Lemma normalized_fixed s :
  let u := Py.replace_space (Py.lower (Py.strip s)) in
  Py.strip u = u /\ Py.lower u = u /\ Py.replace_space u = u.
Proof.
  intros u. unfold u.
  assert (Hl : Py.lstrip (Py.strip s) = Py.strip s).
  { unfold Py.strip. apply lstrip_rstrip. apply lstrip_idem. }
  assert (Hr : Py.rstrip (Py.strip s) = Py.strip s).
  { unfold Py.strip. apply rstrip_idem. }
  split; [|split].
  - unfold Py.strip at 1. rewrite lstrip_replace.
    + apply rstrip_replace. rewrite rstrip_lower, Hr. reflexivity.
    + rewrite lstrip_lower, Hl. reflexivity.
  - apply lower_replace_lower.
  - apply replace_replace.
Qed.

Lemma in_normalized_chars x c :
  In c (list_ascii_of_string (Py.replace_space (Py.lower x))) ->
  c <> " "%char /\ Py.lower_char c = c.
Proof.
  induction x as [|a x IH]; [intros []|].
  cbn [Py.lower Py.replace_space list_ascii_of_string].
  intros [<-|H]; [|exact (IH H)].
  destruct a as [[] [] [] [] [] [] [] []]; split;
    try discriminate; reflexivity.
Qed.

(** X16: normalizing the column names a second time changes nothing, and
    a normalized name holds no space and no capital letter. *)
Theorem normalize_columns_twice df :
  normalize_columns (normalize_columns df) = normalize_columns df
  /\ forall label c,
       In label (columns (normalize_columns df)) ->
       In c (list_ascii_of_string label) ->
       c <> " "%char /\ Py.lower_char c = c.
Proof.
  split.
  - unfold normalize_columns. cbn [columns rows]. f_equal.
    rewrite map_map. apply map_ext. intros s.
    destruct (normalized_fixed s) as [Hs [Hl Hr]].
    rewrite Hs, Hl, Hr. reflexivity.
  - unfold normalize_columns. cbn [columns]. intros label c Hlabel Hc.
    apply in_map_iff in Hlabel. destruct Hlabel as [s [<- _]].
    apply (@in_normalized_chars _ _ Hc).
Qed.

End ColumnNames.
